(** * Forecast -- Inventory Reorder Predictor: a shallow embedding of [src/App.js]

    The development follows the source file top to bottom:

    - [JSNumber]: the fragment of JavaScript's number type (IEEE 754 binary64)
      and of [Math] that the program uses, over Rocq's primitive floats;
    - [generateProducts]: the synthetic data generator and its business rule;
    - [Tf]: the operations of the tensor library the program calls
      ([tensor2d], [sub], [divNoNan], [min], [max], [slice]), on tensors
      whose entries are binary32 numbers;
    - [normalize], [buildAndTrainModel], [trainAndPredict]: the training
      pipeline, in an error monad, over an application state that records the
      React state cells and the user-visible effects;
    - [downloadCSV]: the comma-separated export.

    [Math.sin], [Math.cos] and the fitted network are supplied by the host and
    by the tensor library; they are Section variables throughout.

    The properties come after the definitions, in the same order, preceded
    by what they need of binary64 arithmetic: the integers below [2^53] are
    numbers, their sums, differences and comparisons are exact, and
    [Math.floor(n * 0.8)] is the integer quotient of [4 n] by [5] for every
    array length.

    The last parts follow the page through its handlers, a cycle being
    split where the source awaits the fit and the scores: what the dashboard
    shows, what a failed cycle leaves behind, the life of the fitted models
    up to the cleanup on unmount and past it, the data model of the records,
    the range of the normalized features (which needs rounding to binary32),
    and the business rule against exact arithmetic. *)

From Stdlib Require Import ZArith List Bool Lia String Ascii.
From Stdlib Require Import Floats DecimalString DecimalZ.
Import ListNotations.

Set Warnings "-inexact-float".
#[local] Open Scope Z_scope.

(** ** JavaScript numbers *)

Module JSNumber.

(** A JavaScript number is a binary64 float: the type [float] below. *)

(** The number nearest to an integer (round to nearest even, overflow to
    infinity): the value an integer literal or an exact integer result has. *)
Definition of_Z (z : Z) : float :=
  SF2Prim (binary_normalize prec emax z 0 false).

(** The signed numerator of a finite non-zero float [(-1)^s * m * 2^e]. *)
Definition signed (s : bool) (m : positive) : Z :=
  if s then Z.neg m else Z.pos m.

(** The exact integer value of a number, when it is finite and integral. *)
Definition to_integer (x : float) : option Z :=
  match Prim2SF x with
  | S754_zero _ => Some 0
  | S754_finite s m e =>
      if 0 <=? e then Some (signed s m * 2 ^ e)
      else if Z.pos m mod 2 ^ (- e) =? 0 then Some (signed s m / 2 ^ (- e))
      else None
  | S754_infinity _ | S754_nan => None
  end.

(** [Number.isSafeInteger]. *)
Definition isSafeInteger (x : float) : bool :=
  match to_integer x with
  | Some z => Z.abs z <=? 2 ^ 53 - 1
  | None => false
  end.

(** [Math.abs]. *)
Definition Math_abs (x : float) : float := abs x.

(** [Math.max] of two arguments: NaN if either is NaN, and [+0] is larger
    than [-0]. *)
Definition Math_max (a b : float) : float :=
  if is_nan a || is_nan b then nan
  else if (a <? b)%float then b
  else if (b <? a)%float then a
  else if get_sign a then b else a.

(** [Math.floor]: the largest integral number not above [x]. *)
Definition Math_floor (x : float) : float :=
  match Prim2SF x with
  | S754_finite s m e =>
      if 0 <=? e then x else of_Z (signed s m / 2 ^ (- e))
  | _ => x
  end.

(** [Math.round]: the integral number closest to [x], ties towards
    [+Infinity]; the sign of a zero result is the sign of [x]. *)
Definition Math_round (x : float) : float :=
  match Prim2SF x with
  | S754_finite s m e =>
      if 0 <=? e then x
      else
        let q := (2 * signed s m + 2 ^ (- e)) / 2 ^ (- e + 1) in
        if q =? 0 then (if s then neg_zero else zero) else of_Z q
  | _ => x
  end.

(** [String(i)] for an integer [i]: its decimal digits. *)
Definition Z_toString (z : Z) : string :=
  NilZero.string_of_int (Z.to_int z).

(** JavaScript truthiness of a number: [0], [-0] and [NaN] are falsy. *)
Definition truthy (x : float) : bool :=
  negb (is_zero x || is_nan x).

End JSNumber.

Import JSNumber.

Example of_Z_150 : of_Z 150 = 150%float.
Proof. reflexivity. Qed.

Example Math_round_half_up :
  map Math_round [2.5; 2.4; -2.5; -2.6; 0.49999999999999994; 119.5; -0.2]%float
  = [3; 2; -2; -3; 0; 120; -0]%float.
Proof. vm_compute. reflexivity. Qed.

Example Math_floor_examples :
  map Math_floor [120.00000000000001; -0.5; 0.5; 119.99999999999999]%float
  = [120; -1; 0; 119]%float.
Proof. vm_compute. reflexivity. Qed.

Example Math_max_examples :
  (Math_max 1 0, Math_max 1 57, Math_max 0 (-0), Math_max (-0) 0)
  = (1, 57, 0, 0)%float /\ is_nan (Math_max 1 nan) = true.
Proof. vm_compute. split; reflexivity. Qed.

Example to_integer_examples :
  map to_integer [150; 0.5; -3; infinity; -0]%float
  = [Some 150; None; Some (-3); None; Some 0].
Proof. vm_compute. reflexivity. Qed.

(** ** The product record *)

(** One row of the React state cell [products].  The three prediction
    properties are absent ([None]) until a training cycle has stored them;
    a property holding [undefined] is [None] as well (the program reads them
    only through [??], [!= null] and truthiness, which do not tell the two
    apart). *)
Record Product : Set := mkProduct {
  id : float;
  name : string;
  currentInventory : float;
  avgSalesPerWeek : float;
  daysToReplenish : float;
  reorder : float;
  predictionScore : option float;
  prediction : option float;
  predictionText : option string
}.

(** ** [generateProducts] *)

Section Generator.

(** The host's [Math.sin] and [Math.cos]. *)
Variable Math_sin Math_cos : float -> float.

Definition names : list string :=
  [ "Choco Bar"; "Soda Pack"; "Rice 5kg"; "Coffee Beans"; "Toothpaste";
    "Shampoo"; "Notebook"; "Pen"; "Soap Bar"; "Cereal"; "Juice Bottle";
    "Water Bottle"; "Ketchup"; "Mayonnaise"; "Cookies"; "Tea Box";
    "Nuts Pack"; "Olive Oil"; "Pasta"; "Sauce" ]%string.

(** [names[k]], which is [undefined] out of range. *)
Definition names_at (k : Z) : string :=
  nth (Z.to_nat k) names "undefined"%string.

Definition safetyFactor : float := 1.25.

(** The body of the loop at counter [i]: the object pushed on [products].
    The counter is an integer and [of_Z i] is its number: below [2^53] the
    numbers count as the integers do (see [of_Z_succ], [of_Z_leb] and
    [to_integer_of_Z]). *)
Definition product_at (i : Z) : Product :=
  let name :=
    (names_at (Z.rem i (Z.of_nat (List.length names))) ++ " " ++ Z_toString i)%string in
  let avgSalesPerWeek :=
    Math_max 1 (Math_round (Math_abs (Math_sin (of_Z i * 11) * 120)%float)) in
  let currentInventory :=
    Math_max 0 (Math_round (Math_abs (Math_cos (of_Z i * 7) * 400)%float)) in
  let daysToReplenish := (1 + of_Z (Z.rem i 21))%float in
  let expectedDuringLead := (avgSalesPerWeek * (daysToReplenish / 7))%float in
  let reorder :=
    if (currentInventory <? expectedDuringLead * safetyFactor)%float
    then 1%float else 0%float in
  {| id := of_Z i;
     name := name;
     currentInventory := currentInventory;
     avgSalesPerWeek := avgSalesPerWeek;
     daysToReplenish := daysToReplenish;
     reorder := reorder;
     predictionScore := None;
     prediction := None;
     predictionText := None |}.

(** [for (let i = 1; i <= count; i++) products.push(...)]: [fuel] bounds the
    number of iterations, [products] is the array built so far. *)
Fixpoint generate_loop (fuel : nat) (i count : Z) (products : list Product)
  : list Product :=
  match fuel with
  | O => products
  | S fuel' =>
      if i <=? count
      then generate_loop fuel' (i + 1) count (products ++ [product_at i])
      else products
  end.

(** The loop runs [count] times when [count] is positive and not at all
    otherwise, so [Z.to_nat count] iterations exhaust it (see
    [generate_loop_fuel]). *)
Definition generateProducts (count : Z) : list Product :=
  generate_loop (Z.to_nat count) 1 count [].

End Generator.

(** The integers [s, s+1, ..., s+n-1]. *)
Fixpoint Zseq (s : Z) (n : nat) : list Z :=
  match n with
  | O => []
  | S n' => s :: Zseq (s + 1) n'
  end.

(** The business rule, recomputed from the three fields of a record. *)
Definition rule_holds (p : Product) : bool :=
  (currentInventory p <? avgSalesPerWeek p * (daysToReplenish p / 7) * 1.25)%float.

(** ** Numbers as text *)

Section NumberFormat.

(** [Number::toString] of a finite number that is not a safe integer (a
    fraction, or an integer of more than 53 bits): the shortest decimal that
    reads back as the number.  The program prints such a number only through
    this function of the host, which is left abstract. *)
Variable toString_other : float -> string.

(** [String(x)], as [Array.prototype.join] and string concatenation apply
    it to a number. *)
Definition Number_toString (x : float) : string :=
  if is_nan x then "NaN"%string
  else match to_integer x with
       | Some z =>
           if Z.abs z <=? 2 ^ 53 - 1 then Z_toString z else toString_other x
       | None =>
           if (x =? infinity)%float then "Infinity"%string
           else if (x =? neg_infinity)%float then "-Infinity"%string
           else toString_other x
       end.

(** [n] copies of the digit zero. *)
Fixpoint zeros (n : nat) : string :=
  match n with
  | O => EmptyString
  | S n' => String "0" (zeros n')
  end.

(** The digits of the integer [n >= 0] with a decimal point before the last
    [f] of them, padded with zeros on the left to [f + 1] digits. *)
Definition fixed_digits (f : nat) (n : Z) : string :=
  let m := Z_toString n in
  match f with
  | O => m
  | S _ =>
      let k := String.length m in
      let m := if (k <=? f)%nat then (zeros (f + 1 - k) ++ m)%string else m in
      let k := String.length m in
      (substring 0 (k - f) m ++ "." ++ substring (k - f) f m)%string
  end.

(** The integer [n] for which [n / 10^f - x] is closest to zero, the larger
    one when there are two, for a number [x >= 0] below [10^21]. *)
Definition scaled_round (f : nat) (x : float) : Z :=
  match Prim2SF x with
  | S754_finite _ m e =>
      if 0 <=? e then Z.pos m * 2 ^ e * 10 ^ Z.of_nat f
      else (2 * Z.pos m * 10 ^ Z.of_nat f + 2 ^ (- e)) / 2 ^ (- e + 1)
  | _ => 0
  end.

(** [Number.prototype.toFixed]. *)
Definition toFixed (fractionDigits : nat) (x : float) : string :=
  if negb (is_finite x) then Number_toString x
  else
    let s := if (x <? 0)%float then "-"%string else EmptyString in
    let x := if (x <? 0)%float then (- x)%float else x in
    if (1e21 <=? x)%float then (s ++ Number_toString x)%string
    else (s ++ fixed_digits fractionDigits (scaled_round fractionDigits x))%string.

End NumberFormat.

Example toFixed_examples :
  map (toFixed (fun _ => "?"%string) 4)
      [0.75; 1; 0; 0.00004; 0.99994; -0.00001; 0.00005; 12.5; nan]%float
  = [ "0.7500"; "1.0000"; "0.0000"; "0.0000"; "0.9999"; "-0.0000"; "0.0001";
      "12.5000"; "NaN" ]%string.
Proof. vm_compute. reflexivity. Qed.

Example toFixed_percent :
  toFixed (fun _ => "?"%string) 1 (0.9333333373069763 * 100)%float = "93.3"%string
  /\ toFixed (fun _ => "?"%string) 0 2.5%float = "3"%string
  /\ toFixed (fun _ => "?"%string) 2 1.005%float = "1.00"%string.
Proof. vm_compute. repeat split; reflexivity. Qed.

Example Number_toString_examples :
  map (Number_toString (fun _ => "?"%string)) [150; -0; -3; infinity; 0.5]%float
  = [ "150"; "0"; "-3"; "Infinity"; "?" ]%string.
Proof. vm_compute. reflexivity. Qed.

(** ** The tensor operations the program calls *)

Module Tf.

(** A tensor of rank 1 (the per-column minimum and maximum) or of rank 2
    (one row per record).  The program builds rank-2 tensors with
    [tf.tensor2d] from a non-empty array of rows of one length. *)
Inductive Tensor : Set :=
| Vec (v : list float)
| Mat (rows : list (list float)).

(** The entries of a tensor are binary32 floats: the library keeps them in
    a [Float32Array], [tf.tensor2d] stores the numbers of a JavaScript array
    in one, and the kernels of the element-wise operations compute on
    numbers and store their results in one.  Every binary32 float is a
    number, so an entry is a [float] here, and [float32 x] is the binary32
    float nearest to the number [x] (ties to even, overflow to an infinity):
    the entry the array holds once [x] is stored in it. *)
Definition float32 (x : float) : float :=
  match Prim2SF x with
  | S754_finite s m e =>
      match binary_round 24 128 s m e with
      | S754_finite s' m' e' => SF2Prim (binary_round prec emax s' m' e')
      | r => SF2Prim r
      end
  | _ => x
  end.

(** [tf.tensor2d] of an array of rows of numbers. *)
Definition tensor2d (rows : list (list float)) : Tensor :=
  Mat (map (map float32) rows).

Fixpoint map2 {A B C : Type} (f : A -> B -> C) (l : list A) (l' : list B)
  : list C :=
  match l, l' with
  | a :: t, b :: t' => f a b :: map2 f t t'
  | _, _ => []
  end.

(** An element-wise binary operation with a rank-1 operand broadcast over
    the rows of a rank-2 one.  The operands' last dimensions agree in every
    call the program makes: the rows hold three features, and the bounds are
    taken over those rows. *)
Definition broadcast (op : float -> float -> float) (a b : Tensor) : Tensor :=
  match a, b with
  | Vec u, Vec v => Vec (map2 op u v)
  | Mat r, Vec v => Mat (map (fun row => map2 op row v) r)
  | Vec u, Mat r => Mat (map (fun row => map2 op u row) r)
  | Mat r, Mat r' => Mat (map2 (map2 op) r r')
  end.

(** [tf.sub]: the difference of two entries, as an entry. *)
Definition sub_entry (a b : float) : float := float32 (a - b).

Definition sub : Tensor -> Tensor -> Tensor := broadcast sub_entry.

(** [tf.divNoNan]: the quotient of two entries, as an entry, and [0] where
    the denominator is [0]. *)
Definition div_no_nan (a b : float) : float :=
  if (b =? 0)%float then 0%float else float32 (a / b).

Definition divNoNan : Tensor -> Tensor -> Tensor := broadcast div_no_nan.

(** One step of a minimum or maximum reduction: a NaN is kept. *)
Definition min_step (acc x : float) : float :=
  if is_nan x || (x <? acc)%float then x else acc.

Definition max_step (acc x : float) : float :=
  if is_nan x || (acc <? x)%float then x else acc.

Definition reduce_rows (step : float -> float -> float)
  (rows : list (list float)) : list float :=
  match rows with
  | [] => []
  | r :: rs => fold_left (map2 step) rs r
  end.

(** [t.min(0)] and [t.max(0)]: the reduction along the first axis. *)
Definition min0 (t : Tensor) : Tensor :=
  match t with
  | Mat rows => Vec (reduce_rows min_step rows)
  | Vec v => Vec (reduce_rows min_step (map (fun x => [x]) v))
  end.

Definition max0 (t : Tensor) : Tensor :=
  match t with
  | Mat rows => Vec (reduce_rows max_step rows)
  | Vec v => Vec (reduce_rows max_step (map (fun x => [x]) v))
  end.

(** An index or a size given as a number. *)
Definition index_of (x : float) : nat :=
  match to_integer x with
  | Some z => Z.to_nat z
  | None => O
  end.

(** One dimension of [slice]: [size] entries from [begin] on, all the
    remaining ones when [size] is [-1]. *)
Definition slice_dim {A : Type} (begin size : float) (l : list A) : list A :=
  let rest := skipn (index_of begin) l in
  match to_integer size with
  | Some (-1) => rest
  | _ => firstn (index_of size) rest
  end.

(** [t.slice([b0, b1], [n0, n1])] of a rank-2 tensor. *)
Definition slice (t : Tensor) (begin size : float * float) : Tensor :=
  match t with
  | Mat rows =>
      Mat (map (slice_dim (snd begin) (snd size))
               (slice_dim (fst begin) (fst size) rows))
  | Vec v => Vec (slice_dim (fst begin) (fst size) v)
  end.

(** The rows of a tensor. *)
Definition rows_of (t : Tensor) : list (list float) :=
  match t with
  | Mat rows => rows
  | Vec v => [v]
  end.

End Tf.

(** ** [normalize] *)

Definition normalize (tensor min max : Tf.Tensor) : Tf.Tensor :=
  let sub := Tf.sub tensor min in
  let range := Tf.sub max min in
  Tf.divNoNan sub range.

Example normalize_example :
  normalize (Tf.Mat [[10; 5; 3]; [20; 5; 9]; [15; 5; 6]]%float)
            (Tf.Vec [10; 5; 3]%float) (Tf.Vec [20; 5; 9]%float)
  = Tf.Mat [[0; 0; 0]; [1; 0; 1]; [0.5; 0; 0.5]]%float.
Proof. vm_compute. reflexivity. Qed.

Example min0_max0_example :
  let t := Tf.Mat [[10; 5; 3]; [20; 5; 9]; [15; 5; 6]]%float in
  Tf.min0 t = Tf.Vec [10; 5; 3]%float /\ Tf.max0 t = Tf.Vec [20; 5; 9]%float.
Proof. vm_compute. split; reflexivity. Qed.

Example slice_example :
  let t := Tf.Mat [[1; 2]; [3; 4]; [5; 6]; [7; 8]; [9; 10]]%float in
  Tf.slice t (0, 0)%float (4, -1)%float = Tf.Mat [[1; 2]; [3; 4]; [5; 6]; [7; 8]]%float
  /\ Tf.slice t (4, 0)%float (1, -1)%float = Tf.Mat [[9; 10]]%float.
Proof. vm_compute. split; reflexivity. Qed.

(** ** Exceptions *)

(** A thrown [Error] object. *)
Record JsError : Set := mkError { err_name : string; message : string }.

(** How a call ends: it returns a value or throws. *)
Inductive Outcome (A : Type) : Type :=
| Returned (a : A)
| Thrown (e : JsError).

Arguments Returned {A} a.
Arguments Thrown {A} e.

(** [String(err)]: [Error.prototype.toString]. *)
Definition Error_toString (err : JsError) : string :=
  if String.eqb (err_name err) "" then message err
  else if String.eqb (message err) "" then err_name err
  else (err_name err ++ ": " ++ message err)%string.

(** ** The component [App] *)

Section App.

(** The host's [Math.sin] and [Math.cos], and its printing of the numbers
    that are not safe integers. *)
Variable Math_sin Math_cos : float -> float.
Variable toString_other : float -> string.

(** The tensor library's network.  [tf_fit seed xTrain yTrain xVal yVal]
    stands for building the three dense layers, [model.compile] and
    [model.fit]: it throws or returns the fitted model with
    [history.history.val_accuracy].  [seed] is the library's random state at
    the call (weight initialisation and minibatch shuffling draw from it).
    [tf_predict] stands for [model.predict] followed by [preds.data()]. *)
Variable Model : Type.
Variable tf_fit :
  nat -> Tf.Tensor -> Tf.Tensor -> Tf.Tensor -> Tf.Tensor ->
  Outcome (Model * option (list float)).
Variable tf_predict : Model -> Tf.Tensor -> Outcome (list float).

(** The state cell [stats]. *)
Record Stats : Set := mkStats {
  total : Z;
  serverReorders : Z;
  modelReorders : Z;
  modelAccuracy : string
}.

(** [modelStore.current] when it is not [null]. *)
Record StoredModel : Type := mkStored {
  model : Model;
  xMin : Tf.Tensor;
  xMax : Tf.Tensor
}.

(** What a handler does that is visible outside the state cells. *)
Inductive Effect : Type :=
| Alert (msg : string)
| ConsoleError (err : JsError)
| ModelFit (seed : nat) (xTrain yTrain xVal yVal : Tf.Tensor)
| ModelPredict (m : Model) (input : Tf.Tensor)
| ModelDispose (m : Model)
| Download (filename csv : string).

(** The state cells of [App], the ref [modelStore], and the effects so far
    (oldest first). *)
Record AppState : Type := mkApp {
  products : list Product;
  runningModel : bool;
  stats : Stats;
  modelStore : option StoredModel;
  effects : list Effect
}.

(** A handler: a state transformer that returns or throws. *)
Definition M (A : Type) : Type := AppState -> Outcome A * AppState.

Definition ret {A : Type} (a : A) : M A := fun s => (Returned a, s).

Definition throw {A : Type} (e : JsError) : M A := fun s => (Thrown e, s).

Definition bind {A B : Type} (c : M A) (k : A -> M B) : M B :=
  fun s =>
    match c s with
    | (Returned a, s') => k a s'
    | (Thrown e, s') => (Thrown e, s')
    end.

Notation "x <- c ;; k" := (bind c (fun x => k))
  (at level 61, c at next level, right associativity).
Notation "c ;; k" := (bind c (fun _ => k))
  (at level 61, right associativity).

(** [try { body } catch (err) { handler }]. *)
Definition try_catch {A : Type} (body : M A) (handler : JsError -> M A) : M A :=
  fun s =>
    match body s with
    | (Returned a, s') => (Returned a, s')
    | (Thrown e, s') => handler e s'
    end.

(** [try { body } finally { fin }]. *)
Definition try_finally {A : Type} (body : M A) (fin : M unit) : M A :=
  fun s =>
    let (o, s') := body s in
    match fin s' with
    | (Returned _, s'') => (o, s'')
    | (Thrown e, s'') => (Thrown e, s'')
    end.

Definition emit (e : Effect) : M unit :=
  fun s => (Returned tt,
            mkApp (products s) (runningModel s) (stats s) (modelStore s)
                  (effects s ++ [e])).

Definition alert (msg : string) : M unit := emit (Alert msg).

Definition console_error (err : JsError) : M unit := emit (ConsoleError err).

Definition setProducts (ps : list Product) : M unit :=
  fun s => (Returned tt,
            mkApp ps (runningModel s) (stats s) (modelStore s) (effects s)).

Definition setRunningModel (b : bool) : M unit :=
  fun s => (Returned tt,
            mkApp (products s) b (stats s) (modelStore s) (effects s)).

Definition setStats (f : Stats -> Stats) : M unit :=
  fun s => (Returned tt,
            mkApp (products s) (runningModel s) (f (stats s)) (modelStore s)
                  (effects s)).

Definition setModelStore (m : StoredModel) : M unit :=
  fun s => (Returned tt,
            mkApp (products s) (runningModel s) (stats s) (Some m) (effects s)).

(** A call into the library: the call is recorded, then it returns or
    throws. *)
Definition call {A : Type} (e : Effect) (r : Outcome A) : M A :=
  emit e ;; (fun s => (r, s)).

(** [data.reduce((acc, p) => acc + (test(p) ? 1 : 0), 0)]. *)
Definition count_where (test : Product -> bool) (data : list Product) : Z :=
  fold_left (fun acc p => acc + (if test p then 1 else 0)) data 0.

(** [p.reorder ? 1 : 0] and [x.prediction ? 1 : 0]. *)
Definition reorder_truthy (p : Product) : bool := truthy (reorder p).

Definition prediction_truthy (p : Product) : bool :=
  match prediction p with
  | Some v => truthy v
  | None => false
  end.

Definition initialState : AppState :=
  mkApp [] false (mkStats 0 0 0 "N/A") None [].

(** The effect run on load and the handler of "Regenerate Products". *)
Definition regenerate : M unit :=
  let data := generateProducts Math_sin Math_cos 150 in
  setProducts data ;;
  setStats (fun s => mkStats (Z.of_nat (List.length data))
                             (count_where reorder_truthy data)
                             (modelReorders s) (modelAccuracy s)).

(** The row [[p.currentInventory, p.avgSalesPerWeek, p.daysToReplenish]]. *)
Definition features (p : Product) : list float :=
  [currentInventory p; avgSalesPerWeek p; daysToReplenish p].

(** What [buildAndTrainModel] returns. *)
Record Trained : Type := mkTrained {
  t_model : Model;
  t_xMin : Tf.Tensor;
  t_xMax : Tf.Tensor;
  valAcc : option float
}.

(** [Math.floor(total * 0.8)]. *)
Definition split_of (total : float) : float := Math_floor (total * 0.8)%float.

(** The four tensors handed to [model.fit]. *)
Definition train_val_split (items : list Product)
  : Tf.Tensor * Tf.Tensor * Tf.Tensor * Tf.Tensor :=
  let xs := map features items in
  let ys := map (fun p => [reorder p]) items in
  let xTensor := Tf.tensor2d xs in
  let yTensor := Tf.tensor2d ys in
  let xMin := Tf.min0 xTensor in
  let xMax := Tf.max0 xTensor in
  let xNorm := normalize xTensor xMin xMax in
  let total := of_Z (Z.of_nat (List.length items)) in
  let split := split_of total in
  let xTrain := Tf.slice xNorm (0, 0)%float (split, -1)%float in
  let yTrain := Tf.slice yTensor (0, 0)%float (split, -1)%float in
  let xVal := Tf.slice xNorm (split, 0)%float ((total - split)%float, -1)%float in
  let yVal := Tf.slice yTensor (split, 0)%float ((total - split)%float, -1)%float in
  (xTrain, yTrain, xVal, yVal).

(** The last entry of [history.history.val_accuracy], or [null]. *)
Definition last_val_accuracy (h : option (list float)) : option float :=
  match h with
  | Some l =>
      if negb (List.length l =? 0)%nat then nth_error l (List.length l - 1)
      else None
  | None => None
  end.

(** Dispose the model a previous cycle stored, if any. *)
Definition dispose_stored : M unit :=
  fun s =>
    match modelStore s with
    | Some st => emit (ModelDispose (model st)) s
    | None => (Returned tt, s)
    end.

Definition buildAndTrainModel (seed : nat) (items : list Product) : M Trained :=
  let xTensor := Tf.tensor2d (map features items) in
  let xMin := Tf.min0 xTensor in
  let xMax := Tf.max0 xTensor in
  let '(xTrain, yTrain, xVal, yVal) := train_val_split items in
  history <- call (ModelFit seed xTrain yTrain xVal yVal)
                  (tf_fit seed xTrain yTrain xVal yVal) ;;
  let model := fst history in
  let lastValAcc := last_val_accuracy (snd history) in
  dispose_stored ;;
  setModelStore (mkStored model xMin xMax) ;;
  ret (mkTrained model xMin xMax lastValAcc).

(** [products.map((p, i) => f(p, i))]. *)
Fixpoint mapi_from {A B : Type} (f : A -> nat -> B) (i : nat) (l : list A)
  : list B :=
  match l with
  | [] => []
  | a :: t => f a i :: mapi_from f (S i) t
  end.

Definition mapi {A B : Type} (f : A -> nat -> B) (l : list A) : list B :=
  mapi_from f O l.

(** [score > 0.5 ? 1 : 0], where [score] may be [undefined]. *)
Definition predicted_of (score : option float) : float :=
  match score with
  | Some v => if (0.5 <? v)%float then 1%float else 0%float
  | None => 0%float
  end.

(** The record [{ ...p, predictionScore, prediction, predictionText }]. *)
Definition with_prediction (predData : list float) (p : Product) (i : nat)
  : Product :=
  let score := nth_error predData i in
  let predicted := predicted_of score in
  {| id := id p;
     name := name p;
     currentInventory := currentInventory p;
     avgSalesPerWeek := avgSalesPerWeek p;
     daysToReplenish := daysToReplenish p;
     reorder := reorder p;
     predictionScore := score;
     prediction := Some predicted;
     predictionText :=
       Some (if truthy predicted then "Reorder" else "No Reorder")%string |}.

(** [valAcc != null ? (valAcc * 100).toFixed(1) + "%" : "N/A"]. *)
Definition accuracy_text (valAcc : option float) : string :=
  match valAcc with
  | Some v => (toFixed toString_other 1 (v * 100)%float ++ "%")%string
  | None => "N/A"%string
  end.

(** The text of the alert in the [catch] block. *)
Definition error_text (err : JsError) : string :=
  ("Error training/predicting: " ++
   (if negb (String.eqb (message err) "") then message err
    else Error_toString err))%string.

(** The body of the [try] block, over the [products] of the render that
    created the handler. *)
Definition train_body (seed : nat) (products : list Product) : M unit :=
  t <- buildAndTrainModel seed products ;;
  let inputs := map features products in
  let inputTensor := Tf.tensor2d inputs in
  let inputNorm := normalize inputTensor (t_xMin t) (t_xMax t) in
  predData <- call (ModelPredict (t_model t) inputNorm)
                   (tf_predict (t_model t) inputNorm) ;;
  let updated := mapi (with_prediction predData) products in
  let modelReorders := count_where prediction_truthy updated in
  setProducts updated ;;
  setStats (fun _ => mkStats (Z.of_nat (List.length updated))
                             (count_where reorder_truthy updated)
                             modelReorders
                             (accuracy_text (valAcc t))).

Definition trainAndPredict (seed : nat) : M unit :=
  fun s =>
    let products := products s in
    if (List.length products =? 0)%nat
    then alert "No products available." s
    else
      (setRunningModel true ;;
       try_finally
         (try_catch (train_body seed products)
                    (fun err => console_error err ;; alert (error_text err)))
         (setRunningModel false)) s.

(** *** [downloadCSV] *)

Definition dquote : ascii := ascii_of_nat 34.
Definition comma : ascii := ascii_of_nat 44.
Definition newline : ascii := ascii_of_nat 10.

(** [String(p.name).replace(...)]: every double quote of the name is
    replaced by two. *)
Fixpoint escape_quotes (s : string) : string :=
  match s with
  | EmptyString => EmptyString
  | String c t =>
      if Ascii.eqb c dquote
      then String dquote (String dquote (escape_quotes t))
      else String c (escape_quotes t)
  end.

(** The name between double quotes, its own quotes doubled. *)
Definition quoted (s : string) : string :=
  String dquote (escape_quotes s ++ String dquote EmptyString).

(** [a.join(sep)] for an array of strings. *)
Fixpoint join (sep : string) (l : list string) : string :=
  match l with
  | [] => EmptyString
  | [x] => x
  | x :: t => (x ++ sep ++ join sep t)%string
  end.

Definition header : list string :=
  [ "id"; "name"; "currentInventory"; "avgSalesPerWeek"; "daysToReplenish";
    "serverReorder"; "prediction"; "predictionScore" ]%string.

(** The array a product is mapped to, each entry as [join] prints it. *)
Definition csv_fields (p : Product) : list string :=
  [ Number_toString toString_other (id p);
    quoted (name p);
    Number_toString toString_other (currentInventory p);
    Number_toString toString_other (avgSalesPerWeek p);
    Number_toString toString_other (daysToReplenish p);
    Number_toString toString_other (reorder p);
    match prediction p with
    | Some v => Number_toString toString_other v
    | None => EmptyString
    end;
    match predictionScore p with
    | Some v => if truthy v then toFixed toString_other 4 v else EmptyString
    | None => EmptyString
    end ].

Definition csv_row (p : Product) : string :=
  join (String comma EmptyString) (csv_fields p).

Definition csv_of (products : list Product) : string :=
  join (String newline EmptyString)
       (join (String comma EmptyString) header :: map csv_row products).

Definition downloadCSV : M unit :=
  fun s =>
    if (List.length (products s) =? 0)%nat
    then alert "No products to download." s
    else emit (Download "products_with_predictions.csv" (csv_of (products s))) s.

(** *** The cleanup of the effect run on load *)

(** Called when the component unmounts: the stored model, if there is one,
    is disposed, as [buildAndTrainModel] does before it stores a new one. *)
Definition unmount : M unit := dispose_stored.

End App.

Arguments products {Model} _.
Arguments runningModel {Model} _.
Arguments stats {Model} _.
Arguments modelStore {Model} _.
Arguments effects {Model} _.

(** ** A reader of comma-separated text *)

(** The reader the round trip of the export is stated against: rows end at
    a line feed, fields at a comma; a field that opens with a double quote
    runs to the closing one, a doubled quote inside it standing for one
    quote. *)
Module CsvReader.

Inductive Mode : Set := Plain | Quoted | QuoteSeen.

Record St : Set := mkSt {
  mode : Mode;
  cur : string;
  fields : list string;
  rows : list (list string)
}.

Definition start : St := mkSt Plain EmptyString [] [].

Definition push (c : ascii) (m : Mode) (st : St) : St :=
  mkSt m (cur st ++ String c EmptyString) (fields st) (rows st).

Definition end_field (st : St) : St :=
  mkSt Plain EmptyString (fields st ++ [cur st]) (rows st).

Definition end_row (st : St) : St :=
  mkSt Plain EmptyString [] (rows st ++ [fields st ++ [cur st]]).

Definition step (st : St) (c : ascii) : St :=
  match mode st with
  | Plain =>
      if Ascii.eqb c comma then end_field st
      else if Ascii.eqb c newline then end_row st
      else if Ascii.eqb c dquote && String.eqb (cur st) ""
           then mkSt Quoted (cur st) (fields st) (rows st)
      else push c Plain st
  | Quoted =>
      if Ascii.eqb c dquote then mkSt QuoteSeen (cur st) (fields st) (rows st)
      else push c Quoted st
  | QuoteSeen =>
      if Ascii.eqb c dquote then push c Quoted st
      else if Ascii.eqb c comma then end_field st
      else if Ascii.eqb c newline then end_row st
      else push c Plain st
  end.

Fixpoint run (st : St) (text : string) : St :=
  match text with
  | EmptyString => st
  | String c t => run (step st c) t
  end.

(** The rows of a text; the text's end closes the last row. *)
Definition read (text : string) : list (list string) :=
  rows (end_row (run start text)).

(** The columns the round trip is about, as read. *)
Record Row : Set := mkRow {
  r_id : Z;
  r_name : string;
  r_currentInventory : Z;
  r_avgSalesPerWeek : Z;
  r_daysToReplenish : Z;
  r_serverReorder : Z
}.

Definition parse_int (s : string) : option Z :=
  option_map Z.of_int (NilZero.int_of_string s).

Definition row_of_fields (fs : list string) : option Row :=
  match fs with
  | [a; b; c; d; e; f; _; _] =>
      match parse_int a, parse_int c, parse_int d, parse_int e, parse_int f with
      | Some a, Some c, Some d, Some e, Some f => Some (mkRow a b c d e f)
      | _, _, _, _, _ => None
      end
  | _ => None
  end.

Fixpoint all_rows (l : list (list string)) : option (list Row) :=
  match l with
  | [] => Some []
  | fs :: t =>
      match row_of_fields fs, all_rows t with
      | Some r, Some rs => Some (r :: rs)
      | _, _ => None
      end
  end.

(** The first row must be the header of the export. *)
Definition parse (text : string) : option (list Row) :=
  match read text with
  | h :: t => if list_eq_dec string_dec h header then all_rows t else None
  | [] => None
  end.

End CsvReader.

Example csv_row_example :
  csv_row (fun _ => "?"%string)
    (mkProduct 7 "Pen 7" 301 84 8 0 None None None)
  = ("7," ++ quoted "Pen 7" ++ ",301,84,8,0,,")%string
  /\ csv_row (fun _ => "?"%string)
    (mkProduct 7 "Pen 7" 301 84 8 0 (Some 0.75%float) (Some 1%float)
               (Some "Reorder"%string))
  = ("7," ++ quoted "Pen 7" ++ ",301,84,8,0,1,0.7500")%string.
Proof. vm_compute. split; reflexivity. Qed.

Example csv_read_example :
  CsvReader.parse
    (csv_of (fun _ => "?"%string)
       [ mkProduct 7 (String "a" (String dquote (String "," "b"))) 301 84 8 0
                   None None None;
         mkProduct 8 "Soap Bar 8" 12 5 9 1 (Some 0.75%float) (Some 1%float) None ])
  = Some [ CsvReader.mkRow 7 (String "a" (String dquote (String "," "b"))) 301 84 8 0;
           CsvReader.mkRow 8 "Soap Bar 8" 12 5 9 1 ].
Proof. vm_compute. reflexivity. Qed.

(** * Properties *)

(** ** Lists of integers *)

Lemma Zseq_length (n : nat) : forall s, List.length (Zseq s n) = n.
Proof. induction n as [|n IH]; intros s; simpl; [reflexivity | now rewrite IH]. Qed.

Lemma Zseq_nth_error (n : nat) :
  forall s k, (k < n)%nat -> nth_error (Zseq s n) k = Some (s + Z.of_nat k).
Proof.
  induction n as [|n IH]; intros s k Hk; [lia|].
  destruct k as [|k]; simpl.
  - f_equal. lia.
  - rewrite IH by lia. f_equal. lia.
Qed.

Lemma Zseq_In (n : nat) :
  forall s i, In i (Zseq s n) <-> s <= i < s + Z.of_nat n.
Proof.
  induction n as [|n IH]; intros s i; simpl.
  - lia.
  - rewrite IH. lia.
Qed.

(** ** Binary64 arithmetic *)

(** Facts about binary64 subtraction, from the specification of the
    primitive operations. *)
Lemma SFeqb_finite (s1 : bool) (m1 : positive) (e1 : Z)
  (s2 : bool) (m2 : positive) (e2 : Z) :
  SFeqb (S754_finite s1 m1 e1) (S754_finite s2 m2 e2) = true ->
  s1 = s2 /\ m1 = m2 /\ e1 = e2.
Proof.
  unfold SFeqb, SFcompare.
  destruct s1, s2; try discriminate;
    destruct (Z.compare_spec e1 e2) as [He|He|He]; try discriminate;
    destruct (Pos.compare_cont Eq m1 m2) eqn:Hm; try discriminate;
    intros _; apply Pos.compare_eq in Hm; auto.
Qed.

Lemma SFsub_diag (s : bool) (m : positive) (e : Z) :
  SF64sub (S754_finite s m e) (S754_finite s m e) = S754_zero false.
Proof.
  unfold SF64sub, SFsub.
  rewrite Z.min_id. unfold shl_align. rewrite Z.sub_diag. cbn [fst].
  match goal with
  | |- binary_normalize _ _ ?z _ _ = _ => replace z with 0 by lia
  end.
  reflexivity.
Qed.

(** The difference of two equal finite numbers is a zero. *)
Lemma sub_equal_finite (hi lo : float) :
  (hi =? lo)%float = true -> is_finite lo = true ->
  (hi - lo =? 0)%float = true.
Proof.
  intros Heq Hfin.
  rewrite eqb_spec in Heq. rewrite eqb_spec, sub_spec.
  change (Prim2SF 0) with (S754_zero false).
  assert (Hinf : forall s, Prim2SF lo <> S754_infinity s).
  { intros s Hs. unfold is_finite, is_infinity in Hfin.
    rewrite eqb_spec, abs_spec, Hs in Hfin.
    rewrite orb_comm in Hfin. vm_compute in Hfin. discriminate. }
  destruct (Prim2SF hi) as [s1|s1| |s1 m1 e1],
           (Prim2SF lo) as [s2|s2| |s2 m2 e2];
    try (now destruct (Hinf s2)); try discriminate Heq;
    try (destruct s1; discriminate Heq); try (destruct s2; discriminate Heq).
  - destruct s1, s2; reflexivity.
  - apply SFeqb_finite in Heq. destruct Heq as (-> & -> & ->).
    rewrite SFsub_diag. reflexivity.
Qed.

(** *** Integers in binary64 *)

Lemma digits2_size (p : positive) : digits2_pos p = Pos.size p.
Proof. induction p; simpl; congruence. Qed.

Lemma digits2_log2 (p : positive) : Z.pos (digits2_pos p) = Z.log2 (Z.pos p) + 1.
Proof.
  rewrite digits2_size. destruct p; simpl; try reflexivity; lia.
Qed.

Lemma digits2_bounds (p : positive) :
  2 ^ (Z.pos (digits2_pos p) - 1) <= Z.pos p < 2 ^ Z.pos (digits2_pos p).
Proof.
  rewrite digits2_log2.
  replace (Z.log2 (Z.pos p) + 1 - 1) with (Z.log2 (Z.pos p)) by lia.
  apply Z.log2_spec. lia.
Qed.

Lemma digits2_unique (p : positive) (d : Z) :
  2 ^ (d - 1) <= Z.pos p < 2 ^ d -> Z.pos (digits2_pos p) = d.
Proof.
  intros H. rewrite digits2_log2.
  assert (Hd : 0 < d).
  { destruct (Z.lt_ge_cases 0 d); [assumption|].
    assert (2 ^ d <= 2 ^ 0) by (apply Z.pow_le_mono_r; lia). simpl in *. lia. }
  assert (Z.log2 (Z.pos p) = d - 1); [|lia].
  apply Z.log2_unique; [lia|]. replace (Z.succ (d - 1)) with d by lia. exact H.
Qed.

Lemma pos_iter_xO (k m : positive) : Z.pos (Pos.iter xO m k) = Z.pos m * 2 ^ Z.pos k.
Proof.
  revert m. induction k using Pos.peano_ind; intros m.
  - simpl. lia.
  - rewrite Pos.iter_succ. rewrite Pos2Z.inj_xO, IHk.
    rewrite Pos2Z.inj_succ, Z.pow_succ_r by lia. lia.
Qed.

Lemma iter_pos_nat {A : Type} (f : A -> A) (p : positive) :
  forall x, iter_pos f p x = Nat.iter (Pos.to_nat p) f x.
Proof.
  induction p as [p IH|p IH|]; intros x; cbn [iter_pos].
  - rewrite !IH, Pos2Nat.inj_xI.
    replace (S (2 * Pos.to_nat p)) with (Pos.to_nat p + S (Pos.to_nat p))%nat by lia.
    rewrite Nat.iter_add. f_equal. now rewrite Nat.iter_succ_r.
  - rewrite !IH, Pos2Nat.inj_xO.
    replace (2 * Pos.to_nat p)%nat with (Pos.to_nat p + Pos.to_nat p)%nat by lia.
    now rewrite Nat.iter_add.
  - reflexivity.
Qed.

(** [k] right shifts of a mantissa: the quotient, and for an exact start
    the round and sticky bits of the remainder. *)
Lemma shr_1_m (mrs : shr_record) :
  0 <= shr_m mrs -> shr_m (shr_1 mrs) = shr_m mrs / 2.
Proof.
  destruct mrs as [m r s]. cbn [shr_m]. intros Hm.
  destruct m as [|p|p]; [reflexivity| |lia].
  destruct p as [p|p|]; cbn [shr_1 shr_m].
  - rewrite Pos2Z.inj_xI. apply Z.div_unique with 1; lia.
  - rewrite Pos2Z.inj_xO. apply Z.div_unique with 0; lia.
  - reflexivity.
Qed.

Lemma shr_iter_m (k : nat) (mrs : shr_record) :
  0 <= shr_m mrs ->
  shr_m (Nat.iter k shr_1 mrs) = shr_m mrs / 2 ^ Z.of_nat k.
Proof.
  intros Hm. induction k as [|k IH].
  - simpl. now rewrite Z.div_1_r.
  - rewrite Nat.iter_succ, shr_1_m.
    + rewrite IH, Nat2Z.inj_succ, Z.pow_succ_r by lia.
      rewrite Z.div_div by lia. f_equal. lia.
    + rewrite IH. apply Z.div_pos; lia.
Qed.

Lemma shr_1_exact (m : Z) :
  0 <= m -> m mod 2 = 0 ->
  shr_1 (Build_shr_record m false false) = Build_shr_record (m / 2) false false.
Proof.
  intros Hm Hmod. destruct m as [|p|p]; [reflexivity| |lia].
  destruct p as [p|p|]; cbn [shr_1 orb].
  - rewrite Pos2Z.inj_xI in Hmod.
    replace (2 * Z.pos p + 1) with (1 + Z.pos p * 2) in Hmod by lia.
    rewrite Z.mod_add in Hmod by lia. discriminate.
  - f_equal. rewrite Pos2Z.inj_xO. apply Z.div_unique with 0; lia.
  - discriminate.
Qed.

Lemma shr_iter_exact (k : nat) (m : Z) :
  0 <= m -> m mod 2 ^ Z.of_nat k = 0 ->
  Nat.iter k shr_1 (Build_shr_record m false false)
  = Build_shr_record (m / 2 ^ Z.of_nat k) false false.
Proof.
  intros Hm. induction k as [|k IH]; intros Hmod.
  - simpl. now rewrite Z.div_1_r.
  - rewrite Nat.iter_succ.
    rewrite Nat2Z.inj_succ, Z.pow_succ_r in Hmod |- * by lia.
    assert (H2 : m mod 2 ^ Z.of_nat k = 0).
    { apply Z.mod_divide in Hmod; [|lia]. apply Z.mod_divide; [lia|].
      destruct Hmod as [q Hq]. exists (q * 2). lia. }
    rewrite IH by assumption.
    rewrite shr_1_exact.
    + rewrite Z.div_div by lia. f_equal. f_equal. lia.
    + apply Z.div_pos; lia.
    + apply Z.mod_divide in Hmod; [|lia]. destruct Hmod as [q Hq].
      subst m. replace (q * (2 * 2 ^ Z.of_nat k)) with (q * 2 * 2 ^ Z.of_nat k) by lia.
      rewrite Z.div_mul by lia. now rewrite Z.mod_mul.
Qed.

Lemma fexp_value (x : Z) : -1021 <= x -> fexp prec emax x = x - 53.
Proof. intros H. unfold fexp, SpecFloat.emin, prec, emax. lia. Qed.

Lemma shr_fexp_noshift (m : positive) (e : Z) :
  Z.pos (digits2_pos m) = 53 -> -1074 <= e ->
  shr_fexp prec emax (Z.pos m) e loc_Exact
  = (Build_shr_record (Z.pos m) false false, e).
Proof.
  intros Hd He. unfold shr_fexp. cbn [Zdigits2 shr_record_of_loc].
  rewrite Hd, fexp_value by lia.
  replace (53 + e - 53 - e) with 0 by lia. reflexivity.
Qed.

Lemma binary_round_aux_canonical (m : positive) (e : Z) :
  Z.pos (digits2_pos m) = 53 -> -1074 <= e <= 971 ->
  binary_round_aux prec emax false (Z.pos m) e loc_Exact = S754_finite false m e.
Proof.
  intros Hd He. unfold binary_round_aux.
  rewrite shr_fexp_noshift by (assumption || lia).
  cbn [shr_m loc_of_shr_record round_nearest_even].
  rewrite shr_fexp_noshift by (assumption || lia).
  cbn [shr_m]. unfold prec, emax.
  destruct (Z.leb_spec e (1024 - 53)); [reflexivity | lia].
Qed.

Lemma shr_fexp_exact (m : positive) (e : Z) (j : positive) :
  Z.pos (digits2_pos m) = 53 + Z.pos j -> -1074 <= e ->
  Z.pos m mod 2 ^ Z.pos j = 0 ->
  shr_fexp prec emax (Z.pos m) e loc_Exact
  = (Build_shr_record (Z.pos m / 2 ^ Z.pos j) false false, e + Z.pos j).
Proof.
  intros Hd He Hmod. unfold shr_fexp. cbn [Zdigits2 shr_record_of_loc].
  rewrite Hd, fexp_value by lia.
  replace (53 + Z.pos j + e - 53 - e) with (Z.pos j) by lia.
  unfold shr. rewrite iter_pos_nat.
  rewrite shr_iter_exact.
  - now rewrite positive_nat_Z.
  - lia.
  - now rewrite positive_nat_Z.
Qed.

Lemma div_pow2_digits (m : positive) (j : positive) :
  Z.pos (digits2_pos m) = 53 + Z.pos j ->
  exists q, Z.pos m / 2 ^ Z.pos j = Z.pos q /\ Z.pos (digits2_pos q) = 53.
Proof.
  intros Hd. pose proof (digits2_bounds m) as Hb. rewrite Hd in Hb.
  replace (53 + Z.pos j - 1) with (52 + Z.pos j) in Hb by lia.
  rewrite !Z.pow_add_r in Hb by lia.
  assert (Hp : 0 < 2 ^ Z.pos j) by (apply Z.pow_pos_nonneg; lia).
  assert (Hq : 2 ^ 52 <= Z.pos m / 2 ^ Z.pos j < 2 ^ 53).
  { split.
    - apply Z.div_le_lower_bound; lia.
    - apply Z.div_lt_upper_bound; lia. }
  destruct (Z.pos m / 2 ^ Z.pos j) as [|q|q] eqn:Hdiv; try (simpl in Hq; lia).
  exists q. split; [reflexivity|]. apply digits2_unique. exact Hq.
Qed.

Lemma binary_round_aux_exact (m : positive) (e : Z) (j : positive) :
  Z.pos (digits2_pos m) = 53 + Z.pos j -> -1074 <= e -> e + Z.pos j <= 971 ->
  Z.pos m mod 2 ^ Z.pos j = 0 ->
  binary_round_aux prec emax false (Z.pos m) e loc_Exact
  = S754_finite false (Z.to_pos (Z.pos m / 2 ^ Z.pos j)) (e + Z.pos j).
Proof.
  intros Hd He He' Hmod. unfold binary_round_aux.
  rewrite (shr_fexp_exact m e j) by assumption.
  cbn [shr_m loc_of_shr_record round_nearest_even].
  destruct (div_pow2_digits m j Hd) as (q & Hq & Hdq). rewrite Hq.
  rewrite shr_fexp_noshift by (assumption || lia).
  cbn [shr_m Z.to_pos]. unfold prec, emax.
  destruct (Z.leb_spec (e + Z.pos j) (1024 - 53)); [reflexivity | lia].
Qed.

(** The binary64 float of a positive integer below [2^53]: the integer
    itself, with a mantissa of 53 bits. *)
Definition SF_of_pos (z : Z) : spec_float :=
  S754_finite false (Z.to_pos (z * 2 ^ (52 - Z.log2 z))) (Z.log2 z - 52).

Lemma binary_round_integer (m : positive) (e z : Z) :
  e <= 0 -> -1074 <= e -> 0 < z < 2 ^ 53 -> Z.pos m = z * 2 ^ (- e) ->
  binary_round prec emax false m e = SF_of_pos z.
Proof.
  intros He He' Hz Hm. unfold binary_round, SF_of_pos.
  set (l := Z.log2 z).
  assert (Hl : 0 <= l < 53).
  { subst l. split; [apply Z.log2_nonneg|]. apply Z.log2_lt_pow2; lia. }
  assert (Hzl : 2 ^ l <= z < 2 ^ (l + 1)).
  { subst l. apply Z.log2_spec. lia. }
  assert (Hpe : 0 < 2 ^ (- e)) by (apply Z.pow_pos_nonneg; lia).
  assert (Hdm : Z.pos (digits2_pos m) = l + 1 - e).
  { apply digits2_unique. rewrite Hm.
    replace (l + 1 - e - 1) with (l + - e) by lia.
    replace (l + 1 - e) with (l + 1 + - e) by lia.
    rewrite (Z.pow_add_r 2 l (- e)), (Z.pow_add_r 2 (l + 1) (- e)) by lia.
    nia. }
  rewrite Hdm. replace (l + 1 - e + e) with (l + 1) by lia.
  rewrite fexp_value by lia.
  unfold shl_align.
  destruct (l + 1 - 53 - e) as [|k|k] eqn:Hk.
  - (* the mantissa has 53 bits already *)
    assert (He53 : e = l - 52) by lia.
    rewrite binary_round_aux_canonical by lia.
    f_equal; [|lia]. apply Pos2Z.inj. rewrite Z2Pos.id.
    + rewrite Hm. f_equal. f_equal. lia.
    + apply Z.mul_pos_pos; [lia|]. apply Z.pow_pos_nonneg; lia.
  - (* more than 53 bits, the low ones zero *)
    assert (Hmod : Z.pos m mod 2 ^ Z.pos k = 0).
    { rewrite Hm. replace (- e) with (Z.pos k + (52 - l)) by lia.
      rewrite Z.pow_add_r by lia.
      replace (z * (2 ^ Z.pos k * 2 ^ (52 - l)))
        with (z * 2 ^ (52 - l) * 2 ^ Z.pos k) by lia.
      apply Z.mod_mul. apply Z.pow_nonzero; lia. }
    rewrite (binary_round_aux_exact m e k) by (assumption || lia).
    f_equal; [|lia]. f_equal. rewrite Hm.
    replace (- e) with (Z.pos k + (52 - l)) by lia.
    rewrite Z.pow_add_r by lia.
    replace (z * (2 ^ Z.pos k * 2 ^ (52 - l)))
      with (z * 2 ^ (52 - l) * 2 ^ Z.pos k) by lia.
    apply Z.div_mul. apply Z.pow_nonzero; lia.
  - (* fewer than 53 bits: shifted left *)
    assert (Hmk : Z.pos (Pos.iter xO m k) = z * 2 ^ (52 - l)).
    { rewrite pos_iter_xO, Hm. rewrite <- Z.mul_assoc, <- Z.pow_add_r by lia.
      f_equal. f_equal. lia. }
    rewrite binary_round_aux_canonical.
    + f_equal; [|lia]. apply Pos2Z.inj. rewrite Z2Pos.id; [exact Hmk|].
      rewrite <- Hmk. lia.
    + apply digits2_unique. rewrite Hmk.
      assert (H52 : 0 < 2 ^ (52 - l)) by (apply Z.pow_pos_nonneg; lia).
      replace (2 ^ (53 - 1)) with (2 ^ l * 2 ^ (52 - l))
        by (rewrite <- Z.pow_add_r by lia; f_equal; lia).
      replace (2 ^ 53) with (2 ^ (l + 1) * 2 ^ (52 - l))
        by (rewrite <- Z.pow_add_r by lia; f_equal; lia).
      nia.
    + lia.
Qed.

Lemma SF_of_pos_mantissa (z : Z) :
  0 < z < 2 ^ 53 ->
  let l := Z.log2 z in
  0 <= l < 53 /\ 2 ^ l <= z < 2 ^ (l + 1)
  /\ 0 < 2 ^ (52 - l)
  /\ 2 ^ 52 <= z * 2 ^ (52 - l) < 2 ^ 53.
Proof.
  intros Hz l.
  assert (Hl : 0 <= l < 53).
  { subst l. split; [apply Z.log2_nonneg|]. apply Z.log2_lt_pow2; lia. }
  assert (Hzl : 2 ^ l <= z < 2 ^ (l + 1)).
  { subst l. apply Z.log2_spec. lia. }
  assert (H52 : 0 < 2 ^ (52 - l)) by (apply Z.pow_pos_nonneg; lia).
  repeat split; try lia.
  - replace (2 ^ 52) with (2 ^ l * 2 ^ (52 - l))
      by (rewrite <- Z.pow_add_r by lia; f_equal; lia).
    nia.
  - replace (2 ^ 53) with (2 ^ (l + 1) * 2 ^ (52 - l))
      by (rewrite <- Z.pow_add_r by lia; f_equal; lia).
    nia.
Qed.

Lemma SF_of_pos_valid (z : Z) :
  0 < z < 2 ^ 53 -> valid_binary (SF_of_pos z) = true.
Proof.
  intros Hz. destruct (SF_of_pos_mantissa z Hz) as (Hl & _ & _ & Hm).
  unfold SF_of_pos, SpecFloat.valid_binary, bounded, canonical_mantissa.
  assert (Hd : Z.pos (digits2_pos (Z.to_pos (z * 2 ^ (52 - Z.log2 z)))) = 53).
  { apply digits2_unique. rewrite Z2Pos.id by lia. exact Hm. }
  rewrite Hd, fexp_value by lia.
  apply andb_true_intro. split.
  - apply Z.eqb_eq. lia.
  - apply Z.leb_le. unfold emax, prec. lia.
Qed.

(** The number of an integer below [2^53] is the integer. *)
Lemma Prim2SF_of_Z (z : Z) :
  0 < z < 2 ^ 53 -> Prim2SF (of_Z z) = SF_of_pos z.
Proof.
  intros Hz. unfold of_Z.
  destruct z as [|m|m]; try lia.
  cbn [binary_normalize].
  rewrite (binary_round_integer m 0 (Z.pos m)) by (try lia; simpl; lia).
  apply Prim2SF_SF2Prim, SF_of_pos_valid. exact Hz.
Qed.

Lemma to_integer_of_Z (z : Z) :
  0 <= z < 2 ^ 53 -> to_integer (of_Z z) = Some z.
Proof.
  intros Hz. destruct (Z.eq_dec z 0) as [->|Hnz]; [reflexivity|].
  assert (Hz' : 0 < z < 2 ^ 53) by lia.
  destruct (SF_of_pos_mantissa z Hz') as (Hl & _ & H52 & Hm).
  unfold to_integer. rewrite Prim2SF_of_Z by assumption. unfold SF_of_pos.
  cbn [signed]. rewrite Z2Pos.id by lia.
  destruct (Z.leb_spec 0 (Z.log2 z - 52)) as [He|He].
  - replace (Z.log2 z - 52) with 0 by lia.
    replace (52 - Z.log2 z) with 0 by lia. f_equal. simpl. lia.
  - replace (- (Z.log2 z - 52)) with (52 - Z.log2 z) by lia.
    rewrite Z.mod_mul by lia. rewrite Z.eqb_refl.
    now rewrite Z.div_mul by lia.
Qed.

Lemma of_Z_zero : Prim2SF (of_Z 0) = S754_zero false.
Proof. reflexivity. Qed.

(** Subtraction of integers below [2^53] is exact. *)
Lemma of_Z_sub (n k : Z) :
  0 <= k <= n -> n < 2 ^ 53 -> (of_Z n - of_Z k)%float = of_Z (n - k).
Proof.
  intros Hk Hn. apply Prim2SF_inj. rewrite sub_spec.
  destruct (Z.eq_dec k 0) as [->|Hk0].
  - rewrite Z.sub_0_r, of_Z_zero.
    destruct (Z.eq_dec n 0) as [->|Hn0]; [reflexivity|].
    rewrite Prim2SF_of_Z by lia. reflexivity.
  - destruct (Z.eq_dec n k) as [->|Hnk].
    + rewrite Z.sub_diag, of_Z_zero, Prim2SF_of_Z by lia. apply SFsub_diag.
    + rewrite !Prim2SF_of_Z by lia.
      destruct (SF_of_pos_mantissa n ltac:(lia)) as (Hln & Hn2 & Hn52 & Hmn).
      destruct (SF_of_pos_mantissa k ltac:(lia)) as (Hlk & Hk2 & Hk52 & Hmk).
      assert (Hlkn : Z.log2 k <= Z.log2 n) by (apply Z.log2_le_mono; lia).
      unfold SF_of_pos at 1 2. unfold SF64sub, SFsub.
      rewrite Z.min_r by lia.
      set (ln := Z.log2 n) in *. set (lk := Z.log2 k) in *.
      set (mn := Z.to_pos (n * 2 ^ (52 - ln))).
      set (mk := Z.to_pos (k * 2 ^ (52 - lk))).
      assert (Hmn' : Z.pos mn = n * 2 ^ (52 - ln)) by (subst mn; rewrite Z2Pos.id; lia).
      assert (Hmk' : Z.pos mk = k * 2 ^ (52 - lk)) by (subst mk; rewrite Z2Pos.id; lia).
      assert (Ha : Z.pos (fst (shl_align mn (ln - 52) (lk - 52)))
                   = n * 2 ^ (52 - lk)).
      { unfold shl_align. destruct (lk - 52 - (ln - 52)) as [|j|j] eqn:Hj; cbn [fst].
        - rewrite Hmn'. f_equal. f_equal. lia.
        - lia.
        - rewrite pos_iter_xO, Hmn', <- Z.mul_assoc, <- Z.pow_add_r by lia.
          f_equal. f_equal. lia. }
      assert (Hb : Z.pos (fst (shl_align mk (lk - 52) (lk - 52))) = k * 2 ^ (52 - lk)).
      { unfold shl_align. rewrite Z.sub_diag. cbn [fst]. exact Hmk'. }
      cbn [cond_Zopp]. rewrite Ha, Hb.
      replace (n * 2 ^ (52 - lk) - k * 2 ^ (52 - lk))
        with ((n - k) * 2 ^ (52 - lk)) by lia.
      assert (Hpos : 0 < (n - k) * 2 ^ (52 - lk)) by (apply Z.mul_pos_pos; lia).
      destruct ((n - k) * 2 ^ (52 - lk)) as [|d|d] eqn:Hd; try lia.
      cbn [binary_normalize].
      apply (binary_round_integer d (lk - 52) (n - k)); try lia.
      rewrite <- Hd. f_equal. f_equal. lia.
Qed.

Lemma shl_align_value (m : positive) (e e' z : Z) :
  e' <= e -> e <= 0 -> Z.pos m = z * 2 ^ (- e) ->
  Z.pos (fst (shl_align m e e')) = z * 2 ^ (- e').
Proof.
  intros He' He Hm. unfold shl_align.
  destruct (e' - e) as [|j|j] eqn:Hj; cbn [fst].
  - rewrite Hm. f_equal. f_equal. lia.
  - lia.
  - rewrite pos_iter_xO, Hm, <- Z.mul_assoc, <- Z.pow_add_r by lia.
    f_equal. f_equal. lia.
Qed.

Lemma SF_of_pos_value (z : Z) :
  0 < z < 2 ^ 53 ->
  Z.pos (Z.to_pos (z * 2 ^ (52 - Z.log2 z))) = z * 2 ^ (- (Z.log2 z - 52)).
Proof.
  intros Hz. destruct (SF_of_pos_mantissa z Hz) as (_ & _ & _ & Hm).
  rewrite Z2Pos.id by lia. f_equal. f_equal. lia.
Qed.

(** Addition of integers is exact while the sum is below [2^53]: the
    loop counter [i++] takes the numbers of [1, 2, 3, ...]. *)
Lemma of_Z_add (a b : Z) :
  0 <= a -> 0 <= b -> a + b < 2 ^ 53 -> (of_Z a + of_Z b)%float = of_Z (a + b).
Proof.
  intros Ha Hb Hab. apply Prim2SF_inj. rewrite add_spec.
  destruct (Z.eq_dec a 0) as [->|Ha0].
  - rewrite Z.add_0_l, of_Z_zero.
    destruct (Z.eq_dec b 0) as [->|Hb0]; [reflexivity|].
    rewrite Prim2SF_of_Z by lia. reflexivity.
  - destruct (Z.eq_dec b 0) as [->|Hb0].
    + rewrite Z.add_0_r, of_Z_zero, Prim2SF_of_Z by lia. reflexivity.
    + rewrite !Prim2SF_of_Z by lia.
      destruct (SF_of_pos_mantissa a ltac:(lia)) as (Hla & _ & _ & _).
      destruct (SF_of_pos_mantissa b ltac:(lia)) as (Hlb & _ & _ & _).
      pose proof (SF_of_pos_value a ltac:(lia)) as Hva.
      pose proof (SF_of_pos_value b ltac:(lia)) as Hvb.
      unfold SF_of_pos at 1 2. unfold SF64add, SFadd.
      set (ez := Z.min (Z.log2 a - 52) (Z.log2 b - 52)).
      rewrite (shl_align_value _ _ ez a) by (try assumption; lia).
      rewrite (shl_align_value _ _ ez b) by (try assumption; lia).
      cbn [cond_Zopp].
      replace (a * 2 ^ (- ez) + b * 2 ^ (- ez)) with ((a + b) * 2 ^ (- ez)) by lia.
      assert (Hpos : 0 < (a + b) * 2 ^ (- ez))
        by (apply Z.mul_pos_pos; [lia | apply Z.pow_pos_nonneg; lia]).
      destruct ((a + b) * 2 ^ (- ez)) as [|d|d] eqn:Hd; try lia.
      cbn [binary_normalize].
      apply (binary_round_integer d ez (a + b)); try lia.
Qed.

Lemma of_Z_succ (i : Z) :
  0 <= i -> i + 1 < 2 ^ 53 -> (of_Z i + 1)%float = of_Z (i + 1).
Proof. intros Hi Hlt. now apply (of_Z_add i 1). Qed.

(** Comparing the numbers of two integers below [2^53] is comparing the
    integers: the loop test [i <= count]. *)
Lemma of_Z_leb (a b : Z) :
  0 <= a < 2 ^ 53 -> 0 <= b < 2 ^ 53 ->
  (of_Z a <=? of_Z b)%float = (a <=? b).
Proof.
  intros Ha Hb. rewrite leb_spec.
  destruct (Z.eq_dec a 0) as [->|Ha0]; destruct (Z.eq_dec b 0) as [->|Hb0].
  - reflexivity.
  - rewrite of_Z_zero, Prim2SF_of_Z by lia. cbn.
    symmetry. apply Z.leb_le. lia.
  - rewrite of_Z_zero, Prim2SF_of_Z by lia. cbn.
    symmetry. apply Z.leb_gt. lia.
  - rewrite !Prim2SF_of_Z by lia.
    destruct (SF_of_pos_mantissa a ltac:(lia)) as (Hla & Ha2 & HPa & Hma).
    destruct (SF_of_pos_mantissa b ltac:(lia)) as (Hlb & Hb2 & HPb & Hmb).
    unfold SF_of_pos, SFleb, SFcompare.
    destruct (Z.compare_spec (Z.log2 a - 52) (Z.log2 b - 52)) as [He|He|He].
    + assert (Hl : Z.log2 a = Z.log2 b) by lia. rewrite Hl in *.
      rewrite Pos.compare_cont_spec. cbn [Pos.switch_Eq].
      rewrite Pos2Z.inj_compare, !Z2Pos.id by lia.
      destruct (Z.compare_spec (a * 2 ^ (52 - Z.log2 b)) (b * 2 ^ (52 - Z.log2 b)))
        as [Hc|Hc|Hc]; symmetry; [apply Z.leb_le | apply Z.leb_le | apply Z.leb_gt]; nia.
    + symmetry. apply Z.leb_le.
      assert (2 ^ (Z.log2 a + 1) <= 2 ^ Z.log2 b) by (apply Z.pow_le_mono_r; lia).
      lia.
    + symmetry. apply Z.leb_gt.
      assert (2 ^ (Z.log2 b + 1) <= 2 ^ Z.log2 a) by (apply Z.pow_le_mono_r; lia).
      lia.
Qed.

(** *** Rounding a product *)

Lemma round_nearest_even_bounds (m : Z) (l : location) :
  m <= round_nearest_even m l <= m + 1.
Proof.
  destruct l as [|[| |]]; cbn [round_nearest_even]; try lia.
  destruct (Z.even m); lia.
Qed.

Lemma shr_fexp_shift (m : positive) (e : Z) (j : positive) :
  Z.pos (digits2_pos m) = 53 + Z.pos j -> -1074 <= e ->
  shr_fexp prec emax (Z.pos m) e loc_Exact
  = (Nat.iter (Pos.to_nat j) shr_1 (Build_shr_record (Z.pos m) false false),
     e + Z.pos j).
Proof.
  intros Hd He. unfold shr_fexp. cbn [Zdigits2 shr_record_of_loc].
  rewrite Hd, fexp_value by lia.
  replace (53 + Z.pos j + e - 53 - e) with (Z.pos j) by lia.
  unfold shr. now rewrite iter_pos_nat.
Qed.

(** A mantissa of more than 53 bits is cut to the quotient or its
    successor; the value of the result is that integer at the cut. *)
Lemma binary_round_aux_inexact (m : positive) (e : Z) (j : positive) :
  Z.pos (digits2_pos m) = 53 + Z.pos j -> -1074 <= e -> e + Z.pos j + 1 <= 971 ->
  exists (r : Z) (m' : positive) (e' : Z),
    binary_round_aux prec emax false (Z.pos m) e loc_Exact = S754_finite false m' e'
    /\ Z.pos m / 2 ^ Z.pos j <= r <= Z.pos m / 2 ^ Z.pos j + 1
    /\ ((Z.pos m' = r /\ e' = e + Z.pos j)
        \/ (r = 2 ^ 53 /\ Z.pos m' = 2 ^ 52 /\ e' = e + Z.pos j + 1)).
Proof.
  intros Hd He He'. unfold binary_round_aux.
  rewrite (shr_fexp_shift m e j) by assumption.
  set (mrs := Nat.iter (Pos.to_nat j) shr_1 (Build_shr_record (Z.pos m) false false)).
  assert (Hm1 : shr_m mrs = Z.pos m / 2 ^ Z.pos j).
  { subst mrs. rewrite shr_iter_m by (cbn; lia). cbn [shr_m].
    now rewrite positive_nat_Z. }
  destruct (div_pow2_digits m j Hd) as (q & Hq & Hdq).
  pose proof (round_nearest_even_bounds (shr_m mrs) (loc_of_shr_record mrs)) as Hr.
  set (r := round_nearest_even (shr_m mrs) (loc_of_shr_record mrs)) in *.
  rewrite Hm1 in Hr. exists r.
  pose proof (digits2_bounds q) as Hqb. rewrite Hdq in Hqb.
  rewrite Hq in Hr.
  destruct r as [|p|p] eqn:Hp; try lia.
  destruct (Z.eq_dec (Z.pos p) (2 ^ 53)) as [Htop|Hlow].
  - (* the rounding carried into a 54th bit *)
    exists (Z.to_pos (2 ^ 52)), (e + Z.pos j + 1).
    assert (Hp53 : p = Z.to_pos (2 ^ 53))
      by (apply Pos2Z.inj; rewrite Htop; reflexivity).
    rewrite Hp53.
    rewrite (shr_fexp_exact (Z.to_pos (2 ^ 53)) (e + Z.pos j) 1)
      by (try reflexivity; lia).
    cbn [shr_m]. split.
    + change (Z.pos (Z.to_pos (2 ^ 53)) / 2 ^ 1) with (Z.pos (Z.to_pos (2 ^ 52))).
      cbv iota. unfold prec, emax.
      destruct (Z.leb_spec (e + Z.pos j + 1) (1024 - 53)); [reflexivity | lia].
    + split; [rewrite Hq; lia|]. right. repeat split.
  - exists p, (e + Z.pos j).
    assert (Hdp : Z.pos (digits2_pos p) = 53) by (apply digits2_unique; lia).
    rewrite shr_fexp_noshift by (assumption || lia).
    cbn [shr_m]. split.
    + unfold prec, emax.
      destruct (Z.leb_spec (e + Z.pos j) (1024 - 53)); [reflexivity | lia].
    + split; [rewrite Hq; lia|]. left. split; reflexivity.
Qed.

Lemma Math_floor_finite (x : float) (m : positive) (e : Z) :
  Prim2SF x = S754_finite false m e -> e < 0 ->
  Math_floor x = of_Z (Z.pos m / 2 ^ (- e)).
Proof.
  intros Hx He. unfold Math_floor. rewrite Hx.
  destruct (Z.leb_spec 0 e); [lia | reflexivity].
Qed.

Lemma Prim2SF_08 : Prim2SF 0.8 = S754_finite false 7205759403792794 (-53).
Proof. vm_compute. reflexivity. Qed.

(** [Math.floor(total * 0.8)] is [floor (4 n / 5)] for every length an
    array can have. *)
Lemma split_of_exact (n : Z) :
  0 < n < 2 ^ 32 -> split_of (of_Z n) = of_Z (4 * n / 5).
Proof.
  intros Hn. unfold split_of.
  destruct (SF_of_pos_mantissa n ltac:(lia)) as (Hl & Hn2 & HA & Hmn).
  assert (Hl31 : Z.log2 n < 32) by (apply Z.log2_lt_pow2; lia).
  set (l := Z.log2 n) in *. set (A := 2 ^ (52 - l)) in *.
  assert (HA21 : 2 ^ 21 <= A).
  { subst A. apply Z.pow_le_mono_r; lia. }
  set (mn := Z.to_pos (n * A)).
  assert (Hmn' : Z.pos mn = n * A) by (subst mn; rewrite Z2Pos.id; lia).
  set (M := (mn * 7205759403792794)%positive).
  assert (HM : Z.pos M = n * A * 7205759403792794).
  { subst M. now rewrite Pos2Z.inj_mul, Hmn'. }
  assert (Hx : Prim2SF (of_Z n * 0.8)
               = binary_round_aux prec emax false (Z.pos M) (l - 105) loc_Exact).
  { rewrite mul_spec, Prim2SF_of_Z, Prim2SF_08 by lia.
    unfold SF_of_pos, SF64mul, SFmul. cbn [xorb]. fold l A mn M.
    f_equal. lia. }
  assert (Hcut : exists j : positive,
             (j = 52%positive \/ j = 53%positive)
             /\ Z.pos (digits2_pos M) = 53 + Z.pos j).
  { destruct (Z.lt_ge_cases (Z.pos M) (2 ^ 105)) as [Hlt|Hge].
    - exists 52%positive. split; [now left|]. apply digits2_unique. split; [|exact Hlt].
      rewrite HM. change (53 + 52 - 1) with 104. nia.
    - exists 53%positive. split; [now right|]. apply digits2_unique.
      split; [exact Hge|].
      rewrite HM. change (53 + 53) with 106. nia. }
  destruct Hcut as (j & Hj & Hd).
  destruct (binary_round_aux_inexact M (l - 105) j Hd)
    as (r & m' & e' & Hr & Hrb & Hval);
    [lia | destruct Hj as [-> | ->]; lia |].
  rewrite Hr in Hx.
  assert (He' : e' < 0)
    by (destruct Hj as [-> | ->]; destruct Hval as [[_ ->]|(_ & _ & ->)]; lia).
  rewrite (Math_floor_finite _ m' e' Hx He'). f_equal.
  (* the arithmetic: the value at the cut is [r / 2^t] *)
  set (k := 4 * n / 5).
  assert (Hk : 5 * k <= 4 * n < 5 * k + 5).
  { subst k. pose proof (Z.mul_div_le (4 * n) 5 ltac:(lia)).
    pose proof (Z.mul_succ_div_gt (4 * n) 5 ltac:(lia)). lia. }
  set (S := 2 ^ Z.pos j) in *.
  set (t := 105 - l - Z.pos j).
  assert (Ht : 21 <= t <= 53) by (subst t; destruct Hj as [-> | ->]; lia).
  set (T := 2 ^ t).
  assert (HS : 0 < S <= 2 ^ 53).
  { subst S. split; [apply Z.pow_pos_nonneg; lia|].
    apply Z.pow_le_mono_r; destruct Hj as [-> | ->]; lia. }
  assert (HT : 0 < T) by (subst T; apply Z.pow_pos_nonneg; lia).
  assert (HST : T * S = A * 2 ^ 53).
  { subst T S A. rewrite <- !Z.pow_add_r by lia. f_equal. subst t. lia. }
  set (m1 := Z.pos M / S) in *.
  assert (Hm1 : m1 * S <= Z.pos M < m1 * S + S).
  { subst m1. pose proof (Z.mul_div_le (Z.pos M) S ltac:(lia)).
    pose proof (Z.mul_succ_div_gt (Z.pos M) S ltac:(lia)). lia. }
  assert (Hlow : k * T <= m1).
  { subst m1. apply Z.div_le_lower_bound; [lia|]. rewrite HM. nia. }
  assert (Hup : m1 + 1 < (k + 1) * T).
  { assert (Z.pos M + S < (k + 1) * T * S) by (rewrite HM; nia).
    nia. }
  assert (Hrk : r / T = k).
  { symmetry. apply Z.div_unique with (r - k * T); lia. }
  destruct Hval as [[Hm' ->]|(Hr53 & Hm' & ->)].
  - rewrite Hm'. replace (- (l - 105 + Z.pos j)) with t by (subst t; lia).
    exact Hrk.
  - rewrite Hm'. replace (- (l - 105 + Z.pos j + 1)) with (t - 1) by (subst t; lia).
    rewrite <- Hrk, Hr53. subst T.
    replace (2 ^ 53) with (2 ^ 52 * 2 ^ 1) by reflexivity.
    replace t with (t - 1 + 1) at 2 by lia.
    rewrite (Z.pow_add_r 2 (t - 1) 1) by lia.
    rewrite Z.div_mul_cancel_r; [reflexivity | apply Z.pow_nonzero; lia | lia].
Qed.

Lemma to_integer_not_nan (x : float) (z : Z) :
  to_integer x = Some z -> is_nan x = false.
Proof.
  unfold to_integer, Prim2SF. destruct (is_nan x); [discriminate | reflexivity].
Qed.

(** *** The exponent of a rounded product *)

Lemma Zdigits2_nonneg (m : Z) : 0 <= Zdigits2 m.
Proof. destruct m; simpl; lia. Qed.

Lemma Zdigits2_bound (m d : Z) : 0 <= d -> 0 <= m < 2 ^ d -> Zdigits2 m <= d.
Proof.
  intros Hd Hm. destruct m as [|p|p]; [simpl; lia| |lia].
  cbn [Zdigits2]. pose proof (digits2_bounds p) as Hb.
  destruct (Z.le_gt_cases (Z.pos (digits2_pos p)) d) as [|Hgt]; [assumption|].
  assert (2 ^ d <= 2 ^ (Z.pos (digits2_pos p) - 1)) by (apply Z.pow_le_mono_r; lia).
  lia.
Qed.

Lemma Zdigits2_lt (m : Z) : 0 <= m -> m < 2 ^ Zdigits2 m.
Proof.
  intros Hm. destruct m as [|p|p]; [reflexivity| |lia].
  cbn [Zdigits2]. apply digits2_bounds.
Qed.

(** The state after [shr_fexp] on a non-negative mantissa: the exponent is
    the larger of the old one and the one the format asks for, and the
    mantissa has at most 53 bits. *)
Lemma shr_fexp_bounds (m e : Z) (l : location) :
  0 <= m ->
  let r := shr_fexp prec emax m e l in
  0 <= shr_m (fst r) < 2 ^ 53
  /\ snd r = Z.max e (fexp prec emax (Zdigits2 m + e)).
Proof.
  intros Hm. unfold shr_fexp.
  set (f := fexp prec emax (Zdigits2 m + e)).
  assert (Hf : Zdigits2 m + e - 53 <= f) by (subst f; unfold fexp, prec; lia).
  pose proof (Zdigits2_lt m Hm) as Hlt. pose proof (Zdigits2_nonneg m) as Hd.
  unfold shr. destruct (f - e) as [|p|p] eqn:Hp; cbn [fst snd].
  - split; [|lia].
    destruct l as [|[| |]]; cbn [shr_record_of_loc shr_m]; split; try lia;
      (apply Z.lt_le_trans with (2 ^ Zdigits2 m);
       [lia | apply Z.pow_le_mono_r; lia]).
  - split; [|lia]. rewrite iter_pos_nat, shr_iter_m, positive_nat_Z
      by (destruct l as [|[| |]]; cbn; lia).
    assert (Hm' : shr_m (shr_record_of_loc m l) = m)
      by (destruct l as [|[| |]]; reflexivity).
    rewrite Hm'. split; [apply Z.div_pos; lia|].
    apply Z.div_lt_upper_bound; [apply Z.pow_pos_nonneg; lia|].
    rewrite <- Z.pow_add_r by lia.
    apply Z.lt_le_trans with (2 ^ Zdigits2 m); [lia | apply Z.pow_le_mono_r; lia].
  - split; [|lia].
    destruct l as [|[| |]]; cbn [shr_record_of_loc shr_m]; split; try lia;
      (apply Z.lt_le_trans with (2 ^ Zdigits2 m);
       [lia | apply Z.pow_le_mono_r; lia]).
Qed.

(** A rounded value far from overflow is a zero or finite, with an
    exponent at most one above the one [shr_fexp] chose. *)
Lemma binary_round_aux_exponent (s : bool) (m : positive) (e : Z) :
  Z.max e (fexp prec emax (Z.pos (digits2_pos m) + e)) + 1 <= 971 ->
  match binary_round_aux prec emax s (Z.pos m) e loc_Exact with
  | S754_zero _ => True
  | S754_infinity _ | S754_nan => False
  | S754_finite s' m' e' =>
      s' = s /\ e' <= Z.max e (fexp prec emax (Z.pos (digits2_pos m) + e)) + 1
  end.
Proof.
  intros Hmax. unfold binary_round_aux.
  pose proof (shr_fexp_bounds (Z.pos m) e loc_Exact ltac:(lia)) as H1.
  cbn zeta in H1. change (Zdigits2 (Z.pos m)) with (Z.pos (digits2_pos m)) in H1.
  destruct (shr_fexp prec emax (Z.pos m) e loc_Exact) as [mrs e1].
  cbn [fst snd] in H1. destruct H1 as [Hm1 He1].
  pose proof (round_nearest_even_bounds (shr_m mrs) (loc_of_shr_record mrs)) as Hr.
  set (r := round_nearest_even (shr_m mrs) (loc_of_shr_record mrs)) in *.
  pose proof (shr_fexp_bounds r e1 loc_Exact ltac:(lia)) as H2.
  cbn zeta in H2.
  assert (Hdr : Zdigits2 r <= 54) by (apply Zdigits2_bound; lia).
  destruct (shr_fexp prec emax r e1 loc_Exact) as [mrs2 e2].
  cbn [fst snd] in H2. destruct H2 as [Hm2 He2].
  assert (He2' : e2 <= e1 + 1).
  { rewrite He2. unfold fexp, SpecFloat.emin, prec, emax in *. lia. }
  destruct (shr_m mrs2) as [|p|p]; [exact I| |lia].
  destruct (Z.leb_spec e2 (emax - prec)) as [_|Hgt];
    [|unfold emax, prec, fexp, SpecFloat.emin in *; lia].
  split; [reflexivity|]. lia.
Qed.

Lemma Prim2SF_one : Prim2SF 1 = S754_finite false 4503599627370496 (-52).
Proof. vm_compute. reflexivity. Qed.

(** A number of magnitude at most [1] is a zero or has an exponent of at
    most [-52]. *)
Lemma unit_magnitude (s : float) :
  (abs s <=? 1)%float = true ->
  match Prim2SF s with
  | S754_zero _ => True
  | S754_finite _ m e => e <= -52 /\ Z.pos m < 2 ^ 53
  | S754_infinity _ | S754_nan => False
  end.
Proof.
  intros Hle. rewrite leb_spec, abs_spec, Prim2SF_one in Hle.
  pose proof (Prim2SF_valid s) as Hv.
  destruct (Prim2SF s) as [sg|sg| |sg m e]; try exact I; try discriminate Hle.
  cbn [SFabs] in Hle. unfold SFleb, SFcompare in Hle.
  cbn [SpecFloat.valid_binary] in Hv. unfold bounded, canonical_mantissa in Hv.
  apply andb_prop in Hv. destruct Hv as [Hc _]. apply Z.eqb_eq in Hc.
  split.
  - destruct (Z.compare_spec e (-52)); try lia; try discriminate Hle.
  - pose proof (digits2_bounds m) as Hb.
    assert (Hd : Z.pos (digits2_pos m) <= 53)
      by (unfold fexp, prec in Hc; lia).
    apply Z.lt_le_trans with (2 ^ Z.pos (digits2_pos m)); [lia|].
    apply Z.pow_le_mono_r; lia.
Qed.

(** The magnitude of the product of such a number with a constant of
    exponent at most [-44] (as [120] and [400] are) is a zero or has a
    negative exponent: [Math.round] maps it to a small integer. *)
Lemma small_product (s c : float) (mc : positive) (ec : Z) :
  Prim2SF c = S754_finite false mc ec -> Z.pos mc < 2 ^ 53 -> ec <= -44 ->
  (abs s <=? 1)%float = true ->
  match Prim2SF (abs (s * c)) with
  | S754_zero sg => sg = false
  | S754_finite sg m e => sg = false /\ e < 0 /\ Z.pos m < 2 ^ 53
  | S754_infinity _ | S754_nan => False
  end.
Proof.
  intros Hc Hmc Hec Hs. apply unit_magnitude in Hs.
  pose proof (Prim2SF_valid (abs (s * c))) as Hv.
  rewrite abs_spec, mul_spec, Hc in Hv |- *.
  destruct (Prim2SF s) as [sg|sg| |sg m e]; try contradiction.
  - reflexivity.
  - destruct Hs as [He Hm]. unfold SF64mul, SFmul in Hv |- *.
    set (M := (m * mc)%positive) in *.
    assert (HM : Zdigits2 (Z.pos M) <= 106).
    { apply Zdigits2_bound; [lia|]. subst M. rewrite Pos2Z.inj_mul.
      change (2 ^ 106) with (2 ^ 53 * 2 ^ 53). nia. }
    cbn [Zdigits2] in HM.
    assert (Hmax : Z.max (e + ec)
                         (fexp prec emax (Z.pos (digits2_pos M) + (e + ec))) <= -43).
    { unfold fexp, SpecFloat.emin, prec, emax. lia. }
    pose proof (binary_round_aux_exponent (xorb sg false) M (e + ec) ltac:(lia)) as Hr.
    destruct (binary_round_aux prec emax (xorb sg false) (Z.pos M) (e + ec) loc_Exact)
      as [sg'|sg'| |sg' m' e']; try contradiction.
    + reflexivity.
    + destruct Hr as [_ He']. cbn [SFabs] in Hv |- *.
      split; [reflexivity|]. split; [lia|].
      cbn [SpecFloat.valid_binary] in Hv. unfold bounded, canonical_mantissa in Hv.
      apply andb_prop in Hv. destruct Hv as [Hcm _]. apply Z.eqb_eq in Hcm.
      pose proof (digits2_bounds m') as Hb.
      assert (Hd : Z.pos (digits2_pos m') <= 53) by (unfold fexp, prec in Hcm; lia).
      apply Z.lt_le_trans with (2 ^ Z.pos (digits2_pos m')); [lia|].
      apply Z.pow_le_mono_r; lia.
Qed.

(** *** [Math.round] and [Math.max] on small numbers *)

Lemma Math_round_small (y : float) :
  match Prim2SF y with
  | S754_zero sg => sg = false
  | S754_finite sg m e => sg = false /\ e < 0 /\ Z.pos m < 2 ^ 53
  | S754_infinity _ | S754_nan => False
  end ->
  exists q, 0 <= q < 2 ^ 53 /\ to_integer (Math_round y) = Some q.
Proof.
  intros Hy. unfold Math_round.
  destruct (Prim2SF y) as [sg|sg| |sg m e] eqn:Hp; try contradiction.
  - exists 0. split; [lia|]. unfold to_integer. now rewrite Hp.
  - destruct Hy as (-> & He & Hm).
    destruct (Z.leb_spec 0 e); [lia|]. cbn [signed].
    set (P := 2 ^ (- e)).
    assert (HP : 2 <= P).
    { subst P. change 2 with (2 ^ 1) at 1. apply Z.pow_le_mono_r; lia. }
    assert (HP2 : 2 ^ (- e + 1) = 2 * P).
    { subst P. rewrite Z.pow_add_r by lia. lia. }
    rewrite HP2.
    set (q := (2 * Z.pos m + P) / (2 * P)).
    assert (Hq : 0 <= q <= Z.pos m).
    { subst q. split; [apply Z.div_pos; lia|].
      apply Z.lt_succ_r, Z.div_lt_upper_bound; nia. }
    destruct (Z.eqb_spec q 0) as [Hq0|Hq0].
    + exists 0. split; [lia | reflexivity].
    + exists q. split; [lia|]. apply to_integer_of_Z. lia.
Qed.

Lemma Math_max_cases (a b : float) :
  is_nan a = false -> is_nan b = false ->
  Math_max a b = a \/ Math_max a b = b.
Proof.
  intros Ha Hb. unfold Math_max. rewrite Ha, Hb. cbn [orb].
  destruct (a <? b)%float; [now right|].
  destruct (b <? a)%float; [now left|].
  destruct (get_sign a); [now right | now left].
Qed.

Lemma isSafeInteger_intro (x : float) (z : Z) :
  to_integer x = Some z -> Z.abs z < 2 ^ 53 -> isSafeInteger x = true.
Proof.
  intros Hx Hz. unfold isSafeInteger. rewrite Hx. apply Z.leb_le. lia.
Qed.

Lemma isSafeInteger_finite (x : float) :
  isSafeInteger x = true -> is_finite x = true.
Proof.
  unfold isSafeInteger. destruct (to_integer x) as [z|] eqn:Hz; [|discriminate].
  intros _. unfold is_finite. rewrite (to_integer_not_nan x z Hz). cbn [orb].
  unfold is_infinity. rewrite eqb_spec, abs_spec.
  change (Prim2SF infinity) with (S754_infinity false).
  unfold to_integer in Hz.
  destruct (Prim2SF x) as [sg|sg| |sg m e]; try discriminate Hz; reflexivity.
Qed.

Lemma Prim2SF_120 : Prim2SF 120 = S754_finite false 8444249301319680 (-46).
Proof. vm_compute. reflexivity. Qed.

Lemma Prim2SF_400 : Prim2SF 400 = S754_finite false 7036874417766400 (-44).
Proof. vm_compute. reflexivity. Qed.

(** [Math.max(lo, Math.round(Math.abs(s * c)))] is a safe integer when
    [s] is a sine or a cosine and [c] is [120] or [400]. *)
Lemma rounded_magnitude_safe (lo s c : float) (mc : positive) (ec : Z) :
  isSafeInteger lo = true ->
  Prim2SF c = S754_finite false mc ec -> Z.pos mc < 2 ^ 53 -> ec <= -44 ->
  (abs s <=? 1)%float = true ->
  isSafeInteger (Math_max lo (Math_round (Math_abs (s * c)%float))) = true.
Proof.
  intros Hlo Hc Hmc Hec Hs.
  destruct (Math_round_small (Math_abs (s * c)%float)) as (q & Hq & Hr).
  { unfold Math_abs. exact (small_product s c mc ec Hc Hmc Hec Hs). }
  assert (Hlo' : exists z, to_integer lo = Some z).
  { unfold isSafeInteger in Hlo.
    destruct (to_integer lo) as [z|]; [now exists z | discriminate]. }
  destruct Hlo' as (z & Hz).
  destruct (Math_max_cases lo (Math_round (Math_abs (s * c)%float))) as [-> | ->].
  - exact (to_integer_not_nan lo z Hz).
  - exact (to_integer_not_nan _ q Hr).
  - exact Hlo.
  - apply (isSafeInteger_intro _ q Hr). lia.
Qed.

Lemma days_safe (r : Z) : 0 <= r <= 20 -> isSafeInteger (1 + of_Z r)%float = true.
Proof.
  intros Hr. change 1%float with (of_Z 1). rewrite of_Z_add by lia.
  apply (isSafeInteger_intro _ (1 + r)); [apply to_integer_of_Z|]; lia.
Qed.

(** *** The arguments of the sine and of the cosine *)

(** A number that is a zero or finite in the specification is finite. *)
Lemma is_finite_intro (x : float) :
  match Prim2SF x with
  | S754_zero _ | S754_finite _ _ _ => True
  | S754_infinity _ | S754_nan => False
  end ->
  is_finite x = true.
Proof.
  intros Hx. unfold is_finite, is_nan, is_infinity.
  rewrite !eqb_spec, abs_spec.
  change (Prim2SF infinity) with (S754_infinity false).
  destruct (Prim2SF x) as [s|s| |s m e]; try contradiction; [reflexivity|].
  unfold SFeqb, SFcompare; cbn [SFabs].
  now destruct s; rewrite Z.compare_refl, Pos.compare_cont_refl.
Qed.

(** The product of the loop counter with a small constant is finite. *)
Lemma counter_multiple_finite (i : Z) (c : float) (mc : positive) (ec : Z) :
  0 <= i < 2 ^ 53 ->
  Prim2SF c = S754_finite false mc ec -> Z.pos mc < 2 ^ 53 -> -1074 <= ec <= 0 ->
  is_finite (of_Z i * c) = true.
Proof.
  intros Hi Hc Hmc Hec. apply is_finite_intro. rewrite mul_spec, Hc.
  destruct (Z.eq_dec i 0) as [->|Hi0]; [rewrite of_Z_zero; exact I|].
  rewrite Prim2SF_of_Z by lia.
  destruct (SF_of_pos_mantissa i ltac:(lia)) as (Hl & _ & _ & Hm).
  unfold SF_of_pos, SF64mul, SFmul. cbn [xorb].
  set (m := Z.to_pos (i * 2 ^ (52 - Z.log2 i))) in *.
  assert (Hmz : Z.pos m < 2 ^ 53) by (subst m; rewrite Z2Pos.id; lia).
  set (M := (m * mc)%positive).
  assert (HM : Zdigits2 (Z.pos M) <= 106).
  { apply Zdigits2_bound; [lia|]. subst M. rewrite Pos2Z.inj_mul.
    change (2 ^ 106) with (2 ^ 53 * 2 ^ 53). nia. }
  cbn [Zdigits2] in HM.
  pose proof (binary_round_aux_exponent false M (Z.log2 i - 52 + ec)) as Hr.
  destruct (binary_round_aux prec emax false (Z.pos M) (Z.log2 i - 52 + ec) loc_Exact)
    as [s|s| |s m' e']; try exact I;
    apply Hr; unfold fexp, SpecFloat.emin, prec, emax; lia.
Qed.

Lemma Prim2SF_11 : Prim2SF 11 = S754_finite false 6192449487634432 (-49).
Proof. vm_compute. reflexivity. Qed.

Lemma Prim2SF_7 : Prim2SF 7 = S754_finite false 7881299347898368 (-50).
Proof. vm_compute. reflexivity. Qed.

(** The arguments [i * 11] and [i * 7] at which the generator calls the
    sine and the cosine are finite numbers. *)
Lemma sin_argument_finite (i : Z) :
  0 <= i < 2 ^ 53 -> is_finite (of_Z i * 11) = true.
Proof.
  intros Hi. apply (counter_multiple_finite i _ _ _ Hi Prim2SF_11); lia.
Qed.

Lemma cos_argument_finite (i : Z) :
  0 <= i < 2 ^ 53 -> is_finite (of_Z i * 7) = true.
Proof.
  intros Hi. apply (counter_multiple_finite i _ _ _ Hi Prim2SF_7); lia.
Qed.

(** ** The generator *)

Lemma float_one_not_zero : 1%float <> 0%float.
Proof.
  intros H. apply (f_equal is_zero) in H. vm_compute in H. discriminate.
Qed.

Section GeneratorFacts.

Variable Math_sin Math_cos : float -> float.

(** The loop with enough fuel: it appends the records of the counters
    [i, ..., count] and stops by its own test. *)
Lemma generate_loop_run (count : Z) (fuel : nat) :
  forall i acc,
    count + 1 <= i + Z.of_nat fuel ->
    generate_loop Math_sin Math_cos fuel i count acc
    = acc ++ map (product_at Math_sin Math_cos)
                 (Zseq i (Z.to_nat (count + 1 - i))).
Proof.
  induction fuel as [|fuel IH]; intros i acc Hfuel.
  - replace (Z.to_nat (count + 1 - i)) with O by lia.
    simpl. now rewrite app_nil_r.
  - simpl. destruct (Z.leb_spec i count) as [Hle|Hgt].
    + rewrite IH by lia.
      rewrite <- app_assoc. f_equal.
      replace (Z.to_nat (count + 1 - i))
        with (S (Z.to_nat (count + 1 - (i + 1)))) by lia.
      reflexivity.
    + replace (Z.to_nat (count + 1 - i)) with O by lia.
      simpl. now rewrite app_nil_r.
Qed.

(** The fuel of [generateProducts] is enough: more of it changes nothing. *)
Lemma generate_loop_fuel (count : Z) (extra : nat) :
  generate_loop Math_sin Math_cos (Z.to_nat count + extra) 1 count []
  = generateProducts Math_sin Math_cos count.
Proof.
  unfold generateProducts.
  rewrite !generate_loop_run by lia. reflexivity.
Qed.

(** The array is the loop body mapped over the counters [1, ..., count]. *)
Lemma generateProducts_map (count : Z) :
  generateProducts Math_sin Math_cos count
  = map (product_at Math_sin Math_cos) (Zseq 1 (Z.to_nat count)).
Proof.
  unfold generateProducts.
  rewrite generate_loop_run by lia. simpl.
  now replace (count + 1 - 1) with count by lia.
Qed.

Lemma generateProducts_nth (count i : Z) :
  1 <= i <= count ->
  nth_error (generateProducts Math_sin Math_cos count) (Z.to_nat (i - 1))
  = Some (product_at Math_sin Math_cos i).
Proof.
  intros Hi. rewrite generateProducts_map.
  rewrite nth_error_map.
  rewrite (Zseq_nth_error (Z.to_nat count) 1 (Z.to_nat (i - 1))) by lia.
  cbn [option_map]. replace (1 + Z.of_nat (Z.to_nat (i - 1))) with i by lia.
  reflexivity.
Qed.

(** The label of the loop body is the rule on the fields it stores. *)
Lemma product_at_rule (i : Z) :
  reorder (product_at Math_sin Math_cos i) = 1%float
  <-> rule_holds (product_at Math_sin Math_cos i) = true.
Proof.
  unfold rule_holds, product_at, safetyFactor. simpl.
  match goal with |- context [if ?b then _ else _] => destruct b end.
  - split; reflexivity.
  - split; [|discriminate].
    intros H. symmetry in H. now apply float_one_not_zero in H.
Qed.

(** C1.  For every [count] and every index [i] in [[1, count]], the record
    at position [i - 1] of [generateProducts count] has [reorder] equal to
    [1] if and only if its own [currentInventory] is below
    [avgSalesPerWeek * (daysToReplenish / 7) * 1.25], the comparison being
    recomputed from the record's three fields in the arithmetic of
    JavaScript numbers; [reorder] is [1] or [0]. *)
Theorem generate_reorder_rule (count i : Z) :
  1 <= i <= count ->
  exists p,
    nth_error (generateProducts Math_sin Math_cos count) (Z.to_nat (i - 1)) = Some p
    /\ (reorder p = 1%float <-> rule_holds p = true)
    /\ (reorder p = 1%float \/ reorder p = 0%float).
Proof.
  intros Hi. exists (product_at Math_sin Math_cos i).
  split; [now apply generateProducts_nth|].
  split; [apply product_at_rule|].
  unfold product_at. simpl.
  match goal with |- context [if ?b then _ else _] => destruct b end; auto.
Qed.

(** C8.  [generateProducts count] holds exactly [count] records (none for
    a [count] that is not positive), and their [id]s are the numbers
    [1, ..., count] in this order: the number of each counter and, read
    back as an integer, the counter itself.  In particular
    [generateProducts 150] has 150 records and [generateProducts 0] is
    empty. *)
Theorem generate_count_and_ids (count : Z) :
  List.length (generateProducts Math_sin Math_cos count) = Z.to_nat count
  /\ map id (generateProducts Math_sin Math_cos count)
     = map of_Z (Zseq 1 (Z.to_nat count))
  /\ (count < 2 ^ 53 ->
      map (fun p => to_integer (id p)) (generateProducts Math_sin Math_cos count)
      = map Some (Zseq 1 (Z.to_nat count)))
  /\ List.length (generateProducts Math_sin Math_cos 150) = 150%nat
  /\ generateProducts Math_sin Math_cos 0 = [].
Proof.
  split; [|split; [|split; [|split]]].
  - now rewrite generateProducts_map, length_map, Zseq_length.
  - rewrite generateProducts_map, map_map. reflexivity.
  - intros Hcount. rewrite generateProducts_map, map_map.
    apply map_ext_in. intros i Hi. apply Zseq_In in Hi.
    cbn [id product_at]. apply to_integer_of_Z. lia.
  - now rewrite generateProducts_map, length_map, Zseq_length.
  - reflexivity.
Qed.

End GeneratorFacts.

Lemma generate_reorder_rule_witness :
  exists p,
    nth_error (generateProducts (fun _ => 0.5%float) (fun _ => 0.25%float) 3)
              (Z.to_nat (2 - 1)) = Some p
    /\ (reorder p = 1%float <-> rule_holds p = true)
    /\ (reorder p = 1%float \/ reorder p = 0%float).
Proof.
  apply (generate_reorder_rule (fun _ => 0.5%float) (fun _ => 0.25%float) 3 2).
  lia.
Defined.

(** The loop body reads the host only through [Math.sin] at [i * 11] and
    [Math.cos] at [i * 7]. *)
Lemma product_at_ext (sin1 cos1 sin2 cos2 : float -> float) (i : Z) :
  sin1 (of_Z i * 11)%float = sin2 (of_Z i * 11)%float ->
  cos1 (of_Z i * 7)%float = cos2 (of_Z i * 7)%float ->
  product_at sin1 cos1 i = product_at sin2 cos2 i.
Proof.
  intros Hs Hc. unfold product_at. rewrite Hs, Hc. reflexivity.
Qed.

(** What [generateProducts] reads of the host: the array depends on
    [Math.sin] and [Math.cos] only through their values at [i * 11] and
    [i * 7] for the counters [1 <= i <= count].  Two hosts that agree there,
    however they differ elsewhere, give the same array. *)
Theorem generate_reads_host
  (sin1 cos1 sin2 cos2 : float -> float) (count : Z) :
  (forall i, 1 <= i <= count ->
     sin1 (of_Z i * 11)%float = sin2 (of_Z i * 11)%float
     /\ cos1 (of_Z i * 7)%float = cos2 (of_Z i * 7)%float) ->
  generateProducts sin1 cos1 count = generateProducts sin2 cos2 count.
Proof.
  intros Hagree. rewrite !generateProducts_map.
  apply map_ext_in. intros i Hi. apply Zseq_In in Hi.
  destruct (Hagree i) as [Hs Hc]; [lia|].
  now apply product_at_ext.
Qed.

(** Two hosts that differ at [0] and above [33], on three records. *)
Lemma generate_reads_host_witness :
  generateProducts (fun x => (x / 1000)%float) (fun _ => 0.25%float) 3
  = generateProducts
      (fun x => if (x <=? 33)%float then (x / 1000)%float else 7%float)
      (fun x => if (x =? 0)%float then 1%float else 0.25%float) 3.
Proof.
  apply (generate_reads_host
           (fun x => (x / 1000)%float) (fun _ => 0.25%float)
           (fun x => if (x <=? 33)%float then (x / 1000)%float else 7%float)
           (fun x => if (x =? 0)%float then 1%float else 0.25%float) 3).
  intros i Hi.
  assert (Hcases : i = 1 \/ i = 2 \/ i = 3) by lia.
  destruct Hcases as [->|[->| ->]]; split; vm_compute; reflexivity.
Defined.

(** A longer run extends a shorter one: the record at a position does not
    depend on [count]. *)
Lemma generate_prefix (Math_sin Math_cos : float -> float) (c1 c2 : Z) :
  c1 <= c2 ->
  firstn (Z.to_nat c1) (generateProducts Math_sin Math_cos c2)
  = generateProducts Math_sin Math_cos c1.
Proof.
  intros Hle. rewrite !generateProducts_map, firstn_map. f_equal.
  assert (H : forall n m s, (n <= m)%nat -> firstn n (Zseq s m) = Zseq s n).
  { induction n as [|n IH]; intros m s Hnm; [reflexivity|].
    destruct m as [|m]; [lia|]. simpl. f_equal. apply IH. lia. }
  apply H. lia.
Qed.

Example generate_first_records :
  map (fun p => (id p, name p, daysToReplenish p))
      (generateProducts (fun _ => 0.5%float) (fun _ => 0.25%float) 3)
  = [ (1, "Soda Pack 1", 2); (2, "Rice 5kg 2", 3);
      (3, "Coffee Beans 3", 4) ]%float%string
  /\ map (fun p => (avgSalesPerWeek p, currentInventory p, reorder p))
      (generateProducts (fun _ => 0.5%float) (fun _ => 0.25%float) 3)
  = [ (60, 100, 0); (60, 100, 0); (60, 100, 0) ]%float.
Proof. vm_compute. split; reflexivity. Qed.

(** ** Normalization *)

Lemma map2_nth_error {A B C : Type} (f : A -> B -> C) :
  forall (l : list A) (l' : list B) (j : nat) (c : C),
    nth_error (Tf.map2 f l l') j = Some c ->
    exists a b, nth_error l j = Some a /\ nth_error l' j = Some b /\ c = f a b.
Proof.
  induction l as [|a l IH]; intros [|b l'] j c H; try (destruct j; discriminate).
  destruct j as [|j]; simpl in *.
  - injection H as <-. now exists a, b.
  - now apply IH.
Qed.

Lemma map2_nth_error_Some {A B C : Type} (f : A -> B -> C) :
  forall (l : list A) (l' : list B) (j : nat) (a : A) (b : B),
    nth_error l j = Some a -> nth_error l' j = Some b ->
    nth_error (Tf.map2 f l l') j = Some (f a b).
Proof.
  induction l as [|x l IH]; intros [|y l'] j a b Ha Hb;
    try (destruct j; discriminate).
  destruct j as [|j]; simpl in *.
  - injection Ha as <-. injection Hb as <-. reflexivity.
  - now apply IH.
Qed.

Lemma map2_length {A B C : Type} (f : A -> B -> C) :
  forall (l : list A) (l' : list B),
    List.length (Tf.map2 f l l') = Nat.min (List.length l) (List.length l').
Proof.
  induction l as [|a l IH]; intros [|b l']; simpl; auto.
Qed.

(** [normalize] on a rank-2 tensor and rank-1 bounds, row by row. *)
Lemma normalize_rows (rows : list (list float)) (mins maxs : list float) :
  normalize (Tf.Mat rows) (Tf.Vec mins) (Tf.Vec maxs)
  = Tf.Mat (map (fun row =>
                   Tf.map2 Tf.div_no_nan (Tf.map2 Tf.sub_entry row mins)
                           (Tf.map2 Tf.sub_entry maxs mins)) rows).
Proof.
  unfold normalize, Tf.divNoNan, Tf.sub. simpl. now rewrite map_map.
Qed.

(** A zero is a binary32 float. *)
Lemma float32_zero (z : float) : (z =? 0)%float = true -> Tf.float32 z = z.
Proof.
  intros H. rewrite eqb_spec in H. change (Prim2SF 0) with (S754_zero false) in H.
  unfold Tf.float32.
  destruct (Prim2SF z) as [s|s| |s m e]; try reflexivity.
  destruct s; discriminate H.
Qed.

(** The range of a column between two equal finite numbers is a zero. *)
Lemma sub_entry_equal_finite (hi lo : float) :
  (hi =? lo)%float = true -> is_finite lo = true ->
  (Tf.sub_entry hi lo =? 0)%float = true.
Proof.
  intros Heq Hfin. pose proof (sub_equal_finite hi lo Heq Hfin) as Hz.
  unfold Tf.sub_entry. now rewrite (float32_zero _ Hz).
Qed.

(** Column [j] of [out] holds a [0] in every row in which column [j] of
    [rows] holds an entry; the two matrices have the same number of rows. *)
Definition zero_column (j : nat) (rows out : list (list float)) : Prop :=
  Forall2 (fun row row' =>
             forall x, nth_error row j = Some x -> nth_error row' j = Some 0%float)
          rows out.

(** Where the range of a column is taken between two equal finite
    numbers, [tf.divNoNan] returns [0]. *)
Lemma normalized_entry_zero
  (row mins maxs : list float) (j : nat) (lo hi x : float) :
  nth_error mins j = Some lo ->
  nth_error maxs j = Some hi ->
  (hi =? lo)%float = true ->
  is_finite lo = true ->
  nth_error row j = Some x ->
  nth_error (Tf.map2 Tf.div_no_nan (Tf.map2 Tf.sub_entry row mins)
                     (Tf.map2 Tf.sub_entry maxs mins)) j = Some 0%float.
Proof.
  intros Hlo Hhi Heq Hfin Hx.
  rewrite (map2_nth_error_Some Tf.div_no_nan _ _ j (Tf.sub_entry x lo)
             (Tf.sub_entry hi lo)).
  - unfold Tf.div_no_nan. now rewrite sub_entry_equal_finite.
  - now apply map2_nth_error_Some.
  - now apply map2_nth_error_Some.
Qed.

Lemma normalize_zero_range
  (rows : list (list float)) (mins maxs : list float)
  (j : nat) (lo hi : float) :
  nth_error mins j = Some lo ->
  nth_error maxs j = Some hi ->
  (hi =? lo)%float = true ->
  is_finite lo = true ->
  zero_column j rows
    (map (fun row =>
            Tf.map2 Tf.div_no_nan (Tf.map2 Tf.sub_entry row mins)
                    (Tf.map2 Tf.sub_entry maxs mins)) rows).
Proof.
  intros Hlo Hhi Heq Hfin. unfold zero_column.
  induction rows as [|row rows IH]; cbn [map]; constructor; [|exact IH].
  intros x Hx. exact (normalized_entry_zero row mins maxs j lo hi x Hlo Hhi Heq Hfin Hx).
Qed.




(** The same for the tensors of the pipeline: a feature whose entries are
    one finite number in every record is normalized to [0] in every
    record. *)
Lemma reduce_rows_constant (step : float -> float -> float)
  (rows : list (list float)) (j : nat) (v : float) :
  step v v = v ->
  rows <> [] ->
  (forall row, In row rows -> nth_error row j = Some v) ->
  nth_error (Tf.reduce_rows step rows) j = Some v.
Proof.
  intros Hstep Hne Hall. destruct rows as [|r rs]; [contradiction|].
  unfold Tf.reduce_rows.
  assert (Hr : nth_error r j = Some v) by (apply Hall; now left).
  assert (Hrs : forall row, In row rs -> nth_error row j = Some v)
    by (intros row Hrow; apply Hall; now right).
  clear Hall Hne. revert r Hr.
  induction rs as [|r' rs IH]; intros r Hr; [exact Hr|].
  cbn [fold_left]. apply IH.
  - intros row Hrow. apply Hrs. now right.
  - replace (Some v) with (Some (step v v)) by now rewrite Hstep.
    apply map2_nth_error_Some; [exact Hr|]. apply Hrs. now left.
Qed.

Lemma reduce_rows_pick (step : float -> float -> float)
  (rows : list (list float)) (j : nat) (v : float) :
  (forall a b, step a b = a \/ step a b = b) ->
  nth_error (Tf.reduce_rows step rows) j = Some v ->
  exists row, In row rows /\ nth_error row j = Some v.
Proof.
  intros Hstep. destruct rows as [|r rs]; [destruct j; discriminate|].
  unfold Tf.reduce_rows. revert r.
  induction rs as [|r' rs IH]; intros r Hv.
  - exists r. split; [now left | exact Hv].
  - cbn [fold_left] in Hv. destruct (IH _ Hv) as (row & [<-|Hin] & Hrow).
    + apply map2_nth_error in Hrow. destruct Hrow as (a & b & Ha & Hb & ->).
      destruct (Hstep a b) as [-> | ->].
      * exists r. split; [now left | exact Ha].
      * exists r'. split; [right; now left | exact Hb].
    + exists row. split; [right; now right | exact Hrow].
Qed.

Lemma min_step_pick (a b : float) : Tf.min_step a b = a \/ Tf.min_step a b = b.
Proof. unfold Tf.min_step. destruct (_ || _); auto. Qed.

Lemma min_step_diag (v : float) : Tf.min_step v v = v.
Proof. unfold Tf.min_step. now destruct (_ || _). Qed.

Lemma max_step_diag (v : float) : Tf.max_step v v = v.
Proof. unfold Tf.max_step. now destruct (_ || _). Qed.

Lemma constant_feature_column (rows : list (list float)) (j : nat) (v : float) :
  rows <> [] ->
  (forall row, In row rows -> nth_error row j = Some v) ->
  is_finite v = true ->
  exists out,
    normalize (Tf.Mat rows) (Tf.min0 (Tf.Mat rows)) (Tf.max0 (Tf.Mat rows))
    = Tf.Mat out
    /\ zero_column j rows out.
Proof.
  intros Hne Hcol Hfin. cbn [Tf.min0 Tf.max0].
  rewrite normalize_rows. eexists. split; [reflexivity|].
  apply (normalize_zero_range _ _ _ j v v).
  - apply reduce_rows_constant; auto using min_step_diag.
  - apply reduce_rows_constant; auto using max_step_diag.
  - unfold is_finite, is_nan in Hfin.
    apply negb_true_iff, orb_false_iff in Hfin. destruct Hfin as [Hnan _].
    now apply negb_false_iff in Hnan.
  - exact Hfin.
Qed.

(** ** The train and validation split *)

(** The per-column minimum and maximum of the feature matrix, and the
    normalized row of a record. *)
Definition feature_row (p : Product) : list float :=
  map Tf.float32 (features p).

Definition feature_min (items : list Product) : list float :=
  Tf.reduce_rows Tf.min_step (map feature_row items).

Definition feature_max (items : list Product) : list float :=
  Tf.reduce_rows Tf.max_step (map feature_row items).

Definition normalized_row (items : list Product) (p : Product) : list float :=
  Tf.map2 Tf.div_no_nan
          (Tf.map2 Tf.sub_entry (feature_row p) (feature_min items))
          (Tf.map2 Tf.sub_entry (feature_max items) (feature_min items)).

(** The row [[p.reorder]] of the label matrix. *)
Definition label_row (p : Product) : list float := [Tf.float32 (reorder p)].

(** The split index and the size of the validation block, as the program
    computes them in numbers, against [floor (4 n / 5)] in integers. *)
Definition split_exact (n : Z) : bool :=
  match to_integer (split_of (of_Z n)),
        to_integer (of_Z n - split_of (of_Z n))%float with
  | Some a, Some b => (a =? 4 * n / 5) && (b =? n - 4 * n / 5)
  | _, _ => false
  end.

Lemma split_exact_all (n : Z) : 0 <= n < 2 ^ 32 -> split_exact n = true.
Proof.
  intros Hn. destruct (Z.eq_dec n 0) as [->|Hn0]; [vm_compute; reflexivity|].
  assert (Hk : 0 <= 4 * n / 5 <= n).
  { split; [apply Z.div_pos; lia|]. apply Z.div_le_upper_bound; lia. }
  unfold split_exact.
  rewrite split_of_exact, of_Z_sub by lia.
  rewrite !to_integer_of_Z by lia.
  now rewrite !Z.eqb_refl.
Qed.

Lemma slice_dim_all {A : Type} (l : list A) :
  Tf.slice_dim 0%float (-1)%float l = l.
Proof. reflexivity. Qed.

Lemma slice_dim_rows {A : Type} (b n : float) (zb zn : Z) (l : list A) :
  to_integer b = Some zb -> to_integer n = Some zn -> 0 <= zn ->
  Tf.slice_dim b n l = firstn (Z.to_nat zn) (skipn (Z.to_nat zb) l).
Proof.
  intros Hb Hn Hpos. unfold Tf.slice_dim, Tf.index_of. rewrite Hb, Hn.
  destruct zn as [|q|q]; try reflexivity. lia.
Qed.

Lemma slice_rows (rows : list (list float)) (b n : float) (zb zn : Z) :
  to_integer b = Some zb -> to_integer n = Some zn -> 0 <= zn ->
  Tf.slice (Tf.Mat rows) (b, 0%float) (n, (-1)%float)
  = Tf.Mat (firstn (Z.to_nat zn) (skipn (Z.to_nat zb) rows)).
Proof.
  intros Hb Hn Hpos. unfold Tf.slice. cbn [fst snd].
  rewrite (slice_dim_rows b n zb zn) by assumption.
  f_equal. rewrite <- (map_id (firstn _ _)) at 2.
  apply map_ext. intros row. apply slice_dim_all.
Qed.

(** The size of the training block in the words of the specification:
    [floor (0.8 n)], as an integer. *)
Definition floor_four_fifths (n : nat) : nat := Z.to_nat (4 * Z.of_nat n / 5).

(** C3.  The split is positional and deterministic.  For the [n] records
    in their order, the training block handed to [model.fit] is made of the
    first [floor (0.8 n)] records (their normalized rows and their labels)
    and the validation block of the remaining [n - floor (0.8 n)] ones; for
    [n = 150] these are the first 120 and the last 30.  The index the
    program computes in numbers, [Math.floor(total * 0.8)], is that integer
    for every length below [2^32], which is every length an array has. *)
Theorem train_val_split_positional (items : list Product) :
  Z.of_nat (List.length items) < 2 ^ 32 ->
  let k := floor_four_fifths (List.length items) in
  train_val_split items
  = ( Tf.Mat (map (normalized_row items) (firstn k items)),
      Tf.Mat (map label_row (firstn k items)),
      Tf.Mat (map (normalized_row items) (skipn k items)),
      Tf.Mat (map label_row (skipn k items)) )
  /\ Tf.index_of (split_of (of_Z (Z.of_nat (List.length items)))) = k
  /\ List.length (firstn k items) = k
  /\ List.length (skipn k items) = (List.length items - k)%nat
  /\ floor_four_fifths 150 = 120%nat
  /\ (150 - floor_four_fifths 150 = 30)%nat.
Proof.
  intros Hn k. unfold floor_four_fifths in k.
  set (n := Z.of_nat (List.length items)) in *.
  assert (Hk : (k <= List.length items)%nat).
  { subst k n. apply Nat2Z.inj_le. rewrite Z2Nat.id.
    - apply Z.div_le_upper_bound; lia.
    - apply Z.div_pos; lia. }
  pose proof (split_exact_all n ltac:(lia)) as Hs. unfold split_exact in Hs.
  destruct (to_integer (split_of (of_Z n))) as [a|] eqn:Ha; [|discriminate].
  destruct (to_integer (of_Z n - split_of (of_Z n))%float) as [b|] eqn:Hb;
    [|discriminate].
  apply andb_prop in Hs. destruct Hs as [Ha' Hb'].
  apply Z.eqb_eq in Ha', Hb'. subst a b.
  split; [|split; [|split; [|split; [|split]]]].
  - assert (H0 : to_integer 0%float = Some 0) by reflexivity.
    assert (Hdiv : 0 <= 4 * n / 5) by (apply Z.div_pos; lia).
    unfold train_val_split, Tf.tensor2d. cbn [Tf.min0 Tf.max0]. fold n.
    rewrite normalize_rows, !map_map.
    change (fun x : Product => map Tf.float32 (features x)) with feature_row.
    fold (feature_min items) (feature_max items).
    rewrite (slice_rows _ 0%float (split_of (of_Z n)) 0 (4 * n / 5)) by assumption.
    rewrite (slice_rows _ 0%float (split_of (of_Z n)) 0 (4 * n / 5)) by assumption.
    rewrite (slice_rows _ (split_of (of_Z n)) _ (4 * n / 5) (n - 4 * n / 5))
      by (try assumption; lia).
    rewrite (slice_rows _ (split_of (of_Z n)) _ (4 * n / 5) (n - 4 * n / 5))
      by (try assumption; lia).
    fold k. change (Z.to_nat 0) with O. cbn [skipn].
    assert (Hall : forall (B : Type) (l : list B),
               List.length l = List.length items ->
               firstn (Z.to_nat (n - 4 * n / 5)) (skipn k l) = skipn k l).
    { intros B l Hl. apply firstn_all2. rewrite length_skipn, Hl. subst k n. lia. }
    rewrite !Hall by (rewrite length_map; reflexivity).
    rewrite <- !firstn_map, <- !skipn_map.
    reflexivity.
  - unfold Tf.index_of. fold n. now rewrite Ha.
  - rewrite length_firstn. lia.
  - apply length_skipn.
  - reflexivity.
  - reflexivity.
Qed.

(** Five records to run the definitions on. *)
Definition sample_items : list Product :=
  [ mkProduct 1 "Soda Pack 1" 301 120 2 0 None None None;
    mkProduct 2 "Rice 5kg 2" 55 1 3 0 None None None;
    mkProduct 3 "Coffee Beans 3" 219 120 4 0 None None None;
    mkProduct 4 "Toothpaste 4" 12 2 5 0 None None None;
    mkProduct 5 "Shampoo 5" 10 119 6 1 None None None ]%float%string.

Lemma train_val_split_positional_witness :
  let k := floor_four_fifths (List.length sample_items) in
  train_val_split sample_items
  = ( Tf.Mat (map (normalized_row sample_items) (firstn k sample_items)),
      Tf.Mat (map label_row (firstn k sample_items)),
      Tf.Mat (map (normalized_row sample_items) (skipn k sample_items)),
      Tf.Mat (map label_row (skipn k sample_items)) )
  /\ Tf.index_of (split_of (of_Z (Z.of_nat (List.length sample_items)))) = k
  /\ List.length (firstn k sample_items) = k
  /\ List.length (skipn k sample_items) = (List.length sample_items - k)%nat
  /\ floor_four_fifths 150 = 120%nat
  /\ (150 - floor_four_fifths 150 = 30)%nat.
Proof.
  apply (train_val_split_positional sample_items). vm_compute. reflexivity.
Defined.

Example train_val_split_sample :
  train_val_split sample_items
  = ( Tf.Mat [ [1; 1; 0]; [0.15463916957378387; 0; 0.25];
               [0.71821308135986328; 1; 0.5];
               [0.0068728523328900337; 0.0084033617749810219; 0.75] ]%float,
      Tf.Mat [ [0]; [0]; [0]; [0] ]%float,
      Tf.Mat [ [0; 0.99159663915634155; 1] ]%float,
      Tf.Mat [ [1] ]%float ).
Proof. vm_compute. reflexivity. Qed.


(** ** The training cycle *)

Arguments mkApp {Model} _ _ _ _ _.
Arguments mkStored {Model} _ _ _.
Arguments Alert {Model} _.
Arguments ConsoleError {Model} _.
Arguments ModelFit {Model} _ _ _ _ _.
Arguments ModelPredict {Model} _ _.
Arguments ModelDispose {Model} _.
Arguments Download {Model} _ _.
Arguments model {Model} _.

Section Cycle.

Variable Math_sin Math_cos : float -> float.
Variable toString_other : float -> string.
Variable Model : Type.
Variable tf_fit :
  nat -> Tf.Tensor -> Tf.Tensor -> Tf.Tensor -> Tf.Tensor ->
  Outcome (Model * option (list float)).
Variable tf_predict : Model -> Tf.Tensor -> Outcome (list float).

(** The bounds a cycle stores and the tensor it scores. *)
Definition bounds_of (items : list Product) : Tf.Tensor * Tf.Tensor :=
  (Tf.min0 (Tf.tensor2d (map features items)),
   Tf.max0 (Tf.tensor2d (map features items))).

Definition input_norm (items : list Product) : Tf.Tensor :=
  normalize (Tf.tensor2d (map features items))
            (fst (bounds_of items)) (snd (bounds_of items)).

(** What the library does in a cycle over [items]: the fit throws, or it
    returns a model and scoring throws, or both return. *)
Definition fit_outcome (seed : nat) (items : list Product)
  : Outcome (Model * option (list float)) :=
  let '(xTrain, yTrain, xVal, yVal) := train_val_split items in
  tf_fit seed xTrain yTrain xVal yVal.

Definition cycle_outcome (seed : nat) (items : list Product)
  : Outcome (Model * option (list float) * list float) :=
  match fit_outcome seed items with
  | Thrown e => Thrown e
  | Returned (m, h) =>
      match tf_predict m (input_norm items) with
      | Thrown e => Thrown e
      | Returned d => Returned (m, h, d)
      end
  end.

(** The effects of the calls into the library during a cycle. *)
Definition fit_effect (seed : nat) (items : list Product) : Effect Model :=
  let '(xTrain, yTrain, xVal, yVal) := train_val_split items in
  ModelFit seed xTrain yTrain xVal yVal.

Definition dispose_log (s : AppState Model) : list (Effect Model) :=
  match modelStore s with
  | Some st => [ModelDispose (model st)]
  | None => []
  end.

Definition stored_of (m : Model) (items : list Product) : StoredModel Model :=
  mkStored m (fst (bounds_of items)) (snd (bounds_of items)).

(** The [stats] a successful cycle sets. *)
Definition stats_of (h : option (list float)) (updated : list Product) : Stats :=
  mkStats (Z.of_nat (List.length updated))
          (count_where reorder_truthy updated)
          (count_where prediction_truthy updated)
          (accuracy_text toString_other (last_val_accuracy h)).

Lemma trainAndPredict_empty (seed : nat) (s : AppState Model) :
  products s = [] ->
  trainAndPredict toString_other Model tf_fit tf_predict seed s
  = (Returned tt,
     mkApp (products s) (runningModel s) (stats s) (modelStore s)
           (effects s ++ [Alert "No products available."%string])).
Proof.
  intros Hnil. unfold trainAndPredict.
  destruct (List.length (products s) =? 0)%nat eqn:E; [reflexivity|].
  rewrite Hnil in E. discriminate.
Qed.

Lemma length_nonempty {A : Type} (l : list A) :
  l <> [] -> (List.length l =? 0)%nat = false.
Proof. destruct l; [contradiction | reflexivity]. Qed.

Lemma trainAndPredict_fit_throws (seed : nat) (s : AppState Model) (e : JsError) :
  products s <> [] ->
  fit_outcome seed (products s) = Thrown e ->
  trainAndPredict toString_other Model tf_fit tf_predict seed s
  = (Returned tt,
     mkApp (products s) false (stats s) (modelStore s)
           (effects s ++ [fit_effect seed (products s);
                          ConsoleError e; Alert (error_text e)])).
Proof.
  intros Hne Hfit. unfold trainAndPredict. cbv zeta.
  rewrite (length_nonempty _ Hne).
  unfold fit_outcome, fit_effect in *.
  unfold train_body, buildAndTrainModel.
  destruct (train_val_split (products s)) as [[[a b] c] d].
  unfold bind, try_finally, try_catch, call, console_error, alert, emit,
    setRunningModel, bind.
  cbn -[error_text]. rewrite Hfit. cbn -[error_text].
  rewrite <- !app_assoc. reflexivity.
Qed.

Lemma trainAndPredict_predict_throws
  (seed : nat) (s : AppState Model) (m : Model) (h : option (list float))
  (e : JsError) :
  products s <> [] ->
  fit_outcome seed (products s) = Returned (m, h) ->
  tf_predict m (input_norm (products s)) = Thrown e ->
  trainAndPredict toString_other Model tf_fit tf_predict seed s
  = (Returned tt,
     mkApp (products s) false (stats s) (Some (stored_of m (products s)))
           (effects s ++ [fit_effect seed (products s)] ++ dispose_log s
              ++ [ModelPredict m (input_norm (products s));
                  ConsoleError e; Alert (error_text e)])).
Proof.
  intros Hne Hfit Hpred. unfold trainAndPredict. cbv zeta.
  rewrite (length_nonempty _ Hne).
  unfold fit_outcome, fit_effect, dispose_log, stored_of, input_norm, bounds_of in *.
  cbn [fst snd] in *.
  unfold train_body, buildAndTrainModel.
  destruct (train_val_split (products s)) as [[[a b] c] d].
  unfold bind, try_finally, try_catch, call, console_error, alert, emit,
    setRunningModel, setModelStore, dispose_stored, ret, bind.
  cbn -[error_text normalize Tf.min0 Tf.max0]. rewrite Hfit.
  cbn -[error_text normalize Tf.min0 Tf.max0].
  destruct (modelStore s) as [st|];
    cbn -[error_text normalize Tf.min0 Tf.max0]; rewrite Hpred;
    cbn -[error_text normalize Tf.min0 Tf.max0];
    rewrite <- !app_assoc; reflexivity.
Qed.

Lemma trainAndPredict_success
  (seed : nat) (s : AppState Model) (m : Model) (h : option (list float))
  (d : list float) :
  products s <> [] ->
  fit_outcome seed (products s) = Returned (m, h) ->
  tf_predict m (input_norm (products s)) = Returned d ->
  trainAndPredict toString_other Model tf_fit tf_predict seed s
  = (Returned tt,
     mkApp (mapi (with_prediction d) (products s)) false
           (stats_of h (mapi (with_prediction d) (products s)))
           (Some (stored_of m (products s)))
           (effects s ++ [fit_effect seed (products s)] ++ dispose_log s
              ++ [ModelPredict m (input_norm (products s))])).
Proof.
  intros Hne Hfit Hpred. unfold trainAndPredict. cbv zeta.
  rewrite (length_nonempty _ Hne).
  unfold fit_outcome, fit_effect, dispose_log, stored_of, input_norm, bounds_of,
    stats_of in *.
  cbn [fst snd] in *.
  unfold train_body, buildAndTrainModel.
  destruct (train_val_split (products s)) as [[[a b] c] d'].
  unfold bind, try_finally, try_catch, call, console_error, alert, emit,
    setRunningModel, setModelStore, setProducts, setStats, dispose_stored, ret, bind.
  cbn -[error_text normalize Tf.min0 Tf.max0 mapi accuracy_text count_where].
  rewrite Hfit.
  cbn -[error_text normalize Tf.min0 Tf.max0 mapi accuracy_text count_where].
  destruct (modelStore s) as [st|];
    cbn -[error_text normalize Tf.min0 Tf.max0 mapi accuracy_text count_where];
    rewrite Hpred;
    cbn -[error_text normalize Tf.min0 Tf.max0 mapi accuracy_text count_where];
    rewrite <- !app_assoc; reflexivity.
Qed.

(** Two records agree on everything but the prediction properties. *)
Definition same_base (p q : Product) : Prop :=
  id p = id q /\ name p = name q
  /\ currentInventory p = currentInventory q
  /\ avgSalesPerWeek p = avgSalesPerWeek q
  /\ daysToReplenish p = daysToReplenish q
  /\ reorder p = reorder q.

(** The label the business rule gives to three features. *)
Definition rule_label (currentInventory avgSalesPerWeek daysToReplenish : float)
  : float :=
  if (currentInventory <? avgSalesPerWeek * (daysToReplenish / 7) * 1.25)%float
  then 1%float else 0%float.

(** The label of a record is the one of the rule on its own features. *)
Definition labelled (p : Product) : Prop :=
  reorder p
  = rule_label (currentInventory p) (avgSalesPerWeek p) (daysToReplenish p).

(** The prediction fields of a record are the ones that the scores [d]
    give to the record at index [k]. *)
Definition scored_by (d : list float) (k : nat) (p : Product) : Prop :=
  predictionScore p = nth_error d k
  /\ prediction p = Some (predicted_of (nth_error d k))
  /\ predictionText p
     = Some (if truthy (predicted_of (nth_error d k))
             then "Reorder" else "No Reorder")%string.

(** A score of the closed interval [[0, 1]]. *)
Definition in_unit_interval (v : float) : bool :=
  (0 <=? v)%float && (v <=? 1)%float.

Lemma same_base_refl (p : Product) : same_base p p.
Proof. repeat split. Qed.

Lemma with_prediction_base (d : list float) (p : Product) (i : nat) :
  same_base p (with_prediction d p i).
Proof. repeat split. Qed.

Lemma mapi_from_length {A B : Type} (f : A -> nat -> B) (l : list A) :
  forall i, List.length (mapi_from f i l) = List.length l.
Proof. induction l as [|a l IH]; intros i; simpl; [reflexivity | now rewrite IH]. Qed.

Lemma mapi_from_nth_error {A B : Type} (f : A -> nat -> B) (l : list A) :
  forall i k, nth_error (mapi_from f i l) k
              = option_map (fun a => f a (i + k)%nat) (nth_error l k).
Proof.
  induction l as [|a l IH]; intros i k; destruct k as [|k]; simpl; try reflexivity.
  - now rewrite Nat.add_0_r.
  - rewrite IH. now rewrite Nat.add_succ_r.
Qed.

Lemma mapi_from_map {A B C : Type} (f : A -> nat -> B) (g : B -> C) (g' : A -> C) :
  (forall a i, g (f a i) = g' a) ->
  forall l i, map g (mapi_from f i l) = map g' l.
Proof.
  intros H. induction l as [|a l IH]; intros i; simpl; [reflexivity|].
  now rewrite H, IH.
Qed.

Lemma mapi_from_Forall2 {A B : Type} (R : A -> B -> Prop) (f : A -> nat -> B) :
  (forall a i, R a (f a i)) ->
  forall l i, Forall2 R l (mapi_from f i l).
Proof.
  intros H. induction l as [|a l IH]; intros i; simpl; constructor; auto.
Qed.

Lemma mapi_from_twice (d1 d2 : list float) (l : list Product) :
  forall i, mapi_from (with_prediction d2) i (mapi_from (with_prediction d1) i l)
            = mapi_from (with_prediction d2) i l.
Proof.
  induction l as [|a l IH]; intros i; simpl; [reflexivity|]. now rewrite IH.
Qed.

Lemma Forall2_refl {A : Type} (R : A -> A -> Prop) :
  (forall a, R a a) -> forall l, Forall2 R l l.
Proof. intros H. induction l; constructor; auto. Qed.

(** The tensors of a cycle depend on the records only through their
    features and labels. *)
Lemma train_val_split_base (items items' : list Product) :
  map features items' = map features items ->
  map (fun p => [reorder p]) items' = map (fun p => [reorder p]) items ->
  List.length items' = List.length items ->
  train_val_split items' = train_val_split items.
Proof.
  intros Hf Hl Hn. unfold train_val_split. now rewrite Hf, Hl, Hn.
Qed.

Lemma cycle_outcome_annotated (seed : nat) (d : list float) (items : list Product) :
  cycle_outcome seed (mapi (with_prediction d) items) = cycle_outcome seed items.
Proof.
  assert (Hf : map features (mapi (with_prediction d) items) = map features items)
    by (apply mapi_from_map; reflexivity).
  assert (Hl : map (fun p => [reorder p]) (mapi (with_prediction d) items)
               = map (fun p => [reorder p]) items)
    by (apply mapi_from_map; reflexivity).
  unfold cycle_outcome, fit_outcome, input_norm, bounds_of.
  rewrite (train_val_split_base items _ Hf Hl (mapi_from_length _ _ _)).
  now rewrite Hf.
Qed.

(** The three ways a cycle over a non-empty [products] ends. *)
Lemma trainAndPredict_cases (seed : nat) (s : AppState Model) :
  products s <> [] ->
  let r := trainAndPredict toString_other Model tf_fit tf_predict seed s in
  (exists e log,
      cycle_outcome seed (products s) = Thrown e
      /\ r = (Returned tt,
              mkApp (products s) false (stats s)
                    (modelStore (snd r))
                    (effects s ++ log ++ [ConsoleError e; Alert (error_text e)])))
  \/ (exists m h d,
      cycle_outcome seed (products s) = Returned (m, h, d)
      /\ r = (Returned tt,
              mkApp (mapi (with_prediction d) (products s)) false
                    (stats_of h (mapi (with_prediction d) (products s)))
                    (Some (stored_of m (products s)))
                    (effects s ++ [fit_effect seed (products s)] ++ dispose_log s
                       ++ [ModelPredict m (input_norm (products s))]))).
Proof.
  intros Hne r. subst r. unfold cycle_outcome.
  destruct (fit_outcome seed (products s)) as [[m h]|e] eqn:Hfit.
  - destruct (tf_predict m (input_norm (products s))) as [d|e] eqn:Hpred.
    + right. exists m, h, d. split; [reflexivity|].
      now apply trainAndPredict_success.
    + left. exists e, ([fit_effect seed (products s)] ++ dispose_log s
                        ++ [ModelPredict m (input_norm (products s))]).
      split; [reflexivity|].
      rewrite (trainAndPredict_predict_throws seed s m h e Hne Hfit Hpred).
      cbn [snd modelStore]. rewrite <- !app_assoc. reflexivity.
  - left. exists e, [fit_effect seed (products s)]. split; [reflexivity|].
    rewrite (trainAndPredict_fit_throws seed s e Hne Hfit). reflexivity.
Qed.

(** C4.  On an empty [products] the handler only alerts: nothing is
    fitted or scored and no state cell changes.  Otherwise a failure thrown
    while fitting or scoring is caught and reported (on the console and in
    an alert that carries the error's message), [products] and [stats] are
    left as they were, and on every path through the [try] statement, the
    successful one included, the handler returns normally with
    [runningModel] reset to [false]. *)
Theorem trainAndPredict_error_handling (seed : nat) (s : AppState Model) :
  (products s = [] ->
   trainAndPredict toString_other Model tf_fit tf_predict seed s
   = (Returned tt,
      mkApp (products s) (runningModel s) (stats s) (modelStore s)
            (effects s ++ [Alert "No products available."%string])))
  /\ (forall e,
        products s <> [] ->
        cycle_outcome seed (products s) = Thrown e ->
        exists store log,
          trainAndPredict toString_other Model tf_fit tf_predict seed s
          = (Returned tt,
             mkApp (products s) false (stats s) store
                   (effects s ++ log ++ [ConsoleError e; Alert (error_text e)]))
          /\ (message e <> ""%string ->
              error_text e = ("Error training/predicting: " ++ message e)%string))
  /\ (products s <> [] ->
      fst (trainAndPredict toString_other Model tf_fit tf_predict seed s)
      = Returned tt
      /\ runningModel
           (snd (trainAndPredict toString_other Model tf_fit tf_predict seed s))
         = false).
Proof.
  split; [apply trainAndPredict_empty|]. split.
  - intros e Hne Hcycle.
    destruct (trainAndPredict_cases seed s Hne)
      as [(e' & log & Hc & Hr)|(m & h & d & Hc & _)].
    + rewrite Hcycle in Hc. injection Hc as <-.
      eexists. exists log. split; [exact Hr|].
      intros Hmsg. unfold error_text.
      destruct (String.eqb_spec (message e) ""); [contradiction | reflexivity].
    + rewrite Hcycle in Hc. discriminate.
  - intros Hne.
    destruct (trainAndPredict_cases seed s Hne)
      as [(e & log & _ & Hr)|(m & h & d & _ & Hr)];
      rewrite Hr; split; reflexivity.
Qed.

(** Every generated record carries the label of the business rule. *)
Lemma generate_labelled (count : Z) :
  Forall labelled (generateProducts Math_sin Math_cos count).
Proof.
  rewrite generateProducts_map. apply Forall_forall. intros p Hp.
  apply in_map_iff in Hp. destruct Hp as (i & <- & _). reflexivity.
Qed.

(** The records after a cycle: the same, or annotated with the scores of
    a successful cycle. *)
Lemma trainAndPredict_products (seed : nat) (s : AppState Model) :
  let s1 := snd (trainAndPredict toString_other Model tf_fit tf_predict seed s) in
  products s1 = products s
  \/ exists m h d,
       products s <> []
       /\ cycle_outcome seed (products s) = Returned (m, h, d)
       /\ products s1 = mapi (with_prediction d) (products s).
Proof.
  cbv zeta. destruct (products s) as [|p ps] eqn:Hps.
  - left. rewrite (trainAndPredict_empty seed s Hps). exact Hps.
  - assert (Hne : products s <> []) by (rewrite Hps; discriminate).
    rewrite <- Hps.
    destruct (trainAndPredict_cases seed s Hne)
      as [(e & log & _ & Hr)|(m & h & d & Hc & Hr)]; rewrite Hr.
    + now left.
    + right. exists m, h, d. repeat split; assumption.
Qed.

Lemma trainAndPredict_same_base (seed : nat) (s : AppState Model) :
  Forall2 same_base (products s)
    (products (snd (trainAndPredict toString_other Model tf_fit tf_predict seed s))).
Proof.
  destruct (trainAndPredict_products seed s) as [->|(m & h & d & _ & _ & ->)].
  - apply Forall2_refl, same_base_refl.
  - apply mapi_from_Forall2. intros a i. apply with_prediction_base.
Qed.

Lemma successful_cycle_products
  (seed : nat) (s : AppState Model)
  (m : Model) (h : option (list float)) (d : list float) :
  products s <> [] ->
  cycle_outcome seed (products s) = Returned (m, h, d) ->
  products (snd (trainAndPredict toString_other Model tf_fit tf_predict seed s))
  = mapi (with_prediction d) (products s).
Proof.
  intros Hne Hc.
  destruct (trainAndPredict_cases seed s Hne)
    as [(e & log & Hc' & _)|(m' & h' & d' & Hc' & Hr)].
  - rewrite Hc in Hc'. discriminate.
  - rewrite Hc in Hc'. injection Hc' as <- <- <-. rewrite Hr. reflexivity.
Qed.

Lemma annotated_scored_by (d : list float) (l : list Product) (k : nat) (p : Product) :
  nth_error (mapi (with_prediction d) l) k = Some p -> scored_by d k p.
Proof.
  unfold mapi. rewrite mapi_from_nth_error.
  destruct (nth_error l k) as [p0|]; [|discriminate].
  cbn [option_map Nat.add]. intros H. injection H as <-. repeat split.
Qed.

(** C5.  The label of a generated record is a function of its three
    features, the business rule.  A training cycle, and a second one after
    it, leave the five base fields and the label of every record as they
    were.  A successful cycle writes the three prediction fields of every
    record from the scores of that cycle; the second cycle calls the library
    on the same tensors as it would have without the first, and after it
    every record holds the score and the label of the second cycle: the
    records are the original ones with the second cycle's predictions,
    whatever the first cycle stored. *)
Theorem training_rewrites_only_predictions
  (seed1 seed2 : nat) (s : AppState Model) :
  let s1 := snd (trainAndPredict toString_other Model tf_fit tf_predict seed1 s) in
  let s2 := snd (trainAndPredict toString_other Model tf_fit tf_predict seed2 s1) in
  (forall count,
     Forall (fun p => reorder p
                      = rule_label (currentInventory p) (avgSalesPerWeek p)
                                   (daysToReplenish p))
            (generateProducts Math_sin Math_cos count))
  /\ Forall2 same_base (products s) (products s1)
  /\ Forall2 same_base (products s1) (products s2)
  /\ (forall m h d,
        products s <> [] ->
        cycle_outcome seed1 (products s) = Returned (m, h, d) ->
        forall k p, nth_error (products s1) k = Some p -> scored_by d k p)
  /\ cycle_outcome seed2 (products s1) = cycle_outcome seed2 (products s)
  /\ (forall m h d,
        products s <> [] ->
        cycle_outcome seed2 (products s1) = Returned (m, h, d) ->
        products s2 = mapi (with_prediction d) (products s)
        /\ forall k p, nth_error (products s2) k = Some p -> scored_by d k p).
Proof.
  intros s1 s2.
  pose proof (trainAndPredict_same_base seed1 s) as Hbase. fold s1 in Hbase.
  pose proof (trainAndPredict_same_base seed2 s1) as Hbase2. fold s2 in Hbase2.
  assert (Hcyc : cycle_outcome seed2 (products s1) = cycle_outcome seed2 (products s)).
  { destruct (trainAndPredict_products seed1 s) as [Heq|(m & h & d & _ & _ & Heq)];
      fold s1 in Heq; rewrite Heq; [reflexivity | apply cycle_outcome_annotated]. }
  split; [exact generate_labelled|]. split; [exact Hbase|]. split; [exact Hbase2|].
  split; [|split; [exact Hcyc|]].
  - intros m h d Hne Hc k p Hk. subst s1.
    rewrite (successful_cycle_products seed1 s m h d Hne Hc) in Hk.
    exact (annotated_scored_by d _ k p Hk).
  - intros m h d Hne Hc.
    assert (Hne1 : products s1 <> []).
    { intros Hnil. rewrite Hnil in Hbase. inversion Hbase as [Hnil'|]; subst.
      now apply Hne. }
    assert (Hs2 : products s2 = mapi (with_prediction d) (products s)).
    { subst s2. rewrite (successful_cycle_products seed2 s1 m h d Hne1 Hc).
      destruct (trainAndPredict_products seed1 s) as [Heq1|(m1 & h1 & d1 & _ & _ & Heq1)];
        fold s1 in Heq1; rewrite Heq1; [reflexivity | apply mapi_from_twice]. }
    split; [exact Hs2|]. intros k p Hk. rewrite Hs2 in Hk.
    exact (annotated_scored_by d _ k p Hk).
Qed.


(** The states the handlers reach from the initial one when each handler
    runs to its end before the next event: no event arrives while a cycle
    waits for the fit or for the scores.  The pages on which events do
    arrive in between are [page_reachable] below. *)
Inductive reachable : AppState Model -> Prop :=
| reach_init : reachable (initialState Model)
| reach_regenerate (s : AppState Model) :
    reachable s -> reachable (snd (regenerate Math_sin Math_cos Model s))
| reach_train (seed : nat) (s : AppState Model) :
    reachable s ->
    reachable (snd (trainAndPredict toString_other Model tf_fit tf_predict seed s))
| reach_download (s : AppState Model) :
    reachable s -> reachable (snd (downloadCSV toString_other Model s)).

Lemma downloadCSV_products (s : AppState Model) :
  products (snd (downloadCSV toString_other Model s)) = products s.
Proof. unfold downloadCSV. now destruct (_ =? _)%nat. Qed.

(** In every reachable state [products] is empty or the 150 generated
    records, with or without predictions; so every label is the business
    rule on its record, before and after any number of cycles. *)
Lemma reachable_products (s : AppState Model) :
  reachable s ->
  products s = []
  \/ Forall2 same_base (generateProducts Math_sin Math_cos 150) (products s).
Proof.
  induction 1 as [|s _ _|seed s _ IH|s _ IH].
  - now left.
  - right. apply Forall2_refl, same_base_refl.
  - pose proof (trainAndPredict_same_base seed s) as Hbase.
    destruct IH as [Hnil|IH].
    + left. rewrite Hnil in Hbase. now inversion Hbase.
    + right. clear - IH Hbase.
      revert Hbase. generalize (products (snd (trainAndPredict toString_other Model
                                                 tf_fit tf_predict seed s))).
      induction IH as [|p q l l' Hpq _ IH']; intros l2 Hbase;
        inversion Hbase as [|? r ? l2' Hqr Hrest]; subst; constructor.
      * destruct Hpq as (? & ? & ? & ? & ? & ?).
        destruct Hqr as (? & ? & ? & ? & ? & ?). repeat split; congruence.
      * now apply IH'.
  - now rewrite downloadCSV_products.
Qed.

End Cycle.

(** *** Runs on a small backend *)

(** A network that returns the first normalized feature of a record as
    its score, one whose fit throws, and one whose scoring throws. *)
Definition sample_fit (seed : nat) (xTrain yTrain xVal yVal : Tf.Tensor)
  : Outcome (unit * option (list float)) :=
  Returned (tt, Some [0.5; 0.75]%float).

Definition sample_predict (m : unit) (input : Tf.Tensor) : Outcome (list float) :=
  Returned (map (fun row => nth 0 row 0%float) (Tf.rows_of input)).

Definition failing_fit (seed : nat) (xTrain yTrain xVal yVal : Tf.Tensor)
  : Outcome (unit * option (list float)) :=
  Thrown (mkError "Error" "tensor is disposed").

Definition failing_predict (m : unit) (input : Tf.Tensor) : Outcome (list float) :=
  Thrown (mkError "Error" "").

Definition sample_state : AppState unit :=
  mkApp sample_items false (mkStats 5 1 0 "N/A") None [].




Example sample_cycle_run :
  let s' := snd (trainAndPredict (fun _ => "?"%string) unit sample_fit
                                 sample_predict 0 sample_state) in
  map predictionScore (products s')
  = map Some [1; 0.15463916957378387; 0.71821308135986328;
              0.0068728523328900337; 0]%float
  /\ map prediction (products s') = map Some [1; 0; 1; 0; 0]%float
  /\ map predictionText (products s')
     = map Some ["Reorder"; "No Reorder"; "Reorder"; "No Reorder"; "No Reorder"]%string
  /\ stats s' = mkStats 5 1 2 "75.0%"
  /\ runningModel s' = false.
Proof. vm_compute. repeat split; reflexivity. Qed.

Example failing_fit_run :
  let s' := snd (trainAndPredict (fun _ => "?"%string) unit failing_fit
                                 sample_predict 0 sample_state) in
  products s' = sample_items
  /\ runningModel s' = false
  /\ stats s' = stats sample_state
  /\ last (effects s') (Alert "")
     = Alert "Error training/predicting: tensor is disposed".
Proof. vm_compute. repeat split; reflexivity. Qed.

Example failing_predict_run :
  let s' := snd (trainAndPredict (fun _ => "?"%string) unit sample_fit
                                 failing_predict 0 sample_state) in
  products s' = sample_items
  /\ runningModel s' = false
  /\ last (effects s') (Alert "") = Alert "Error training/predicting: Error".
Proof. vm_compute. repeat split; reflexivity. Qed.

Example empty_run :
  trainAndPredict (fun _ => "?"%string) unit sample_fit sample_predict 0
                  (initialState unit)
  = (Returned tt, mkApp [] false (mkStats 0 0 0 "N/A") None
                        [Alert "No products available."]).
Proof. reflexivity. Qed.

(** ** The page while a cycle is waiting *)

(** [trainAndPredict] is an [async] function: it runs up to
    [await model.fit(...)] when the button is clicked, from there up to
    [await preds.data()] when the fit has settled, and to its end when the
    scores have arrived.  In between the page handles other events:
    "Regenerate Products" and "Download CSV" stay enabled, and the component
    can unmount.  The "Train" button is disabled while [runningModel] is
    set. *)

Section Waiting.

Variable Math_sin Math_cos : float -> float.
Variable toString_other : float -> string.
Variable Model : Type.
Variable tf_fit :
  nat -> Tf.Tensor -> Tf.Tensor -> Tf.Tensor -> Tf.Tensor ->
  Outcome (Model * option (list float)).
Variable tf_predict : Model -> Tf.Tensor -> Outcome (list float).

Notation "c ;; k" := (bind Model c (fun _ => k))
  (at level 61, right associativity).

(** A cycle suspended at one of the two [await]s, with what its
    continuation holds: the [products] of the render that created the
    handler, and at the second [await] the validation accuracies of the fit
    and what [preds.data()] is about to deliver. *)
Inductive Suspended : Type :=
| AwaitFit (seed : nat) (items : list Product)
| AwaitData (items : list Product) (h : option (list float))
            (r : Outcome (list float)).

(** The page: the state of the component, whether it is still mounted,
    and the suspended cycles. *)
Record Page : Type := mkPage {
  component : AppState Model;
  mounted : bool;
  suspended : list Suspended
}.

(** [trainAndPredict] up to [await model.fit(...)]: the guard, the flag,
    and the call of [model.fit] on the tensors of the records. *)
Definition start_cycle (seed : nat) : M Model unit :=
  fun s =>
    if (List.length (products s) =? 0)%nat
    then alert Model "No products available." s
    else (setRunningModel Model true ;;
          emit Model (fit_effect Model seed (products s))) s.

(** The [catch] block followed by the [finally] block. *)
Definition catch_finally (err : JsError) : M Model unit :=
  console_error Model err ;; alert Model (error_text err) ;;
  setRunningModel Model false.

(** From the settled fit up to [await preds.data()].  A fit that failed
    is caught.  Otherwise the stored model is disposed, the new one stored,
    and [model.predict] called; a failure of the scoring is caught at once
    when [model.predict] throws it, and after the second [await] when
    [preds.data()] rejects ([late]). *)
Definition fit_settled (seed : nat) (items : list Product) (late : bool)
  (s : AppState Model) : list Suspended * AppState Model :=
  match fit_outcome Model tf_fit seed items with
  | Thrown e => ([], snd (catch_finally e s))
  | Returned (m, h) =>
      let s1 :=
        snd ((dispose_stored Model ;;
              setModelStore Model (stored_of Model m items) ;;
              emit Model (ModelPredict m (input_norm items))) s) in
      match tf_predict m (input_norm items) with
      | Returned d => ([AwaitData items h (Returned d)], s1)
      | Thrown e =>
          if late then ([AwaitData items h (Thrown e)], s1)
          else ([], snd (catch_finally e s1))
      end
  end.

(** From the settled [preds.data()] to the end of the handler. *)
Definition data_settled (items : list Product) (h : option (list float))
  (r : Outcome (list float)) (s : AppState Model) : AppState Model :=
  match r with
  | Returned d =>
      let updated := mapi (with_prediction d) items in
      snd ((setProducts Model updated ;;
            setStats Model (fun _ => stats_of toString_other h updated) ;;
            setRunningModel Model false) s)
  | Thrown e => snd (catch_finally e s)
  end.

(** A continuation that runs after the component has unmounted still
    calls the library, the console and [alert] and still writes the ref
    [modelStore]; the state setters it calls do nothing. *)
Definition settle (live : bool) (s s' : AppState Model) : AppState Model :=
  if live then s'
  else mkApp (products s) (runningModel s) (stats s) (modelStore s') (effects s').

(** One event of the page.  The buttons are there while the component is
    mounted; "Train" is enabled when [runningModel] is not set and there
    are records. *)
Inductive page_step : Page -> Page -> Prop :=
| step_regenerate (pg : Page) :
    mounted pg = true ->
    page_step pg (mkPage (snd (regenerate Math_sin Math_cos Model (component pg)))
                         true (suspended pg))
| step_download (pg : Page) :
    mounted pg = true ->
    page_step pg (mkPage (snd (downloadCSV toString_other Model (component pg)))
                         true (suspended pg))
| step_train (seed : nat) (pg : Page) :
    mounted pg = true ->
    runningModel (component pg) = false ->
    products (component pg) <> [] ->
    page_step pg (mkPage (snd (start_cycle seed (component pg))) true
                         (suspended pg ++ [AwaitFit seed (products (component pg))]))
| step_fit (seed : nat) (items : list Product) (late : bool) (pg : Page)
           (before after : list Suspended) :
    suspended pg = before ++ AwaitFit seed items :: after ->
    page_step pg
      (mkPage (settle (mounted pg) (component pg)
                      (snd (fit_settled seed items late (component pg))))
              (mounted pg)
              (before ++ fst (fit_settled seed items late (component pg)) ++ after))
| step_data (items : list Product) (h : option (list float))
            (r : Outcome (list float)) (pg : Page)
            (before after : list Suspended) :
    suspended pg = before ++ AwaitData items h r :: after ->
    page_step pg
      (mkPage (settle (mounted pg) (component pg) (data_settled items h r (component pg)))
              (mounted pg) (before ++ after))
| step_unmount (pg : Page) :
    mounted pg = true ->
    page_step pg (mkPage (snd (unmount Model (component pg))) false (suspended pg)).

(** The pages the events lead to from the first render. *)
Inductive page_reachable : Page -> Prop :=
| page_first : page_reachable (mkPage (initialState Model) true [])
| page_next (pg pg' : Page) :
    page_reachable pg -> page_step pg pg' -> page_reachable pg'.

(** A cycle that no other event interrupts is [trainAndPredict] run in
    one piece. *)
Lemma uninterrupted_cycle (seed : nat) (late : bool) (s : AppState Model) :
  products s <> [] ->
  let s1 := snd (start_cycle seed s) in
  let '(w, s2) := fit_settled seed (products s) late s1 in
  match w with
  | [] => s2 = snd (trainAndPredict toString_other Model tf_fit tf_predict seed s)
  | [AwaitData items h r] =>
      data_settled items h r s2
      = snd (trainAndPredict toString_other Model tf_fit tf_predict seed s)
  | _ => False
  end.
Proof.
  intros Hne. cbv zeta. unfold start_cycle, fit_settled.
  rewrite (length_nonempty _ Hne).
  destruct (fit_outcome Model tf_fit seed (products s)) as [[m h]|e] eqn:Hfit.
  - destruct (tf_predict m (input_norm (products s))) as [d|e] eqn:Hpred.
    + rewrite (trainAndPredict_success toString_other Model tf_fit tf_predict
                 seed s m h d Hne Hfit Hpred).
      unfold data_settled, bind, setProducts, setStats, setRunningModel,
        dispose_stored, setModelStore, emit, dispose_log.
      destruct (modelStore s) as [st|]; cbn; rewrite <- ?app_assoc; reflexivity.
    + rewrite (trainAndPredict_predict_throws toString_other Model tf_fit tf_predict
                 seed s m h e Hne Hfit Hpred).
      destruct late; unfold data_settled, catch_finally, bind, console_error, alert,
        setRunningModel, dispose_stored, setModelStore, emit, dispose_log;
        destruct (modelStore s) as [st|]; cbn -[error_text];
        rewrite <- ?app_assoc; reflexivity.
  - rewrite (trainAndPredict_fit_throws toString_other Model tf_fit tf_predict
               seed s e Hne Hfit).
    unfold catch_finally, bind, console_error, alert, setRunningModel, emit.
    cbn -[error_text]. rewrite <- ?app_assoc. reflexivity.
Qed.


(** So the page reaches what a cycle run in one piece reaches, whenever
    the "Train" button is enabled. *)
Lemma page_cycle (seed : nat) (pg : Page) :
  page_reachable pg ->
  mounted pg = true -> suspended pg = [] ->
  runningModel (component pg) = false -> products (component pg) <> [] ->
  page_reachable
    (mkPage (snd (trainAndPredict toString_other Model tf_fit tf_predict seed (component pg)))
            true []).
Proof.
  intros Hpg Hm Hidle Hrun Hne.
  pose proof (page_next _ _ Hpg (step_train seed pg Hm Hrun Hne)) as H1.
  rewrite Hidle in H1. cbn [List.app] in H1.
  set (s1 := snd (start_cycle seed (component pg))) in *.
  pose proof (page_next _ _ H1
                (step_fit seed (products (component pg)) false
                          (mkPage s1 true [AwaitFit seed (products (component pg))])
                          [] [] eq_refl)) as H2.
  cbn [component mounted settle List.app] in H2. rewrite app_nil_r in H2.
  pose proof (uninterrupted_cycle seed false (component pg) Hne) as Hcyc.
  cbv zeta in Hcyc. fold s1 in Hcyc.
  destruct (fit_settled seed (products (component pg)) false s1) as [w s2].
  cbn [fst snd] in H2.
  destruct w as [|[seed' items'|items h r] [|w' ws]]; try contradiction.
  - now rewrite <- Hcyc.
  - pose proof (page_next _ _ H2
                  (step_data items h r (mkPage s2 true [AwaitData items h r])
                             [] [] eq_refl)) as H3.
    cbn [component mounted settle List.app] in H3. now rewrite <- Hcyc.
Qed.

(** *** The records of the page *)

(** The records the page shows are the 150 generated ones, with or
    without predictions, or there are none yet. *)
Definition own_records (ps : list Product) : Prop :=
  ps = [] \/ Forall2 same_base (generateProducts Math_sin Math_cos 150) ps.

(** The records a suspended cycle works on. *)
Definition items_of (w : Suspended) : list Product :=
  match w with
  | AwaitFit _ items => items
  | AwaitData items _ _ => items
  end.

Lemma same_base_trans (l l' l'' : list Product) :
  Forall2 same_base l l' -> Forall2 same_base l' l'' -> Forall2 same_base l l''.
Proof.
  intros H. revert l''.
  induction H as [|p q l l' Hpq _ IH]; intros l'' H';
    inversion H' as [|? r ? l2 Hqr Hrest]; subst; constructor.
  - destruct Hpq as (? & ? & ? & ? & ? & ?).
    destruct Hqr as (? & ? & ? & ? & ? & ?). repeat split; congruence.
  - now apply IH.
Qed.

Lemma settle_products (live : bool) (s s' : AppState Model) :
  products (settle live s s') = if live then products s' else products s.
Proof. now destruct live. Qed.

Lemma catch_finally_products (e : JsError) (s : AppState Model) :
  products (snd (catch_finally e s)) = products s.
Proof. reflexivity. Qed.

Lemma fit_settled_products (seed : nat) (items : list Product) (late : bool)
  (s : AppState Model) :
  products (snd (fit_settled seed items late s)) = products s.
Proof.
  unfold fit_settled.
  destruct (fit_outcome Model tf_fit seed items) as [[m h]|e]; [|reflexivity].
  assert (H1 : products (snd ((dispose_stored Model ;;
                               setModelStore Model (stored_of Model m items) ;;
                               emit Model (ModelPredict m (input_norm items))) s))
               = products s).
  { unfold bind, dispose_stored. now destruct (modelStore s). }
  destruct (tf_predict m (input_norm items)) as [d|e]; [exact H1|].
  destruct late; [exact H1|]. cbn [snd]. now rewrite catch_finally_products.
Qed.

Lemma fit_settled_items (seed : nat) (items : list Product) (late : bool)
  (s : AppState Model) :
  Forall (fun w => items_of w = items) (fst (fit_settled seed items late s)).
Proof.
  unfold fit_settled.
  destruct (fit_outcome Model tf_fit seed items) as [[m h]|e]; [|constructor].
  destruct (tf_predict m (input_norm items)) as [d|e]; [repeat constructor|].
  destruct late; repeat constructor.
Qed.

Lemma data_settled_products (items : list Product) (h : option (list float))
  (r : Outcome (list float)) (s : AppState Model) :
  products (data_settled items h r s) = products s
  \/ exists d, r = Returned d
               /\ products (data_settled items h r s) = mapi (with_prediction d) items.
Proof.
  destruct r as [d|e]; [right; now exists d | left; reflexivity].
Qed.

(** In every page the events lead to, the records on the page and the
    records every suspended cycle works on are the generated ones. *)
Lemma page_records (pg : Page) :
  page_reachable pg ->
  own_records (products (component pg))
  /\ Forall (fun w => Forall2 same_base (generateProducts Math_sin Math_cos 150)
                              (items_of w)) (suspended pg).
Proof.
  induction 1 as [|pg pg' _ [IHp IHs] Hstep].
  - split; [now left | constructor].
  - destruct Hstep as [pg Hm|pg Hm|seed pg Hm Hrun Hne
                      |seed items late pg before after Hw
                      |items h r pg before after Hw|pg Hm];
      cbn [component suspended].
    + split; [|exact IHs]. right. apply Forall2_refl, same_base_refl.
    + split; [|exact IHs]. now rewrite downloadCSV_products.
    + assert (Hsame : Forall2 same_base (generateProducts Math_sin Math_cos 150)
                              (products (component pg)))
        by (destruct IHp as [Hnil|Hsame]; [contradiction | exact Hsame]).
      split.
      * unfold start_cycle. rewrite (length_nonempty _ Hne). now right.
      * apply Forall_app. split; [exact IHs | now constructor].
    + rewrite Hw in IHs. apply Forall_app in IHs. destruct IHs as [Hb Ha].
      inversion Ha as [|? ? Hitems Ha']; subst. cbn [items_of] in Hitems.
      split.
      * rewrite settle_products, fit_settled_products. now destruct (mounted pg).
      * apply Forall_app. split; [exact Hb|]. apply Forall_app. split; [|exact Ha'].
        pose proof (fit_settled_items seed items late (component pg)) as Hi.
        revert Hi. apply Forall_impl. now intros w ->.
    + rewrite Hw in IHs. apply Forall_app in IHs. destruct IHs as [Hb Ha].
      inversion Ha as [|? ? Hitems Ha']; subst. cbn [items_of] in Hitems.
      split; [|apply Forall_app; now split].
      rewrite settle_products. destruct (mounted pg); [|exact IHp].
      destruct (data_settled_products items h r (component pg)) as [->|(d & _ & ->)];
        [exact IHp|].
      right. apply (same_base_trans _ _ _ Hitems).
      apply mapi_from_Forall2. intros a i. apply with_prediction_base.
    + split; [|exact IHs]. unfold unmount, dispose_stored.
      now destruct (modelStore (component pg)).
Qed.

(** *** The flag and the suspended cycle *)

Lemma catch_finally_flag (e : JsError) (s : AppState Model) :
  runningModel (snd (catch_finally e s)) = false.
Proof. reflexivity. Qed.

Lemma fit_settled_flag (seed : nat) (items : list Product) (late : bool)
  (s : AppState Model) :
  match fst (fit_settled seed items late s) with
  | [] => runningModel (snd (fit_settled seed items late s)) = false
  | [_] => runningModel (snd (fit_settled seed items late s)) = runningModel s
  | _ => False
  end.
Proof.
  unfold fit_settled.
  destruct (fit_outcome Model tf_fit seed items) as [[m h]|e]; [|reflexivity].
  assert (H1 : runningModel (snd ((dispose_stored Model ;;
                               setModelStore Model (stored_of Model m items) ;;
                               emit Model (ModelPredict m (input_norm items))) s))
               = runningModel s).
  { unfold bind, dispose_stored. now destruct (modelStore s). }
  destruct (tf_predict m (input_norm items)) as [d|e]; [exact H1|].
  destruct late; [exact H1 | reflexivity].
Qed.

Lemma data_settled_flag (items : list Product) (h : option (list float))
  (r : Outcome (list float)) (s : AppState Model) :
  runningModel (data_settled items h r s) = false.
Proof. now destruct r. Qed.

Definition idle (ws : list Suspended) : bool :=
  match ws with
  | [] => true
  | _ :: _ => false
  end.

(** The flag follows the suspended cycle. *)
Lemma page_flag (pg : Page) :
  page_reachable pg ->
  (List.length (suspended pg) <= 1)%nat
  /\ (mounted pg = true -> runningModel (component pg) = negb (idle (suspended pg))).
Proof.
  induction 1 as [|pg pg' _ [IHn IHf] Hstep].
  - split; [cbn; lia | reflexivity].
  - destruct Hstep as [pg Hm|pg Hm|seed pg Hm Hrun Hne
                      |seed items late pg before after Hw
                      |items h r pg before after Hw|pg Hm];
      cbn [component suspended mounted].
    + split; [exact IHn|]. intros _. exact (IHf Hm).
    + split; [exact IHn|]. intros _. rewrite <- (IHf Hm).
      unfold downloadCSV. now destruct (_ =? _)%nat.
    + specialize (IHf Hm). rewrite Hrun in IHf.
      destruct (suspended pg) as [|w ws]; [|discriminate IHf].
      split; [cbn; lia|]. intros _. unfold start_cycle.
      now rewrite (length_nonempty _ Hne).
    + assert (Hba : before = [] /\ after = []).
      { rewrite Hw, length_app in IHn. cbn [List.length] in IHn.
        destruct before, after; cbn in IHn; try lia. now split. }
      destruct Hba as [-> ->]. rewrite Hw in IHf. cbn [component idle negb] in *.
      rewrite app_nil_r.
      pose proof (fit_settled_flag seed items late (component pg)) as Hflag.
      destruct (fst (fit_settled seed items late (component pg))) as [|w [|w' ws]];
        try contradiction.
      * split; [cbn; lia|]. intros Hm. rewrite Hm. exact Hflag.
      * split; [cbn; lia|]. intros Hm. rewrite Hm. cbn [settle idle negb].
        rewrite Hflag. exact (IHf Hm).
    + assert (Hba : before = [] /\ after = []).
      { rewrite Hw, length_app in IHn. cbn [List.length] in IHn.
        destruct before, after; cbn in IHn; try lia. now split. }
      destruct Hba as [-> ->]. cbn [component idle negb].
      split; [cbn; lia|]. intros Hm. rewrite Hm. apply data_settled_flag.
    + split; [exact IHn|]. discriminate.
Qed.

(** At most one cycle is suspended at any time, and while the component
    is mounted [runningModel] is set exactly when one is: the flag disables
    the "Train" button from the click to the end of the cycle, whatever the
    other buttons do in between. *)
Theorem one_cycle_at_a_time (pg : Page) :
  page_reachable pg ->
  (List.length (suspended pg) <= 1)%nat
  /\ (mounted pg = true -> runningModel (component pg) = negb (idle (suspended pg))).
Proof. exact (page_flag pg). Qed.

End Waiting.

Arguments mkPage {Model} _ _ _.
Arguments component {Model} _.
Arguments mounted {Model} _.
Arguments suspended {Model} _.


(** ** The export *)

(** A text with no comma, line feed or double quote: what a field that is
    not quoted must be. *)
Definition plain_char (c : ascii) : bool :=
  negb (Ascii.eqb c comma) && negb (Ascii.eqb c newline)
  && negb (Ascii.eqb c dquote).

Fixpoint plain (s : string) : bool :=
  match s with
  | EmptyString => true
  | String c t => plain_char c && plain t
  end.

Lemma plain_app (a b : string) : plain (a ++ b) = plain a && plain b.
Proof.
  induction a as [|c a IH]; simpl; [reflexivity|].
  now rewrite IH, andb_assoc.
Qed.

Lemma plain_substring (s : string) :
  plain s = true -> forall n m, plain (substring n m s) = true.
Proof.
  induction s as [|c s IH]; intros Hs n m.
  - destruct n, m; reflexivity.
  - simpl in Hs. apply andb_prop in Hs. destruct Hs as [Hc Hs].
    destruct n as [|n]; destruct m as [|m]; simpl; auto.
    rewrite Hc. simpl. auto.
Qed.

Lemma plain_zeros (n : nat) : plain (zeros n) = true.
Proof. induction n; simpl; auto. Qed.

Lemma plain_uint (d : Decimal.uint) : plain (NilEmpty.string_of_uint d) = true.
Proof. induction d; simpl; auto. Qed.

Lemma plain_Z_toString (z : Z) : plain (Z_toString z) = true.
Proof.
  unfold Z_toString, NilZero.string_of_int, NilZero.string_of_uint.
  destruct (Z.to_int z) as [d|d]; destruct d; simpl; auto using plain_uint;
    apply plain_uint.
Qed.

Lemma plain_fixed_digits (f : nat) (n : Z) : plain (fixed_digits f n) = true.
Proof.
  unfold fixed_digits. destruct f as [|f]; [apply plain_Z_toString|].
  set (m := if (_ <=? _)%nat then _ else _).
  assert (Hm : plain m = true).
  { subst m. destruct (_ <=? _)%nat; [|apply plain_Z_toString].
    now rewrite plain_app, plain_zeros, plain_Z_toString. }
  rewrite !plain_app. rewrite !plain_substring by assumption. reflexivity.
Qed.

Section PlainNumbers.

Variable toString_other : float -> string.
Hypothesis toString_other_plain : forall x, plain (toString_other x) = true.

Lemma plain_Number_toString (x : float) :
  plain (Number_toString toString_other x) = true.
Proof.
  unfold Number_toString.
  destruct (is_nan x); [reflexivity|].
  destruct (to_integer x) as [z|].
  - destruct (Z.abs z <=? 2 ^ 53 - 1); auto using plain_Z_toString.
  - destruct (x =? infinity)%float; [reflexivity|].
    destruct (x =? neg_infinity)%float; [reflexivity | auto].
Qed.

Lemma plain_toFixed (f : nat) (x : float) :
  plain (toFixed toString_other f x) = true.
Proof.
  unfold toFixed.
  destruct (negb (is_finite x)); [apply plain_Number_toString|].
  destruct (x <? 0)%float;
    match goal with |- context [if ?b then _ else _] => destruct b end;
    rewrite plain_app; simpl;
    auto using plain_Number_toString, plain_fixed_digits.
Qed.

End PlainNumbers.

(** *** The reader on exported text *)

Import CsvReader.

Lemma run_app (a b : string) : forall st, run st (a ++ b) = run (run st a) b.
Proof. induction a as [|c a IH]; intros st; simpl; [reflexivity | apply IH]. Qed.

Lemma string_app_assoc (a b c : string) : ((a ++ b) ++ c = a ++ (b ++ c))%string.
Proof. induction a as [|x a IH]; simpl; [reflexivity | now rewrite IH]. Qed.

Lemma string_app_nil_r (a : string) : (a ++ "" = a)%string.
Proof. induction a as [|x a IH]; simpl; [reflexivity | now rewrite IH]. Qed.

(** A plain text is appended to the field being read. *)
Lemma run_plain (s : string) :
  plain s = true ->
  forall cur fs rs,
    run (mkSt Plain cur fs rs) s = mkSt Plain (cur ++ s) fs rs.
Proof.
  induction s as [|c s IH]; intros Hs cur fs rs; simpl.
  - now rewrite string_app_nil_r.
  - simpl in Hs. apply andb_prop in Hs. destruct Hs as [Hc Hs].
    unfold plain_char in Hc.
    apply andb_prop in Hc. destruct Hc as [Hc Hq].
    apply andb_prop in Hc. destruct Hc as [Hc Hn].
    apply negb_true_iff in Hc, Hn, Hq.
    unfold step. cbn [mode]. rewrite Hc, Hn, Hq. cbn [andb].
    unfold push. cbn [CsvReader.cur fields rows]. rewrite IH by assumption.
    now rewrite string_app_assoc.
Qed.

(** Inside quotes, the escaped name is read back as the name. *)
Lemma run_escaped (n : string) :
  forall cur fs rs,
    run (mkSt Quoted cur fs rs) (escape_quotes n) = mkSt Quoted (cur ++ n) fs rs.
Proof.
  induction n as [|c n IH]; intros cur fs rs; simpl.
  - now rewrite string_app_nil_r.
  - destruct (Ascii.eqb c dquote) eqn:Hc.
    + apply Ascii.eqb_eq in Hc. subst c. simpl.
      unfold step at 2. cbn [mode]. rewrite Ascii.eqb_refl.
      unfold step. cbn [mode]. rewrite Ascii.eqb_refl.
      unfold push. cbn [CsvReader.cur fields rows]. rewrite IH.
      now rewrite string_app_assoc.
    + simpl. unfold step. cbn [mode]. rewrite Hc.
      unfold push. cbn [CsvReader.cur fields rows]. rewrite IH.
      now rewrite string_app_assoc.
Qed.

Lemma run_quoted (n : string) (fs : list string) (rs : list (list string)) :
  run (mkSt Plain "" fs rs) (quoted n) = mkSt QuoteSeen n fs rs.
Proof.
  unfold quoted. simpl. unfold step at 1. cbn [mode CsvReader.cur].
  change (Ascii.eqb dquote comma) with false.
  change (Ascii.eqb dquote newline) with false.
  rewrite Ascii.eqb_refl. cbn [andb String.eqb]. cbn [fields rows].
  rewrite run_app, run_escaped. simpl.
  unfold step. cbn [mode]. now rewrite Ascii.eqb_refl.
Qed.

(** The text of a field and the value it stands for. *)
Definition encodes (txt val : string) : Prop :=
  (plain txt = true /\ val = txt) \/ txt = quoted val.

Lemma run_field (txt val : string) (fs : list string) (rs : list (list string)) :
  encodes txt val ->
  exists m, m <> Quoted /\ run (mkSt Plain "" fs rs) txt = mkSt m val fs rs.
Proof.
  intros [[Hp ->]| ->].
  - exists Plain. split; [discriminate|]. now rewrite run_plain.
  - exists QuoteSeen. split; [discriminate|]. apply run_quoted.
Qed.

Lemma step_comma (m : Mode) (cur : string) (fs : list string)
  (rs : list (list string)) :
  m <> Quoted ->
  step (mkSt m cur fs rs) comma = mkSt Plain "" (fs ++ [cur]) rs.
Proof. destruct m; [reflexivity | contradiction | reflexivity]. Qed.

Lemma step_newline (m : Mode) (cur : string) (fs : list string)
  (rs : list (list string)) :
  m <> Quoted ->
  step (mkSt m cur fs rs) newline = mkSt Plain "" [] (rs ++ [fs ++ [cur]]).
Proof. destruct m; [reflexivity | contradiction | reflexivity]. Qed.

Lemma join_cons2 (sep a b : string) (l : list string) :
  join sep (a :: b :: l) = (a ++ sep ++ join sep (b :: l))%string.
Proof. reflexivity. Qed.

(** A row of fields, up to its last field. *)
Lemma run_row (txts vals : list string) :
  Forall2 encodes txts vals ->
  txts <> [] ->
  forall fs rs,
  exists m,
    m <> Quoted
    /\ run (mkSt Plain "" fs rs) (join (String comma "") txts)
       = mkSt m (last vals ""%string) (fs ++ removelast vals) rs.
Proof.
  induction 1 as [|txt val txts vals Henc Hrest IH]; intros Hne fs rs;
    [contradiction|].
  destruct Hrest as [|txt' val' txts vals Henc' Hrest].
  - destruct (run_field txt val fs rs Henc) as (m & Hm & Hrun).
    exists m. split; [exact Hm|]. simpl. rewrite Hrun, app_nil_r. reflexivity.
  - destruct (run_field txt val fs rs Henc) as (m & Hm & Hrun).
    destruct (IH ltac:(discriminate) (fs ++ [val]) rs) as (m' & Hm' & Hrun').
    exists m'. split; [exact Hm'|].
    change (join (String comma "") (txt :: txt' :: txts))
      with (txt ++ String comma "" ++ join (String comma "") (txt' :: txts))%string.
    rewrite run_app, Hrun. cbn [String.append run].
    rewrite (step_comma m val fs rs Hm), Hrun'.
    rewrite <- app_assoc. reflexivity.
Qed.

Lemma removelast_last {A : Type} (l : list A) (d : A) :
  l <> [] -> removelast l ++ [last l d] = l.
Proof. intros H. symmetry. now apply app_removelast_last. Qed.

(** The rows of a text of several lines. *)
Lemma run_lines (txtss valss : list (list string)) :
  Forall2 (fun txts vals => txts <> [] /\ Forall2 encodes txts vals) txtss valss ->
  txtss <> [] ->
  forall rs,
    rows (end_row (run (mkSt Plain "" [] rs)
                       (join (String newline "")
                             (map (join (String comma "")) txtss))))
    = rs ++ valss.
Proof.
  induction 1 as [|txts vals txtss valss [Hne Henc] Hrest IH]; intros Hne0 rs;
    [contradiction|].
  assert (Hvals : vals <> []).
  { destruct Henc; [contradiction | discriminate]. }
  destruct (run_row txts vals Henc Hne [] rs) as (m & Hm & Hrun).
  destruct Hrest as [|txts' vals' txtss valss Hhead Hrest].
  - simpl. rewrite Hrun. unfold end_row. cbn [rows fields CsvReader.cur].
    cbn [app]. now rewrite removelast_last.
  - pose proof (IH ltac:(discriminate) (rs ++ [vals])) as IH'.
    cbn [map] in IH' |- *. rewrite join_cons2.
    rewrite run_app, Hrun. cbn [String.append run].
    rewrite (step_newline m _ _ rs Hm). cbn [app].
    rewrite removelast_last by assumption.
    rewrite IH'. now rewrite <- app_assoc.
Qed.

(** *** Numbers read back *)

Lemma parse_int_Z_toString (z : Z) : parse_int (Z_toString z) = Some z.
Proof.
  unfold parse_int, Z_toString.
  rewrite NilZero.isi.
  - cbn [option_map]. now rewrite DecimalZ.of_to.
  - destruct z; simpl; try discriminate.
    intros H. injection H as H. now apply DecimalPos.Unsigned.to_uint_nonnil in H.
  - destruct z; simpl; try discriminate.
    intros H. injection H as H. now apply DecimalPos.Unsigned.to_uint_nonnil in H.
Qed.

(** The columns of a record that the round trip is about hold safe
    integers. *)
Definition integer_fields (p : Product) : bool :=
  isSafeInteger (id p) && isSafeInteger (currentInventory p)
  && isSafeInteger (avgSalesPerWeek p) && isSafeInteger (daysToReplenish p)
  && isSafeInteger (reorder p).

(** A row read back holds the integers of a record, and its name. *)
Definition recovers (p : Product) (r : Row) : Prop :=
  to_integer (id p) = Some (r_id r)
  /\ r_name r = name p
  /\ to_integer (currentInventory p) = Some (r_currentInventory r)
  /\ to_integer (avgSalesPerWeek p) = Some (r_avgSalesPerWeek r)
  /\ to_integer (daysToReplenish p) = Some (r_daysToReplenish r)
  /\ to_integer (reorder p) = Some (r_serverReorder r).

Section RoundTrip.

Variable toString_other : float -> string.
Hypothesis toString_other_plain : forall x, plain (toString_other x) = true.

Lemma Number_toString_safe (x : float) :
  isSafeInteger x = true ->
  exists z, to_integer x = Some z
            /\ Number_toString toString_other x = Z_toString z.
Proof.
  unfold isSafeInteger, Number_toString.
  destruct (to_integer x) as [z|] eqn:Hz; [|discriminate].
  intros Hsafe. exists z. split; [reflexivity|].
  now rewrite (to_integer_not_nan x z Hz), Hsafe.
Qed.

(** The values the fields of a row stand for: the row with the name as it
    is. *)
Definition field_values (p : Product) : list string :=
  match csv_fields toString_other p with
  | a :: _ :: rest => a :: name p :: rest
  | l => l
  end.

Lemma csv_fields_encode (p : Product) :
  Forall2 encodes (csv_fields toString_other p) (field_values p).
Proof.
  assert (Hnum : forall x, encodes (Number_toString toString_other x)
                                   (Number_toString toString_other x)).
  { intros x. left. split; [now apply plain_Number_toString | reflexivity]. }
  unfold field_values, csv_fields.
  repeat (apply Forall2_cons; [try apply Hnum|]); try apply Forall2_nil.
  - now right.
  - left. split; [|reflexivity].
    destruct (prediction p); [now apply plain_Number_toString | reflexivity].
  - left. split; [|reflexivity].
    destruct (predictionScore p) as [v|]; [|reflexivity].
    destruct (truthy v); [now apply plain_toFixed | reflexivity].
Qed.

Lemma header_encode : Forall2 encodes header header.
Proof.
  unfold header.
  repeat (apply Forall2_cons; [left; split; reflexivity|]). apply Forall2_nil.
Qed.

Lemma read_csv_of (products : list Product) :
  read (csv_of toString_other products) = header :: map field_values products.
Proof.
  unfold read, csv_of, start.
  replace (join (String comma "") header :: map (csv_row toString_other) products)
    with (map (join (String comma ""))
              (header :: map (csv_fields toString_other) products)).
  - rewrite (run_lines (header :: map (csv_fields toString_other) products)
                       (header :: map field_values products)).
    + reflexivity.
    + constructor.
      * split; [discriminate | apply header_encode].
      * induction products as [|p ps IH]; simpl; constructor; [|exact IH].
        split; [discriminate | apply csv_fields_encode].
    + discriminate.
  - simpl. f_equal. now rewrite map_map.
Qed.

Lemma row_of_field_values (p : Product) :
  integer_fields p = true ->
  exists r, row_of_fields (field_values p) = Some r /\ recovers p r.
Proof.
  unfold integer_fields. intros H.
  repeat (apply andb_prop in H; destruct H as [H ?]).
  destruct (Number_toString_safe (id p)) as (zi & Hzi & Hsi); [assumption|].
  destruct (Number_toString_safe (currentInventory p)) as (zc & Hzc & Hsc);
    [assumption|].
  destruct (Number_toString_safe (avgSalesPerWeek p)) as (za & Hza & Hsa);
    [assumption|].
  destruct (Number_toString_safe (daysToReplenish p)) as (zd & Hzd & Hsd);
    [assumption|].
  destruct (Number_toString_safe (reorder p)) as (zr & Hzr & Hsr); [assumption|].
  exists (mkRow zi (name p) zc za zd zr). split.
  - unfold field_values, csv_fields, row_of_fields.
    rewrite Hsi, Hsc, Hsa, Hsd, Hsr. now rewrite !parse_int_Z_toString.
  - repeat split; assumption.
Qed.

Lemma all_rows_field_values (products : list Product) :
  forallb integer_fields products = true ->
  exists rows,
    all_rows (map field_values products) = Some rows
    /\ Forall2 recovers products rows.
Proof.
  induction products as [|p ps IH]; intros H.
  - exists []. split; [reflexivity | constructor].
  - simpl in H. apply andb_prop in H. destruct H as [Hp Hps].
    destruct (row_of_field_values p Hp) as (r & Hr & Hrec).
    destruct (IH Hps) as (rows & Hrows & Hall).
    exists (r :: rows). split; [|now constructor].
    cbn [map all_rows]. now rewrite Hr, Hrows.
Qed.

(** The exported text of records with integer fields reads back as the
    records. *)
Lemma csv_of_parse (products : list Product) :
  forallb integer_fields products = true ->
  exists rows,
    CsvReader.parse (csv_of toString_other products) = Some rows
    /\ Forall2 recovers products rows.
Proof.
  intros Hint.
  destruct (all_rows_field_values products Hint) as (rows & Hrows & Hrec).
  exists rows. split; [|exact Hrec].
  unfold parse. rewrite read_csv_of.
  destruct (list_eq_dec string_dec header header) as [_|Hh];
    [exact Hrows | now destruct Hh].
Qed.

(** C9.  The export round trip.  Reading the text that [downloadCSV]
    hands to the browser (rows split at line feeds, fields at commas, the
    quoted name unquoted) yields, after the header, one row per record in
    order, and the row of a record holds the record's [id],
    [currentInventory], [avgSalesPerWeek], [daysToReplenish] and [reorder]
    (and its name), these fields being the safe integers the generator
    makes them. *)
Theorem csv_round_trip (Model : Type) (s : AppState Model) :
  products s <> [] ->
  forallb integer_fields (products s) = true ->
  exists text rows,
    downloadCSV toString_other Model s
    = (Returned tt,
       mkApp (products s) (runningModel s) (stats s) (modelStore s)
             (effects s ++ [Download "products_with_predictions.csv" text]))
    /\ text = csv_of toString_other (products s)
    /\ CsvReader.parse text = Some rows
    /\ Forall2 recovers (products s) rows.
Proof.
  intros Hne Hint.
  destruct (csv_of_parse (products s) Hint) as (rows & Hparse & Hrec).
  exists (csv_of toString_other (products s)), rows.
  split; [|split; [reflexivity|split; assumption]].
  unfold downloadCSV. now rewrite (length_nonempty _ Hne).
Qed.

End RoundTrip.

Lemma csv_round_trip_witness :
  exists text rows,
    downloadCSV (fun _ => "?"%string) unit sample_state
    = (Returned tt,
       mkApp (products sample_state) (runningModel sample_state)
             (stats sample_state) (modelStore sample_state)
             (effects sample_state
                ++ [Download "products_with_predictions.csv" text]))
    /\ text = csv_of (fun _ => "?"%string) (products sample_state)
    /\ CsvReader.parse text = Some rows
    /\ Forall2 recovers (products sample_state) rows.
Proof.
  apply (csv_round_trip (fun _ => "?"%string) (fun _ => eq_refl) unit sample_state).
  - discriminate.
  - vm_compute. reflexivity.
Defined.

(** *** The export of the page's own records *)

Section OwnRecords.

Variable Math_sin Math_cos : float -> float.
Variable toString_other : float -> string.
Variable Model : Type.
Variable tf_fit :
  nat -> Tf.Tensor -> Tf.Tensor -> Tf.Tensor -> Tf.Tensor ->
  Outcome (Model * option (list float)).
Variable tf_predict : Model -> Tf.Tensor -> Outcome (list float).

(** What is assumed of the host: the sine and the cosine of a finite
    number are at most [1] in magnitude (of an infinity or of [NaN] they are
    [NaN]), and a number is printed without comma, quote or line feed. *)
Hypothesis sin_bounded :
  forall x, is_finite x = true -> (abs (Math_sin x) <=? 1)%float = true.
Hypothesis cos_bounded :
  forall x, is_finite x = true -> (abs (Math_cos x) <=? 1)%float = true.
Hypothesis toString_other_plain : forall x, plain (toString_other x) = true.

(** The five numeric fields of a generated record are safe integers. *)
Lemma product_at_integer_fields (i : Z) :
  0 <= i < 2 ^ 53 -> integer_fields (product_at Math_sin Math_cos i) = true.
Proof.
  intros Hi. unfold integer_fields, product_at.
  cbn [id currentInventory avgSalesPerWeek daysToReplenish reorder].
  repeat (apply andb_true_intro; split).
  - apply (isSafeInteger_intro _ i); [now apply to_integer_of_Z | lia].
  - apply (rounded_magnitude_safe 0 _ 400 _ _ eq_refl Prim2SF_400); try lia.
    apply cos_bounded, cos_argument_finite, Hi.
  - apply (rounded_magnitude_safe 1 _ 120 _ _ eq_refl Prim2SF_120); try lia.
    apply sin_bounded, sin_argument_finite, Hi.
  - apply days_safe.
    pose proof (Z.rem_bound_pos i 21 ltac:(lia) ltac:(lia)). lia.
  - match goal with |- context [if ?b then _ else _] => destruct b end; reflexivity.
Qed.

Lemma same_base_integer_fields (l l' : list Product) :
  Forall2 same_base l l' ->
  forallb integer_fields l = true -> forallb integer_fields l' = true.
Proof.
  induction 1 as [|p q l l' Hpq _ IH]; intros Hint; [reflexivity|].
  cbn [forallb] in *. apply andb_prop in Hint. destruct Hint as [Hp Hl].
  rewrite IH by assumption. rewrite andb_true_r.
  destruct Hpq as (Hi & _ & Hc & Ha & Hd & Hr).
  unfold integer_fields in *. now rewrite <- Hi, <- Hc, <- Ha, <- Hd, <- Hr.
Qed.

Lemma own_integer_fields (ps : list Product) :
  own_records Math_sin Math_cos ps -> forallb integer_fields ps = true.
Proof.
  intros [->|Hbase]; [reflexivity|].
  apply (same_base_integer_fields _ _ Hbase).
  rewrite generateProducts_map. apply forallb_forall. intros p Hp.
  apply in_map_iff in Hp. destruct Hp as (i & <- & Hi). apply Zseq_In in Hi.
  apply product_at_integer_fields. lia.
Qed.

(** On every page the events lead to, with a cycle suspended or not, with
    records to export, "Download CSV" writes a text that reads back as the
    records on the page. *)
Theorem export_reachable (pg : Page Model) :
  page_reachable Math_sin Math_cos toString_other Model tf_fit tf_predict pg ->
  products (component pg) <> [] ->
  exists rows,
    downloadCSV toString_other Model (component pg)
    = (Returned tt,
       mkApp (products (component pg)) (runningModel (component pg)) (stats (component pg))
             (modelStore (component pg))
             (effects (component pg)
                ++ [Download "products_with_predictions.csv"
                             (csv_of toString_other (products (component pg)))]))
    /\ CsvReader.parse (csv_of toString_other (products (component pg))) = Some rows
    /\ Forall2 recovers (products (component pg)) rows.
Proof.
  intros Hpg Hne.
  destruct (page_records _ _ _ _ _ _ pg Hpg) as [Hown _].
  destruct (csv_of_parse toString_other toString_other_plain (products (component pg))
              (own_integer_fields _ Hown)) as (rows & Hparse & Hrec).
  exists rows. split; [|split; assumption].
  unfold downloadCSV. now rewrite (length_nonempty _ Hne).
Qed.

End OwnRecords.

(** The lead time of the record of counter [i] is the integer
    [1 + i mod 21], between 1 and 21. *)
Lemma product_at_days (Math_sin Math_cos : float -> float) (i : Z) :
  0 <= i < 2 ^ 53 ->
  to_integer (daysToReplenish (product_at Math_sin Math_cos i)) = Some (1 + i mod 21)
  /\ 1 <= 1 + i mod 21 <= 21.
Proof.
  intros Hi. pose proof (Z.mod_pos_bound i 21 ltac:(lia)) as Hm.
  split; [|lia]. cbn [daysToReplenish product_at].
  rewrite Z.rem_mod_nonneg by lia.
  change 1%float with (of_Z 1). rewrite of_Z_add by lia.
  apply to_integer_of_Z. lia.
Qed.

(** *** A run of the page on a flat host *)

(** A host whose sine and cosine are constant: every record then has the
    same sales and the same inventory, so two of the three feature columns
    are constant. *)
Definition flat_sin (x : float) : float := 0.5%float.
Definition flat_cos (x : float) : float := 0.25%float.

Lemma flat_sin_bounded (x : float) :
  is_finite x = true -> (abs (flat_sin x) <=? 1)%float = true.
Proof. reflexivity. Qed.

Lemma flat_cos_bounded (x : float) :
  is_finite x = true -> (abs (flat_cos x) <=? 1)%float = true.
Proof. reflexivity. Qed.

(** The state after the effect run on load, and after one cycle from it,
    and the page that shows the first. *)
Definition loaded_state : AppState unit :=
  snd (regenerate flat_sin flat_cos unit (initialState unit)).

Definition trained_state : AppState unit :=
  snd (trainAndPredict (fun _ => "?"%string) unit sample_fit sample_predict 0
                       loaded_state).

Definition loaded_page : Page unit := mkPage loaded_state true [].

Lemma loaded_reachable :
  reachable flat_sin flat_cos (fun _ => "?"%string) unit sample_fit sample_predict
            loaded_state.
Proof. apply reach_regenerate, reach_init. Qed.

Lemma trained_reachable :
  reachable flat_sin flat_cos (fun _ => "?"%string) unit sample_fit sample_predict
            trained_state.
Proof. apply reach_train, loaded_reachable. Qed.

Lemma loaded_page_reachable :
  page_reachable flat_sin flat_cos (fun _ => "?"%string) unit sample_fit
                 sample_predict loaded_page.
Proof.
  exact (page_next _ _ _ _ _ _ _ _ (page_first _ _ _ _ _ _)
           (step_regenerate _ _ _ _ _ _ (mkPage (initialState unit) true []) eq_refl)).
Qed.

Lemma product_at_days_witness :
  to_integer (daysToReplenish (product_at flat_sin flat_cos 41)) = Some (1 + 41 mod 21)
  /\ 1 <= 1 + 41 mod 21 <= 21.
Proof. apply (product_at_days flat_sin flat_cos 41). lia. Defined.

Example loaded_state_stats :
  stats loaded_state = mkStats 150 84 0 "N/A"
  /\ List.length (products loaded_state) = 150%nat
  /\ map avgSalesPerWeek (firstn 3 (products loaded_state)) = [60; 60; 60]%float
  /\ map currentInventory (firstn 3 (products loaded_state)) = [100; 100; 100]%float.
Proof. vm_compute. repeat split; reflexivity. Qed.

Section BlankScore.

Variable toString_other : float -> string.

(** C10.  In the export the score field of a record is blank whenever the
    record's [predictionScore] is falsy (absent, [0], [-0] or [NaN]).  In
    particular a record that a training cycle gave the score [0] exports a
    blank score, while its prediction field, tested with [??], exports
    [0]. *)
Theorem csv_falsy_score_blank (p : Product) :
  match predictionScore p with Some v => truthy v | None => false end = false ->
  nth_error (csv_fields toString_other p) 7 = Some ""%string
  /\ (forall d i,
        nth_error d i = Some 0%float ->
        predictionScore (with_prediction d p i) = Some 0%float
        /\ nth_error (csv_fields toString_other (with_prediction d p i)) 6
           = Some "0"%string
        /\ nth_error (csv_fields toString_other (with_prediction d p i)) 7
           = Some ""%string).
Proof.
  intros Hfalsy. split.
  - unfold csv_fields. cbn [nth_error].
    destruct (predictionScore p) as [v|]; [|reflexivity]. now rewrite Hfalsy.
  - intros d i Hd. unfold with_prediction, csv_fields.
    cbn [nth_error predictionScore prediction]. rewrite Hd.
    repeat split; reflexivity.
Qed.

End BlankScore.

Lemma csv_falsy_score_blank_witness :
  nth_error (csv_fields (fun _ => "?"%string)
               (mkProduct 5 "Shampoo 5" 10 119 6 1 (Some 0%float) (Some 0%float)
                          (Some "No Reorder"%string))) 7
  = Some ""%string
  /\ (forall d i,
        nth_error d i = Some 0%float ->
        predictionScore
          (with_prediction d
             (mkProduct 5 "Shampoo 5" 10 119 6 1 (Some 0%float) (Some 0%float)
                        (Some "No Reorder"%string)) i)
        = Some 0%float
        /\ nth_error
             (csv_fields (fun _ => "?"%string)
                (with_prediction d
                   (mkProduct 5 "Shampoo 5" 10 119 6 1 (Some 0%float)
                              (Some 0%float) (Some "No Reorder"%string)) i)) 6
           = Some "0"%string
        /\ nth_error
             (csv_fields (fun _ => "?"%string)
                (with_prediction d
                   (mkProduct 5 "Shampoo 5" 10 119 6 1 (Some 0%float)
                              (Some 0%float) (Some "No Reorder"%string)) i)) 7
           = Some ""%string).
Proof.
  apply (csv_falsy_score_blank (fun _ => "?"%string)
           (mkProduct 5 "Shampoo 5" 10 119 6 1 (Some 0%float) (Some 0%float)
                      (Some "No Reorder"%string))).
  reflexivity.
Defined.

(** The record of the sample run whose score is exactly [0], as exported
    after the cycle. *)
Example csv_zero_score_row :
  let s' := snd (trainAndPredict (fun _ => "?"%string) unit sample_fit
                                 sample_predict 0 sample_state) in
  option_map (csv_row (fun _ => "?"%string)) (nth_error (products s') 4)
  = Some ("5," ++ quoted "Shampoo 5" ++ ",10,119,6,1,0,")%string
  /\ option_map (csv_row (fun _ => "?"%string)) (nth_error (products s') 2)
  = Some ("3," ++ quoted "Coffee Beans 3" ++ ",219,120,4,0,1,0.7182")%string.
Proof. vm_compute. split; reflexivity. Qed.


(** * The page between its handlers *)

(** ** Counting *)

(** [reduce] with a counter is the length of a filter. *)
Lemma count_where_filter (test : Product -> bool) (data : list Product) :
  count_where test data = Z.of_nat (List.length (filter test data)).
Proof.
  unfold count_where.
  assert (H : forall acc,
             fold_left (fun acc p => acc + (if test p then 1 else 0)) data acc
             = acc + Z.of_nat (List.length (filter test data))).
  { induction data as [|p data IH]; intros acc; cbn [fold_left filter].
    - cbn. lia.
    - rewrite IH. destruct (test p); cbn [List.length]; lia. }
  now rewrite H.
Qed.

(** The label of a record is [1] where the business rule holds on its
    fields and [0] elsewhere. *)
Definition labelled_by_rule (p : Product) : Prop :=
  reorder p = (if rule_holds p then 1 else 0)%float.

Lemma product_at_labelled (Math_sin Math_cos : float -> float) (i : Z) :
  labelled_by_rule (product_at Math_sin Math_cos i).
Proof. reflexivity. Qed.

Lemma same_base_labelled (l l' : list Product) :
  Forall2 same_base l l' -> Forall labelled_by_rule l -> Forall labelled_by_rule l'.
Proof.
  induction 1 as [|p q l l' Hpq _ IH]; intros Hl; [constructor|].
  inversion Hl as [|? ? Hp Hl']; subst. constructor; [|now apply IH].
  destruct Hpq as (_ & _ & Hi & Ha & Hd & Hr).
  unfold labelled_by_rule, rule_holds in *. now rewrite <- Hi, <- Ha, <- Hd, <- Hr.
Qed.

Lemma labelled_filter (l : list Product) :
  Forall labelled_by_rule l -> filter reorder_truthy l = filter rule_holds l.
Proof.
  intros Hl. apply filter_ext_in. intros p Hp.
  rewrite Forall_forall in Hl. specialize (Hl p Hp).
  unfold reorder_truthy, labelled_by_rule in *. rewrite Hl.
  now destruct (rule_holds p).
Qed.

Section Page.

Variable Math_sin Math_cos : float -> float.
Variable toString_other : float -> string.
Variable Model : Type.
Variable tf_fit :
  nat -> Tf.Tensor -> Tf.Tensor -> Tf.Tensor -> Tf.Tensor ->
  Outcome (Model * option (list float)).
Variable tf_predict : Model -> Tf.Tensor -> Outcome (list float).


Lemma reachable_labelled (s : AppState Model) :
  reachable Math_sin Math_cos toString_other Model tf_fit tf_predict s ->
  Forall labelled_by_rule (products s).
Proof.
  intros Hs.
  destruct (reachable_products Math_sin Math_cos toString_other Model tf_fit
              tf_predict s Hs) as [->|Hbase]; [constructor|].
  apply (same_base_labelled _ _ Hbase).
  rewrite generateProducts_map. apply Forall_forall. intros p Hp.
  apply in_map_iff in Hp. destruct Hp as (i & <- & _). apply product_at_labelled.
Qed.

Lemma reachable_counts (s : AppState Model) :
  reachable Math_sin Math_cos toString_other Model tf_fit tf_predict s ->
  total (stats s) = Z.of_nat (List.length (products s))
  /\ serverReorders (stats s) = count_where reorder_truthy (products s).
Proof.
  induction 1 as [|s _ _|seed s _ IH|s _ IH].
  - split; reflexivity.
  - split; reflexivity.
  - destruct (products s) as [|p ps] eqn:Hps.
    + rewrite (trainAndPredict_empty toString_other Model tf_fit tf_predict seed s
                 Hps).
      cbn [snd stats products].
      rewrite Hps. exact IH.
    + assert (Hne : products s <> []) by (rewrite Hps; discriminate).
      rewrite <- Hps in IH.
      destruct (trainAndPredict_cases toString_other Model tf_fit tf_predict seed s Hne)
        as [(e & log & _ & Hr)|(m & h & d & _ & Hr)]; rewrite Hr.
      * exact IH.
      * split; reflexivity.
  - unfold downloadCSV. destruct (_ =? _)%nat; exact IH.
Qed.

(** The dashboard's first two cards are right in every state the page
    reaches: [stats.total] is the number of records, and
    [stats.serverReorders] is the number of records on which the business
    rule holds. *)
Theorem dashboard_counts (s : AppState Model) :
  reachable Math_sin Math_cos toString_other Model tf_fit tf_predict s ->
  total (stats s) = Z.of_nat (List.length (products s))
  /\ serverReorders (stats s)
     = Z.of_nat (List.length (filter rule_holds (products s))).
Proof.
  intros Hs. destruct (reachable_counts s Hs) as [Ht Hr]. split; [exact Ht|].
  rewrite Hr, count_where_filter.
  now rewrite (labelled_filter _ (reachable_labelled s Hs)).
Qed.


(** ** A successful cycle *)

Lemma truthy_predicted_of (score : option float) :
  truthy (predicted_of score)
  = match score with Some v => (0.5 <? v)%float | None => false end.
Proof.
  destruct score as [v|]; [|reflexivity]. cbn [predicted_of].
  now destruct (0.5 <? v)%float.
Qed.

Lemma skipn_nth_error {A : Type} (l : list A) :
  forall i, skipn i l
            = match nth_error l i with
              | Some a => a :: skipn (S i) l
              | None => []
              end.
Proof.
  induction l as [|a l IH]; intros [|i]; try reflexivity.
  cbn [skipn nth_error]. rewrite IH. now destruct (nth_error l i).
Qed.

(** The records a cycle predicts [1] for are as many as the scores above
    [0.5] among the scores of the records. *)
Lemma predicted_count (d : list float) (l : list Product) :
  forall i,
    List.length (filter prediction_truthy (mapi_from (with_prediction d) i l))
    = List.length (filter (fun v => (0.5 <? v)%float)
                          (firstn (List.length l) (skipn i d))).
Proof.
  induction l as [|p l IH]; intros i; [reflexivity|].
  cbn [mapi_from filter List.length]. unfold prediction_truthy at 1.
  cbn [with_prediction prediction]. rewrite truthy_predicted_of.
  rewrite (skipn_nth_error d i).
  destruct (nth_error d i) as [v|] eqn:Hv.
  - cbn [firstn filter]. destruct (0.5 <? v)%float; cbn [List.length]; now rewrite IH.
  - rewrite IH. assert (Hs : skipn (S i) d = []).
    { apply skipn_all2. apply nth_error_None in Hv. lia. }
    rewrite Hs. now destruct (List.length l).
Qed.

Lemma reorder_count_annotated (d : list float) (l : list Product) :
  forall i,
    List.length (filter reorder_truthy (mapi_from (with_prediction d) i l))
    = List.length (filter reorder_truthy l).
Proof.
  induction l as [|p l IH]; intros i; [reflexivity|].
  cbn [mapi_from filter].
  change (reorder_truthy (with_prediction d p i)) with (reorder_truthy p).
  destruct (reorder_truthy p); cbn [List.length]; now rewrite IH.
Qed.

Lemma last_val_accuracy_snoc (l : list float) (v : float) :
  last_val_accuracy (Some (l ++ [v])) = Some v.
Proof.
  unfold last_val_accuracy. rewrite length_app. cbn [List.length].
  replace (List.length l + 1 =? 0)%nat with false
    by (symmetry; apply Nat.eqb_neq; lia).
  cbn [negb]. replace (List.length l + 1 - 1)%nat with (List.length l) by lia.
  rewrite nth_error_app2 by lia. now rewrite Nat.sub_diag.
Qed.

(** What the dashboard shows after a successful cycle: the number of
    records; the number of records whose rule label is truthy, as before
    the cycle; the number of scores above [0.5] among the scores of the
    records, which is at most the number of records; and the last validation
    accuracy as a percentage with one decimal, or ["N/A"] when the history
    has none. *)
Theorem successful_cycle_stats
  (seed : nat) (s : AppState Model)
  (m : Model) (h : option (list float)) (d : list float) :
  products s <> [] ->
  cycle_outcome Model tf_fit tf_predict seed (products s) = Returned (m, h, d) ->
  let s' := snd (trainAndPredict toString_other Model tf_fit tf_predict seed s) in
  let n := List.length (products s) in
  total (stats s') = Z.of_nat n
  /\ serverReorders (stats s') = count_where reorder_truthy (products s)
  /\ modelReorders (stats s')
     = Z.of_nat (List.length (filter (fun v => (0.5 <? v)%float) (firstn n d)))
  /\ 0 <= modelReorders (stats s') <= total (stats s')
  /\ (h = None \/ h = Some [] -> modelAccuracy (stats s') = "N/A"%string)
  /\ (forall l v,
        h = Some (l ++ [v]) ->
        modelAccuracy (stats s')
        = (toFixed toString_other 1 (v * 100)%float ++ "%")%string).
Proof.
  intros Hne Hc s' n.
  destruct (trainAndPredict_cases toString_other Model tf_fit tf_predict seed s Hne)
    as [(e & log & Hc' & _)|(m' & h' & d' & Hc' & Hr)].
  { rewrite Hc in Hc'. discriminate. }
  rewrite Hc in Hc'. injection Hc' as <- <- <-.
  subst s'. rewrite Hr. cbn [snd stats]. unfold stats_of.
  cbn [total serverReorders modelReorders modelAccuracy].
  assert (Hm : count_where prediction_truthy (mapi (with_prediction d) (products s))
               = Z.of_nat (List.length (filter (fun v => (0.5 <? v)%float)
                                               (firstn n d)))).
  { rewrite count_where_filter. unfold mapi. now rewrite predicted_count. }
  assert (Hle : (List.length (filter (fun v => (0.5 <? v)%float) (firstn n d))
                 <= n)%nat).
  { eapply Nat.le_trans; [apply filter_length_le|]. apply firstn_le_length. }
  assert (Hlen : List.length (mapi (with_prediction d) (products s)) = n)
    by apply mapi_from_length.
  split; [now rewrite Hlen|]. split.
  - rewrite !count_where_filter. unfold mapi.
    now rewrite reorder_count_annotated.
  - split; [exact Hm|]. split; [rewrite Hm, Hlen; subst n; lia|]. split.
    + intros [-> | ->]; reflexivity.
    + intros l v ->. now rewrite last_val_accuracy_snoc.
Qed.

(** The scores are stored as the network returned them and every record
    gets a label, whatever the scores are: [1] and ["Reorder"] for a score
    above [0.5]; [0] and ["No Reorder"] for any other score, [NaN] included,
    and for a record the network returned no score for. *)
Theorem cycle_labels_every_record
  (seed : nat) (s : AppState Model)
  (m : Model) (h : option (list float)) (d : list float) :
  products s <> [] ->
  cycle_outcome Model tf_fit tf_predict seed (products s) = Returned (m, h, d) ->
  let s' := snd (trainAndPredict toString_other Model tf_fit tf_predict seed s) in
  List.length (products s') = List.length (products s)
  /\ forall i p,
       nth_error (products s') i = Some p ->
       predictionScore p = nth_error d i
       /\ ((exists v, nth_error d i = Some v /\ (0.5 <? v)%float = true
                      /\ prediction p = Some 1%float
                      /\ predictionText p = Some "Reorder"%string)
           \/ ((forall v, nth_error d i = Some v -> (0.5 <? v)%float = false)
               /\ prediction p = Some 0%float
               /\ predictionText p = Some "No Reorder"%string)).
Proof.
  intros Hne Hc s'.
  destruct (trainAndPredict_cases toString_other Model tf_fit tf_predict seed s Hne)
    as [(e & log & Hc' & _)|(m' & h' & d' & Hc' & Hr)].
  { rewrite Hc in Hc'. discriminate. }
  rewrite Hc in Hc'. injection Hc' as <- <- <-.
  subst s'. rewrite Hr. cbn [snd products]. unfold mapi.
  split; [apply mapi_from_length|].
  intros i p Hp. rewrite mapi_from_nth_error in Hp.
  destruct (nth_error (products s) i) as [p0|]; [|discriminate].
  cbn [option_map Nat.add] in Hp. injection Hp as <-.
  cbn [with_prediction predictionScore prediction predictionText].
  split; [reflexivity|].
  destruct (nth_error d i) as [v|]; cbn [predicted_of].
  - destruct (0.5 <? v)%float eqn:Hv.
    + left. exists v. split; [reflexivity|]. split; [exact Hv|].
      split; reflexivity.
    + right. split; [|split; reflexivity]. intros v' Hv'. now injection Hv' as <-.
  - right. split; [|split; reflexivity]. intros v' Hv'. discriminate.
Qed.

(** ** Regenerating *)

(** A record that no cycle has scored. *)
Definition unscored (p : Product) : Prop :=
  predictionScore p = None /\ prediction p = None /\ predictionText p = None.

Lemma generated_unscored (count : Z) :
  Forall unscored (generateProducts Math_sin Math_cos count).
Proof.
  rewrite generateProducts_map. apply Forall_forall. intros p Hp.
  apply in_map_iff in Hp. destruct Hp as (i & <- & _). repeat split.
Qed.

Lemma unscored_count (l : list Product) :
  Forall unscored l -> count_where prediction_truthy l = 0.
Proof.
  intros Hl. rewrite count_where_filter.
  replace (filter prediction_truthy l) with (@nil Product); [reflexivity|].
  symmetry. induction Hl as [|p l (_ & Hp & _) _ IH]; [reflexivity|].
  cbn [filter]. unfold prediction_truthy at 1. now rewrite Hp.
Qed.

(** "Regenerate Products" (and the effect run on load) replaces the
    records by the 150 generated ones, none of which has a prediction, and
    sets the first two cards of the dashboard; the other two cards keep what
    the last cycle wrote, so they can show a count of predicted reorders
    that no record in the table carries.  The stored model stays, and
    regenerating twice is regenerating once. *)
Theorem regenerate_resets_records (s : AppState Model) :
  let s' := snd (regenerate Math_sin Math_cos Model s) in
  fst (regenerate Math_sin Math_cos Model s) = Returned tt
  /\ products s' = generateProducts Math_sin Math_cos 150
  /\ List.length (products s') = 150%nat
  /\ Forall unscored (products s')
  /\ count_where prediction_truthy (products s') = 0
  /\ total (stats s') = 150
  /\ modelReorders (stats s') = modelReorders (stats s)
  /\ modelAccuracy (stats s') = modelAccuracy (stats s)
  /\ modelStore s' = modelStore s
  /\ runningModel s' = runningModel s
  /\ effects s' = effects s
  /\ snd (regenerate Math_sin Math_cos Model s') = s'.
Proof.
  assert (Hlen : List.length (generateProducts Math_sin Math_cos 150) = 150%nat).
  { rewrite generateProducts_map, length_map, Zseq_length. reflexivity. }
  cbv zeta. unfold regenerate, bind, setProducts, setStats.
  cbn [fst snd products stats modelStore runningModel effects total modelReorders
       modelAccuracy].
  split; [reflexivity|]. split; [reflexivity|]. split; [exact Hlen|].
  split; [apply generated_unscored|].
  split; [apply unscored_count, generated_unscored|].
  split; [now rewrite Hlen|].
  repeat split.
Qed.

(** ** A failed scoring *)

(** When the fit returns and the scoring throws, the records and the
    dashboard stay as they were, but the model of this cycle has already
    replaced the stored one, which has been disposed: a failed cycle does
    not restore the previous model. *)
Theorem failed_scoring_replaces_model
  (seed : nat) (s : AppState Model)
  (m : Model) (h : option (list float)) (e : JsError) :
  products s <> [] ->
  fit_outcome Model tf_fit seed (products s) = Returned (m, h) ->
  tf_predict m (input_norm (products s)) = Thrown e ->
  let s' := snd (trainAndPredict toString_other Model tf_fit tf_predict seed s) in
  products s' = products s
  /\ stats s' = stats s
  /\ runningModel s' = false
  /\ modelStore s'
     = Some (mkStored m (Tf.min0 (Tf.tensor2d (map features (products s))))
                        (Tf.max0 (Tf.tensor2d (map features (products s)))))
  /\ (forall st, modelStore s = Some st ->
                 In (ModelDispose (model st)) (effects s'))
  /\ last (effects s') (Alert "") = Alert (error_text e).
Proof.
  intros Hne Hfit Hpred s'. subst s'.
  rewrite (trainAndPredict_predict_throws toString_other Model tf_fit tf_predict
             seed s m h e Hne Hfit Hpred).
  cbn [snd products stats runningModel modelStore effects].
  repeat split.
  - intros st Hst. unfold dispose_log. rewrite Hst.
    apply in_or_app. right. apply in_or_app. right. now left.
  - rewrite !app_assoc.
    change [ModelPredict m (input_norm (products s)); ConsoleError e;
            Alert (error_text e)]
      with ([ModelPredict m (input_norm (products s)); ConsoleError e]
              ++ [Alert (error_text e)]).
    rewrite app_assoc. apply last_last.
Qed.

(** ** The life of the fitted models *)

(** The models the fits of a log returned, the models it disposed, both in
    order, and the model in the store. *)
Definition fitted_models (log : list (Effect Model)) : list Model :=
  flat_map (fun e => match e with
                     | ModelFit seed xTrain yTrain xVal yVal =>
                         match tf_fit seed xTrain yTrain xVal yVal with
                         | Returned (m, _) => [m]
                         | Thrown _ => []
                         end
                     | _ => []
                     end) log.

Definition disposed_models (log : list (Effect Model)) : list Model :=
  flat_map (fun e => match e with
                     | ModelDispose m => [m]
                     | _ => []
                     end) log.

Definition stored_model (st : option (StoredModel Model)) : list Model :=
  match st with
  | Some st => [model st]
  | None => []
  end.

Lemma fitted_fit_effect (seed : nat) (items : list Product) :
  fitted_models [fit_effect Model seed items]
  = match fit_outcome Model tf_fit seed items with
    | Returned (m, _) => [m]
    | Thrown _ => []
    end.
Proof.
  unfold fitted_models, fit_effect, fit_outcome.
  destruct (train_val_split items) as [[[a b] c] d]. cbn [flat_map].
  now rewrite app_nil_r.
Qed.

Lemma disposed_fit_effect (seed : nat) (items : list Product) :
  disposed_models [fit_effect Model seed items] = [].
Proof.
  unfold disposed_models, fit_effect.
  now destruct (train_val_split items) as [[[a b] c] d].
Qed.

Lemma disposed_dispose_log (s : AppState Model) :
  disposed_models (dispose_log Model s) = stored_model (modelStore s)
  /\ fitted_models (dispose_log Model s) = [].
Proof. unfold dispose_log. now destruct (modelStore s). Qed.

(** ** The keys of the table *)

Lemma NoDup_map_in {A B : Type} (f : A -> B) (l : list A) :
  (forall x y, In x l -> In y l -> f x = f y -> x = y) ->
  NoDup l -> NoDup (map f l).
Proof.
  intros Hinj Hnd. induction Hnd as [|a l Hnotin _ IH]; cbn [map]; constructor.
  - intros Hin. apply in_map_iff in Hin. destruct Hin as (y & Hy & Hyl).
    apply Hnotin. rewrite (Hinj a y); [exact Hyl | now left | now right |].
    now symmetry.
  - apply IH. intros x y Hx Hy. apply Hinj; now right.
Qed.

Lemma Zseq_NoDup (n : nat) : forall s, NoDup (Zseq s n).
Proof.
  induction n as [|n IH]; intros s; cbn [Zseq]; constructor.
  - rewrite Zseq_In. lia.
  - apply IH.
Qed.

Lemma same_base_ids (l l' : list Product) :
  Forall2 same_base l l' -> map id l' = map id l.
Proof.
  induction 1 as [|p q l l' (Hi & _) _ IH]; [reflexivity|].
  cbn [map]. now rewrite IH, Hi.
Qed.

(** In every state the page reaches the table is empty or lists the 150
    records with the ids [1 .. 150] in this order, whatever cycles have run;
    the keys [p.id] of its rows are pairwise distinct. *)
Theorem table_keys_distinct (s : AppState Model) :
  reachable Math_sin Math_cos toString_other Model tf_fit tf_predict s ->
  (products s = [] \/ map id (products s) = map of_Z (Zseq 1 150))
  /\ NoDup (map id (products s)).
Proof.
  intros Hs.
  assert (Hids : products s = [] \/ map id (products s) = map of_Z (Zseq 1 150)).
  { destruct (reachable_products Math_sin Math_cos toString_other Model tf_fit
                tf_predict s Hs) as [Hnil|Hbase]; [now left | right].
    rewrite (same_base_ids _ _ Hbase), generateProducts_map, map_map.
    reflexivity. }
  split; [exact Hids|].
  destruct Hids as [-> | ->]; [constructor|].
  apply NoDup_map_in; [|apply Zseq_NoDup].
  intros x y Hx Hy Hxy. apply Zseq_In in Hx, Hy.
  apply (f_equal to_integer) in Hxy.
  rewrite !to_integer_of_Z in Hxy by (change (2 ^ 53) with 9007199254740992; lia).
  now injection Hxy.
Qed.

End Page.


(** ** The fitted models on the page *)

Section WaitingModels.

Variable Math_sin Math_cos : float -> float.
Variable toString_other : float -> string.
Variable Model : Type.
Variable tf_fit :
  nat -> Tf.Tensor -> Tf.Tensor -> Tf.Tensor -> Tf.Tensor ->
  Outcome (Model * option (list float)).
Variable tf_predict : Model -> Tf.Tensor -> Outcome (list float).

(** The models the suspended fits are about to return. *)
Definition awaited_models (ws : list Suspended) : list Model :=
  flat_map (fun w => match w with
                     | AwaitFit seed items =>
                         match fit_outcome Model tf_fit seed items with
                         | Returned (m, _) => [m]
                         | Thrown _ => []
                         end
                     | AwaitData _ _ _ => []
                     end) ws.

Lemma fitted_app (l l' : list (Effect Model)) :
  fitted_models Model tf_fit (l ++ l')
  = fitted_models Model tf_fit l ++ fitted_models Model tf_fit l'.
Proof. apply flat_map_app. Qed.

Lemma disposed_app (l l' : list (Effect Model)) :
  disposed_models Model (l ++ l') = disposed_models Model l ++ disposed_models Model l'.
Proof. apply flat_map_app. Qed.

(** What the three parts of a cycle and the other handlers add to the
    log: the models fitted and the models disposed. *)
Lemma catch_finally_log (e : JsError) (s : AppState Model) :
  effects (snd (catch_finally Model e s))
  = effects s ++ [ConsoleError e; Alert (error_text e)]
  /\ modelStore (snd (catch_finally Model e s)) = modelStore s.
Proof.
  unfold catch_finally, bind, console_error, alert, emit, setRunningModel.
  cbn -[error_text]. now rewrite <- app_assoc.
Qed.

Lemma fit_settled_log (seed : nat) (items : list Product) (late : bool)
  (s : AppState Model) :
  let s' := snd (fit_settled Model tf_fit tf_predict seed items late s) in
  match fit_outcome Model tf_fit seed items with
  | Thrown _ =>
      fitted_models Model tf_fit (effects s') = fitted_models Model tf_fit (effects s)
      /\ disposed_models Model (effects s') = disposed_models Model (effects s)
      /\ modelStore s' = modelStore s
  | Returned (m, _) =>
      fitted_models Model tf_fit (effects s') = fitted_models Model tf_fit (effects s)
      /\ disposed_models Model (effects s')
         = disposed_models Model (effects s) ++ stored_model Model (modelStore s)
      /\ modelStore s' = Some (stored_of Model m items)
  end.
Proof.
  cbv zeta. unfold fit_settled.
  destruct (fit_outcome Model tf_fit seed items) as [[m h]|e].
  - set (s1 := snd (bind Model (dispose_stored Model)
                      (fun _ => bind Model (setModelStore Model (stored_of Model m items))
                         (fun _ => emit Model (ModelPredict m (input_norm items)))) s)).
    assert (H1 : effects s1
                 = effects s ++ dispose_log Model s
                     ++ [ModelPredict m (input_norm items)]
                 /\ modelStore s1 = Some (stored_of Model m items)).
    { subst s1. unfold bind, dispose_stored, dispose_log, setModelStore, emit.
      destruct (modelStore s); cbn; now rewrite <- ?app_assoc. }
    destruct H1 as [Heff Hst].
    assert (H2 : fitted_models Model tf_fit (effects s1)
                 = fitted_models Model tf_fit (effects s)
                 /\ disposed_models Model (effects s1)
                    = disposed_models Model (effects s)
                        ++ stored_model Model (modelStore s)).
    { rewrite Heff, !fitted_app, !disposed_app.
      destruct (disposed_dispose_log Model tf_fit s) as [-> ->].
      cbn. now rewrite !app_nil_r. }
    destruct H2 as [Hf Hd].
    destruct (tf_predict m (input_norm items)) as [d|e]; cbn [snd];
      [now repeat split|].
    destruct late; cbn [snd]; [now repeat split|].
    destruct (catch_finally_log e s1) as [-> ->].
    rewrite fitted_app, disposed_app, Hf, Hd, Hst. cbn. now rewrite !app_nil_r.
  - cbn [snd]. destruct (catch_finally_log e s) as [-> ->].
    rewrite fitted_app, disposed_app. cbn. now rewrite !app_nil_r.
Qed.

Lemma fit_settled_awaited (seed : nat) (items : list Product) (late : bool)
  (s : AppState Model) :
  awaited_models (fst (fit_settled Model tf_fit tf_predict seed items late s)) = [].
Proof.
  unfold fit_settled.
  destruct (fit_outcome Model tf_fit seed items) as [[m h]|e]; [|reflexivity].
  destruct (tf_predict m (input_norm items)) as [d|e]; [reflexivity|].
  now destruct late.
Qed.

Lemma data_settled_log (items : list Product) (h : option (list float))
  (r : Outcome (list float)) (s : AppState Model) :
  let s' := data_settled toString_other Model items h r s in
  fitted_models Model tf_fit (effects s') = fitted_models Model tf_fit (effects s)
  /\ disposed_models Model (effects s') = disposed_models Model (effects s)
  /\ modelStore s' = modelStore s.
Proof.
  cbv zeta. destruct r as [d|e]; [now repeat split|].
  unfold data_settled. destruct (catch_finally_log e s) as [-> ->].
  rewrite fitted_app, disposed_app. cbn. now rewrite !app_nil_r.
Qed.

Lemma regenerate_log (s : AppState Model) :
  effects (snd (regenerate Math_sin Math_cos Model s)) = effects s
  /\ modelStore (snd (regenerate Math_sin Math_cos Model s)) = modelStore s.
Proof. now split. Qed.

Lemma downloadCSV_log (s : AppState Model) :
  let s' := snd (downloadCSV toString_other Model s) in
  fitted_models Model tf_fit (effects s') = fitted_models Model tf_fit (effects s)
  /\ disposed_models Model (effects s') = disposed_models Model (effects s)
  /\ modelStore s' = modelStore s.
Proof.
  cbv zeta. unfold downloadCSV.
  destruct (_ =? _)%nat; unfold alert, emit; cbn [snd effects modelStore];
    rewrite fitted_app, disposed_app; cbn; now rewrite !app_nil_r.
Qed.

Lemma start_cycle_log (seed : nat) (s : AppState Model) :
  products s <> [] ->
  let s' := snd (start_cycle Model seed s) in
  fitted_models Model tf_fit (effects s')
  = fitted_models Model tf_fit (effects s)
      ++ awaited_models [AwaitFit seed (products s)]
  /\ disposed_models Model (effects s') = disposed_models Model (effects s)
  /\ modelStore s' = modelStore s.
Proof.
  intros Hne. cbv zeta. unfold start_cycle. rewrite (length_nonempty _ Hne).
  unfold bind, setRunningModel, emit. cbn [snd effects modelStore].
  rewrite fitted_app, disposed_app, fitted_fit_effect, disposed_fit_effect.
  cbn [awaited_models flat_map]. now rewrite !app_nil_r.
Qed.

Lemma mounted_before (pg pg' : Page Model) :
  page_step Math_sin Math_cos toString_other Model tf_fit tf_predict pg pg' ->
  mounted pg' = true -> mounted pg = true.
Proof. intros [ | | | | | ]; cbn [mounted]; auto; discriminate. Qed.

(** While the component is mounted, the models that the fits have
    returned or are about to return are, in order, the models disposed so
    far, the one in the store, and the one awaited. *)
Lemma page_models (pg : Page Model) :
  page_reachable Math_sin Math_cos toString_other Model tf_fit tf_predict pg ->
  mounted pg = true ->
  fitted_models Model tf_fit (effects (component pg))
  = disposed_models Model (effects (component pg))
      ++ stored_model Model (modelStore (component pg))
      ++ awaited_models (suspended pg).
Proof.
  induction 1 as [|pg pg' Hreach IH Hstep]; [reflexivity|].
  intros Hm'. specialize (IH (mounted_before pg pg' Hstep Hm')).
  destruct (page_flag _ _ _ _ _ _ pg Hreach) as [Hone _].
  destruct Hstep as [pg Hm|pg Hm|seed pg Hm Hrun Hne
                    |seed items late pg before after Hw
                    |items h r pg before after Hw|pg Hm];
    cbn [component suspended mounted] in *.
  - exact IH.
  - destruct (downloadCSV_log (component pg)) as (-> & -> & ->). exact IH.
  - destruct (start_cycle_log seed (component pg) Hne) as (-> & -> & ->).
    rewrite IH. unfold awaited_models. rewrite flat_map_app.
    now rewrite <- !app_assoc.
  - assert (Hba : before = [] /\ after = []).
    { rewrite Hw, length_app in Hone. cbn [List.length] in Hone.
      destruct before, after; cbn in Hone; try lia. now split. }
    destruct Hba as [-> ->]. rewrite Hw in IH. rewrite Hm'. cbn [settle component] in *.
    cbn [List.app]. rewrite app_nil_r, fit_settled_awaited, app_nil_r.
    pose proof (fit_settled_log seed items late (component pg)) as Hlog.
    cbv zeta in Hlog. cbn [List.app awaited_models flat_map] in IH.
    destruct (fit_outcome Model tf_fit seed items) as [[m h]|e].
    + destruct Hlog as (-> & -> & ->). rewrite IH. cbn [stored_model stored_of model].
      now rewrite !app_nil_r, <- !app_assoc.
    + destruct Hlog as (-> & -> & ->). rewrite IH. now rewrite !app_nil_r.
  - assert (Hba : before = [] /\ after = []).
    { rewrite Hw, length_app in Hone. cbn [List.length] in Hone.
      destruct before, after; cbn in Hone; try lia. now split. }
    destruct Hba as [-> ->]. rewrite Hw in IH. rewrite Hm'. cbn [settle component] in *.
    destruct (data_settled_log items h r (component pg)) as (-> & -> & ->).
    exact IH.
  - discriminate Hm'.
Qed.


(** While the component is mounted, the models that the fits have
    returned or are about to return are, in order, the models disposed so
    far, the one in the store and the one awaited: a model is disposed when
    the next one replaces it, never twice and never while it is the stored
    one.  Unmounting while no cycle is suspended disposes the stored model,
    after which every model a fit returned has been disposed once. *)
Theorem fitted_models_disposed_once (pg : Page Model) :
  page_reachable Math_sin Math_cos toString_other Model tf_fit tf_predict pg ->
  mounted pg = true ->
  fitted_models Model tf_fit (effects (component pg))
  = disposed_models Model (effects (component pg))
      ++ stored_model Model (modelStore (component pg))
      ++ awaited_models (suspended pg)
  /\ (suspended pg = [] ->
      fitted_models Model tf_fit (effects (snd (unmount Model (component pg))))
      = disposed_models Model (effects (snd (unmount Model (component pg)))))
  /\ fst (unmount Model (component pg)) = Returned tt.
Proof.
  intros Hpg Hm. pose proof (page_models pg Hpg Hm) as Hinv.
  split; [exact Hinv|]. unfold unmount, dispose_stored.
  destruct (modelStore (component pg)) as [st|] eqn:Hst; cbn [stored_model] in Hinv.
  - unfold emit. cbn [fst snd effects]. split; [|reflexivity].
    intros Hidle. rewrite Hidle in Hinv. cbn [awaited_models flat_map] in Hinv.
    rewrite fitted_app, disposed_app, Hinv. cbn. now rewrite !app_nil_r.
  - cbn [fst snd]. split; [|reflexivity].
    intros Hidle. rewrite Hidle in Hinv. cbn [awaited_models flat_map] in Hinv.
    now rewrite !app_nil_r in Hinv.
Qed.

(** *** Unmounting while the fit is awaited *)

(** The pages that the events lead to from a page. *)
Inductive page_later : Page Model -> Page Model -> Prop :=
| later_now (pg : Page Model) : page_later pg pg
| later_step (pg pg' pg'' : Page Model) :
    page_step Math_sin Math_cos toString_other Model tf_fit tf_predict pg pg' ->
    page_later pg' pg'' -> page_later pg pg''.

Definition awaits_data (w : Suspended) : Prop :=
  match w with
  | AwaitFit _ _ => False
  | AwaitData _ _ _ => True
  end.

Lemma fit_settled_awaits (seed : nat) (items : list Product) (late : bool)
  (s : AppState Model) :
  Forall awaits_data (fst (fit_settled Model tf_fit tf_predict seed items late s)).
Proof.
  unfold fit_settled.
  destruct (fit_outcome Model tf_fit seed items) as [[m h]|e]; [|constructor].
  destruct (tf_predict m (input_norm items)) as [d|e]; [repeat constructor|].
  destruct late; repeat constructor.
Qed.

(** Once the component has unmounted and no fit is awaited, the log of
    fitted and disposed models and the store stay as they are. *)
Lemma unmounted_page_step (pg pg' : Page Model) :
  page_step Math_sin Math_cos toString_other Model tf_fit tf_predict pg pg' ->
  mounted pg = false -> Forall awaits_data (suspended pg) ->
  mounted pg' = false /\ Forall awaits_data (suspended pg')
  /\ fitted_models Model tf_fit (effects (component pg'))
     = fitted_models Model tf_fit (effects (component pg))
  /\ disposed_models Model (effects (component pg'))
     = disposed_models Model (effects (component pg))
  /\ modelStore (component pg') = modelStore (component pg).
Proof.
  intros [pg0 Hm|pg0 Hm|seed pg0 Hm Hrun Hne
         |seed items late pg0 before after Hw
         |items h r pg0 before after Hw|pg0 Hm] Hunm Hdata;
    try (rewrite Hm in Hunm; discriminate Hunm).
  - rewrite Hw in Hdata. apply Forall_app in Hdata. destruct Hdata as [_ Hd].
    inversion Hd as [|? ? Hbad _]. destruct Hbad.
  - cbn [component suspended mounted]. rewrite Hunm. cbn [settle effects modelStore].
    rewrite Hw in Hdata. apply Forall_app in Hdata. destruct Hdata as [Hb Ha].
    inversion Ha as [|? ? _ Ha']; subst.
    destruct (data_settled_log items h r (component pg0)) as (Hf & Hd & Hst).
    split; [reflexivity|]. split; [apply Forall_app; now split|].
    now repeat split.
Qed.

Lemma unmounted_page_later (pg pg' : Page Model) :
  page_later pg pg' ->
  mounted pg = false -> Forall awaits_data (suspended pg) ->
  fitted_models Model tf_fit (effects (component pg'))
  = fitted_models Model tf_fit (effects (component pg))
  /\ disposed_models Model (effects (component pg'))
     = disposed_models Model (effects (component pg))
  /\ modelStore (component pg') = modelStore (component pg).
Proof.
  induction 1 as [pg|pg pg' pg'' Hstep _ IH]; intros Hunm Hdata; [now repeat split|].
  destruct (unmounted_page_step pg pg' Hstep Hunm Hdata) as (Hm' & Hd' & Hf & Hd & Hst).
  destruct (IH Hm' Hd') as (Hf2 & Hd2 & Hst2).
  rewrite Hf2, Hd2, Hst2. now repeat split.
Qed.

(** When the component unmounts while a fit is awaited, the cleanup
    disposes the stored model and leaves it in the store; the continuation
    of the cycle disposes it a second time and stores the model of the fit,
    which nothing disposes afterwards: no later event adds to the disposed
    models or changes the store. *)
Theorem unmount_while_fitting
  (pg : Page Model) (seed : nat) (items : list Product)
  (m : Model) (h : option (list float)) (st : StoredModel Model) :
  page_reachable Math_sin Math_cos toString_other Model tf_fit tf_predict pg ->
  mounted pg = true ->
  suspended pg = [AwaitFit seed items] ->
  fit_outcome Model tf_fit seed items = Returned (m, h) ->
  modelStore (component pg) = Some st ->
  let pg1 := mkPage (snd (unmount Model (component pg))) false (suspended pg) in
  page_step Math_sin Math_cos toString_other Model tf_fit tf_predict pg pg1
  /\ (exists pg2,
        page_step Math_sin Math_cos toString_other Model tf_fit tf_predict pg1 pg2)
  /\ forall pg2 pg3,
       page_step Math_sin Math_cos toString_other Model tf_fit tf_predict pg1 pg2 ->
       page_later pg2 pg3 ->
       fitted_models Model tf_fit (effects (component pg3))
       = disposed_models Model (effects (component pg)) ++ [model st; m]
       /\ disposed_models Model (effects (component pg3))
          = disposed_models Model (effects (component pg)) ++ [model st; model st]
       /\ modelStore (component pg3) = Some (stored_of Model m items).
Proof.
  intros Hpg Hm Hw Hfit Hst pg1.
  pose proof (page_models pg Hpg Hm) as Hinv.
  rewrite Hst, Hw in Hinv. cbn [stored_model awaited_models flat_map] in Hinv.
  rewrite Hfit in Hinv. cbn [List.app] in Hinv.
  assert (Hs1 : effects (component pg1) = effects (component pg) ++ [ModelDispose (model st)]
                /\ modelStore (component pg1) = Some st).
  { subst pg1. cbn [component]. unfold unmount, dispose_stored. rewrite Hst. now split. }
  destruct Hs1 as [Heff1 Hst1].
  assert (Hsus1 : suspended pg1 = [AwaitFit seed items]) by exact Hw.
  assert (Hm1 : mounted pg1 = false) by reflexivity.
  split; [now apply step_unmount|]. clearbody pg1. split.
  - eexists. exact (step_fit _ _ _ _ _ _ seed items false pg1 [] [] Hsus1).
  - intros pg2 pg3 Hstep Hlater.
    assert (H2 : mounted pg2 = false /\ Forall awaits_data (suspended pg2)
                 /\ fitted_models Model tf_fit (effects (component pg2))
                    = disposed_models Model (effects (component pg)) ++ [model st; m]
                 /\ disposed_models Model (effects (component pg2))
                    = disposed_models Model (effects (component pg)) ++ [model st; model st]
                 /\ modelStore (component pg2) = Some (stored_of Model m items)).
    { destruct Hstep as [pg0 Hm0|pg0 Hm0|seed0 pg0 Hm0 Hrun Hne
                        |seed0 items0 late pg0 before after Hw0
                        |items0 h0 r0 pg0 before after Hw0|pg0 Hm0];
        try (rewrite Hm0 in Hm1; discriminate Hm1).
      - rewrite Hsus1 in Hw0.
        destruct before as [|b before];
          [|destruct before; discriminate Hw0].
        cbn [List.app] in Hw0. injection Hw0 as <- <- <-.
        cbn [mounted component suspended]. rewrite Hm1. cbn [settle effects modelStore].
        pose proof (fit_settled_log seed items late (component pg0)) as Hlog.
        cbv zeta in Hlog. rewrite Hfit in Hlog. destruct Hlog as (Hf & Hd & Hs).
        split; [reflexivity|]. split.
        + cbn [List.app]. rewrite app_nil_r. apply fit_settled_awaits.
        + rewrite Hf, Hd, Hs, Heff1, Hst1, fitted_app, disposed_app, Hinv.
          cbn [fitted_models disposed_models flat_map stored_model List.app].
          rewrite <- !app_assoc. now repeat split.
      - rewrite Hsus1 in Hw0.
        destruct before as [|b before]; [discriminate Hw0|].
        destruct before; discriminate Hw0. }
    destruct H2 as (Hm2 & Hd2 & Hf2 & Hdis2 & Hst2).
    destruct (unmounted_page_later pg2 pg3 Hlater Hm2 Hd2) as (-> & -> & ->).
    now repeat split.
Qed.

End WaitingModels.


(** * The range of the normalized features *)

(** ** Rounding to a format, and division in binary64 *)

Section Format.

(** The precision and the exponent bound of a binary format: [53] and
    [1024] for binary64, [24] and [128] for binary32. *)
Variables p em : Z.
Hypothesis precision_positive : 0 < p.

Lemma shr_record_mantissa (m : Z) (l : location) :
  shr_m (shr_record_of_loc m l) = m.
Proof. destruct l as [|[| |]]; reflexivity. Qed.

(** [shr_fexp] on a non-negative mantissa: the exponent it moves to, the
    quotient it leaves, that an exact quotient stays exact, and that the
    quotient fits the format. *)
Lemma shr_fexp_quotient (m e : Z) (l : location) :
  0 <= m ->
  let r := shr_fexp p em m e l in
  snd r = Z.max e (fexp p em (Zdigits2 m + e))
  /\ shr_m (fst r) = m / 2 ^ (snd r - e)
  /\ (l = loc_Exact -> m mod 2 ^ (snd r - e) = 0 ->
      loc_of_shr_record (fst r) = loc_Exact).
Proof.
  intros Hm. unfold shr_fexp. set (f := fexp p em (Zdigits2 m + e)).
  pose proof (shr_record_mantissa m l) as Hsm.
  unfold shr. destruct (f - e) as [|k|k] eqn:Hk; cbn [fst snd].
  - split; [lia|]. rewrite Z.sub_diag, Z.div_1_r. split; [exact Hsm|].
    intros -> _. reflexivity.
  - split; [lia|]. replace (e + Z.pos k - e) with (Z.pos k) by lia.
    rewrite iter_pos_nat. split.
    + rewrite shr_iter_m by (rewrite Hsm; exact Hm).
      now rewrite positive_nat_Z, Hsm.
    + intros -> Hmod. cbn [shr_record_of_loc].
      rewrite shr_iter_exact; [reflexivity | exact Hm |].
      now rewrite positive_nat_Z.
  - split; [lia|]. rewrite Z.sub_diag, Z.div_1_r. split; [exact Hsm|].
    intros -> _. reflexivity.
Qed.

Lemma shr_fexp_mantissa (m e : Z) (l : location) :
  0 <= m ->
  let r := shr_fexp p em m e l in
  0 <= shr_m (fst r) < 2 ^ p /\ 3 - em - p <= snd r.
Proof.
  intros Hm. pose proof (shr_fexp_quotient m e l Hm) as H. cbv zeta in *.
  destruct (shr_fexp p em m e l) as [mrs e1]. cbn [fst snd] in *.
  destruct H as (He1 & Hm1 & _).
  pose proof (Zdigits2_lt m Hm) as Hlt. pose proof (Zdigits2_nonneg m) as Hd.
  assert (Hf : Zdigits2 m + e - p <= e1 /\ 3 - em - p <= e1 /\ e <= e1)
    by (rewrite He1; unfold fexp, SpecFloat.emin; lia).
  split; [|lia]. rewrite Hm1.
  assert (HP : 0 < 2 ^ (e1 - e)) by (apply Z.pow_pos_nonneg; lia).
  split; [apply Z.div_pos; lia|].
  apply Z.div_lt_upper_bound; [exact HP|].
  rewrite <- Z.pow_add_r by lia.
  apply Z.lt_le_trans with (2 ^ Zdigits2 m); [exact Hlt|].
  apply Z.pow_le_mono_r; lia.
Qed.

Lemma digits_below_bound (m e M E : Z) :
  0 <= m -> 0 < M < 2 ^ p -> e <= E -> 3 - em - p <= E ->
  m <= M * 2 ^ (E - e) ->
  fexp p em (Zdigits2 m + e) <= E.
Proof.
  intros Hm HM He HE Hle.
  assert (HP : 0 < 2 ^ (E - e)) by (apply Z.pow_pos_nonneg; lia).
  assert (Hd : Zdigits2 m <= p + (E - e)).
  { apply Zdigits2_bound; [lia|]. split; [exact Hm|].
    rewrite Z.pow_add_r by lia.
    apply Z.le_lt_trans with (M * 2 ^ (E - e)); [exact Hle|].
    apply Zmult_lt_compat_r; lia. }
  unfold fexp, SpecFloat.emin. lia.
Qed.

(** Rounding does not step over a number of the format: a value of at
    most [M * 2^E], given by a mantissa at an exponent [e <= E] and the
    location of the rest, is rounded to a zero or to a finite number of at
    most [M * 2^E], whose mantissa and exponent fit the format. *)
Lemma binary_round_aux_bound (sx : bool) (m e : Z) (l : location) (M E : Z) :
  0 <= m -> 0 < M < 2 ^ p -> e <= E -> 3 - em - p <= E <= em - p ->
  m <= M * 2 ^ (E - e) ->
  (l <> loc_Exact -> m < M * 2 ^ (E - e)) ->
  match binary_round_aux p em sx m e l with
  | S754_zero s => s = sx
  | S754_finite s m' e' =>
      s = sx /\ e' <= E /\ Z.pos m' <= M * 2 ^ (E - e')
      /\ Z.pos m' < 2 ^ p /\ 3 - em - p <= e'
  | S754_infinity _ | S754_nan => False
  end.
Proof.
  intros Hm HM He HE Hle Hlt. unfold binary_round_aux.
  pose proof (shr_fexp_quotient m e l Hm) as H1. cbv zeta in H1.
  pose proof (digits_below_bound m e M E Hm HM He ltac:(lia) Hle) as Hf1.
  destruct (shr_fexp p em m e l) as [mrs e1]. cbn [fst snd] in H1.
  destruct H1 as (He1 & Hm1 & Hex1).
  assert (He1' : e <= e1 <= E) by lia.
  set (n := e1 - e) in *.
  assert (HP : 0 < 2 ^ n) by (apply Z.pow_pos_nonneg; lia).
  assert (HQ : 0 < 2 ^ (E - e1)) by (apply Z.pow_pos_nonneg; lia).
  assert (Hsplit : M * 2 ^ (E - e) = M * 2 ^ (E - e1) * 2 ^ n).
  { rewrite <- Z.mul_assoc, <- Z.pow_add_r by lia. f_equal. f_equal. lia. }
  set (B1 := M * 2 ^ (E - e1)) in *.
  assert (HB1 : 0 < B1) by (subst B1; apply Z.mul_pos_pos; lia).
  pose proof (round_nearest_even_bounds (shr_m mrs) (loc_of_shr_record mrs)) as Hrb.
  set (r := round_nearest_even (shr_m mrs) (loc_of_shr_record mrs)) in *.
  assert (Hq0 : 0 <= shr_m mrs) by (rewrite Hm1; apply Z.div_pos; lia).
  assert (Hr : 0 <= r <= B1).
  { split; [lia|].
    destruct (Z.eq_dec m (M * 2 ^ (E - e))) as [Heq|Hneq].
    - assert (Hl : l = loc_Exact).
      { destruct l as [|c]; [reflexivity|].
        assert (m < M * 2 ^ (E - e)) by (apply Hlt; discriminate). lia. }
      assert (Hmod : m mod 2 ^ n = 0) by (rewrite Heq, Hsplit; apply Z.mod_mul; lia).
      subst r. rewrite (Hex1 Hl Hmod). cbn [round_nearest_even].
      rewrite Hm1, Heq, Hsplit, Z.div_mul by lia. lia.
    - assert (Hq : shr_m mrs < B1).
      { rewrite Hm1. apply Z.div_lt_upper_bound; [lia|]. lia. }
      lia. }
  pose proof (shr_fexp_quotient r e1 loc_Exact ltac:(lia)) as H2. cbv zeta in H2.
  pose proof (shr_fexp_mantissa r e1 loc_Exact ltac:(lia)) as H3. cbv zeta in H3.
  pose proof (digits_below_bound r e1 M E ltac:(lia) HM ltac:(lia) ltac:(lia)
                ltac:(fold B1; lia)) as Hf2.
  destruct (shr_fexp p em r e1 loc_Exact) as [mrs2 e2]. cbn [fst snd] in H2, H3.
  destruct H2 as (He2 & Hm2 & _). destruct H3 as (Hfit & Hemin).
  assert (He2' : e1 <= e2 <= E) by lia.
  assert (HP2 : 0 < 2 ^ (e2 - e1)) by (apply Z.pow_pos_nonneg; lia).
  assert (HQ2 : 0 < 2 ^ (E - e2)) by (apply Z.pow_pos_nonneg; lia).
  assert (Hsplit2 : B1 = M * 2 ^ (E - e2) * 2 ^ (e2 - e1)).
  { subst B1. rewrite <- Z.mul_assoc, <- Z.pow_add_r by lia. f_equal. f_equal. lia. }
  assert (Hm2' : 0 <= shr_m mrs2 <= M * 2 ^ (E - e2)).
  { rewrite Hm2. split; [apply Z.div_pos; lia|].
    apply Z.div_le_upper_bound; [lia|]. lia. }
  destruct (shr_m mrs2) as [|q|q]; [reflexivity| |lia].
  destruct (Z.leb_spec e2 (em - p)) as [_|Hgt]; [|lia].
  repeat split; lia.
Qed.

(** A mantissa with [j] bits too many, all of them zero, loses them. *)
Lemma binary_round_aux_drop (m : positive) (e j : Z) :
  0 <= j -> Z.pos (digits2_pos m) = p + j ->
  3 - em - p <= e + j <= em - p ->
  Z.pos m mod 2 ^ j = 0 ->
  binary_round_aux p em false (Z.pos m) e loc_Exact
  = S754_finite false (Z.to_pos (Z.pos m / 2 ^ j)) (e + j).
Proof.
  intros Hj Hd He Hmod. unfold binary_round_aux.
  pose proof (shr_fexp_quotient (Z.pos m) e loc_Exact ltac:(lia)) as H1.
  cbv zeta in H1. cbn [Zdigits2] in H1. rewrite Hd in H1.
  destruct (shr_fexp p em (Z.pos m) e loc_Exact) as [mrs e1]. cbn [fst snd] in H1.
  destruct H1 as (He1 & Hm1 & Hex1).
  assert (He1' : e1 = e + j) by (rewrite He1; unfold fexp, SpecFloat.emin; lia).
  clear He1. subst e1. replace (e + j - e) with j in * by lia.
  rewrite (Hex1 eq_refl Hmod), Hm1. cbn [round_nearest_even].
  pose proof (digits2_bounds m) as Hb. rewrite Hd in Hb.
  assert (HPj : 0 < 2 ^ j) by (apply Z.pow_pos_nonneg; lia).
  assert (Hq : 2 ^ (p - 1) <= Z.pos m / 2 ^ j < 2 ^ p).
  { replace (p + j - 1) with (p - 1 + j) in Hb by lia.
    rewrite !Z.pow_add_r in Hb by lia. split.
    - apply Z.div_le_lower_bound; lia.
    - apply Z.div_lt_upper_bound; lia. }
  assert (Hq0 : 0 < Z.pos m / 2 ^ j).
  { apply Z.lt_le_trans with (2 ^ (p - 1)); [apply Z.pow_pos_nonneg; lia | lia]. }
  destruct (Z.pos m / 2 ^ j) as [|q|q] eqn:Hdiv; try lia.
  assert (Hdq : Z.pos (digits2_pos q) = p) by (apply digits2_unique; exact Hq).
  pose proof (shr_fexp_quotient (Z.pos q) (e + j) loc_Exact ltac:(lia)) as H2.
  cbv zeta in H2. cbn [Zdigits2] in H2. rewrite Hdq in H2.
  destruct (shr_fexp p em (Z.pos q) (e + j) loc_Exact) as [mrs2 e2].
  cbn [fst snd] in H2. destruct H2 as (He2 & Hm2 & _).
  assert (He2' : e2 = e + j) by (rewrite He2; unfold fexp, SpecFloat.emin; lia).
  clear He2. subst e2. rewrite Z.sub_diag, Z.div_1_r in Hm2. rewrite Hm2.
  destruct (Z.leb_spec (e + j) (em - p)); [reflexivity | lia].
Qed.

End Format.


(** The same in binary64. *)
Lemma binary64_round_bound (sx : bool) (m e : Z) (l : location) (M E : Z) :
  0 <= m -> 0 < M < 2 ^ 53 -> e <= E -> -1074 <= E <= 971 ->
  m <= M * 2 ^ (E - e) ->
  (l <> loc_Exact -> m < M * 2 ^ (E - e)) ->
  match binary_round_aux prec emax sx m e l with
  | S754_zero s => s = sx
  | S754_finite s m' e' => s = sx /\ e' <= E /\ Z.pos m' <= M * 2 ^ (E - e')
  | S754_infinity _ | S754_nan => False
  end.
Proof.
  intros Hm HM He HE Hle Hlt.
  pose proof (binary_round_aux_bound 53 1024 ltac:(lia) sx m e l M E Hm HM He
                ltac:(lia) Hle Hlt) as H.
  change 53 with prec in H. change 1024 with emax in H.
  destruct (binary_round_aux prec emax sx m e l) as [s|s| |s m' e']; try exact H.
  destruct H as (Hs & He' & Hm' & _). auto.
Qed.

(** A value of at most [1]. *)
Lemma binary_round_aux_unit (m e : Z) (l : location) :
  0 <= m -> e <= 0 -> m <= 2 ^ (- e) ->
  (l <> loc_Exact -> m < 2 ^ (- e)) ->
  match binary_round_aux prec emax false m e l with
  | S754_zero s => s = false
  | S754_finite s m' e' => s = false /\ e' <= 0 /\ Z.pos m' <= 2 ^ (- e')
  | S754_infinity _ | S754_nan => False
  end.
Proof.
  intros Hm He Hle Hlt.
  pose proof (binary64_round_bound false m e l 1 0 Hm ltac:(lia) He ltac:(lia)) as H.
  rewrite Z.mul_1_l in H. change (0 - e) with (- e) in H. specialize (H Hle Hlt).
  destruct (binary_round_aux prec emax false m e l) as [s|s| |s m' e']; try exact H.
  destruct H as (Hs & He' & Hm'). rewrite Z.mul_1_l in Hm'.
  change (0 - e') with (- e') in Hm'. auto.
Qed.

(** The quotient of two positive finite numbers, the first not above the
    second, is a zero or a finite number of at most [1]. *)
Lemma SFdiv_unit (m1 m2 : positive) (e1 e2 K : Z) :
  0 <= e1 + K -> 0 <= e2 + K ->
  Z.pos m1 * 2 ^ (e1 + K) <= Z.pos m2 * 2 ^ (e2 + K) ->
  match SFdiv prec emax (S754_finite false m1 e1) (S754_finite false m2 e2) with
  | S754_zero s => s = false
  | S754_finite s m' e' => s = false /\ e' <= 0 /\ Z.pos m' <= 2 ^ (- e')
  | S754_infinity _ | S754_nan => False
  end.
Proof.
  intros HK1 HK2 Hle. unfold SFdiv, SFdiv_core_binary. cbn [xorb Zdigits2].
  pose proof (digits2_bounds m1) as Hb1. pose proof (digits2_bounds m2) as Hb2.
  set (d1 := Z.pos (digits2_pos m1)) in *. set (d2 := Z.pos (digits2_pos m2)) in *.
  assert (Hd1 : 1 <= d1) by (unfold d1; lia).
  assert (Hd2 : 1 <= d2) by (unfold d2; lia).
  assert (Hd : d1 + e1 <= d2 + e2).
  { assert (H : 2 ^ (d1 - 1 + (e1 + K)) < 2 ^ (d2 + (e2 + K))).
    { rewrite (Z.pow_add_r 2 (d1 - 1) (e1 + K)), (Z.pow_add_r 2 d2 (e2 + K)) by lia.
      assert (0 < 2 ^ (e1 + K)) by (apply Z.pow_pos_nonneg; lia).
      assert (0 < 2 ^ (e2 + K)) by (apply Z.pow_pos_nonneg; lia).
      apply Z.le_lt_trans with (Z.pos m1 * 2 ^ (e1 + K));
        [apply Z.mul_le_mono_nonneg_r; lia|].
      apply Z.le_lt_trans with (Z.pos m2 * 2 ^ (e2 + K)); [exact Hle|].
      apply Zmult_lt_compat_r; lia. }
    apply Z.pow_lt_mono_r_iff in H; lia. }
  set (e' := Z.min (fexp prec emax (d1 + e1 - (d2 + e2))) (e1 - e2)).
  assert (He' : e' <= 0 /\ e' <= e1 - e2).
  { subst e'. unfold fexp, SpecFloat.emin, prec, emax. lia. }
  set (s := e1 - e2 - e').
  assert (Hs : 0 <= s) by (subst s; lia).
  set (m' := match s with
             | 0 => Z.pos m1
             | Z.pos _ => Z.shiftl (Z.pos m1) s
             | Z.neg _ => 0
             end).
  assert (Hm' : m' = Z.pos m1 * 2 ^ s).
  { subst m'. destruct s as [|p|p] eqn:Hsp; [simpl; lia| |lia].
    now rewrite Z.shiftl_mul_pow2 by lia. }
  assert (Hkey : m' <= Z.pos m2 * 2 ^ (- e')).
  { rewrite Hm'.
    assert (HA : 0 < 2 ^ (e2 + K)) by (apply Z.pow_pos_nonneg; lia).
    assert (HC : 0 < 2 ^ (- e')) by (apply Z.pow_pos_nonneg; lia).
    assert (HE : 2 ^ s * 2 ^ (e2 + K) = 2 ^ (e1 + K) * 2 ^ (- e')).
    { rewrite <- !Z.pow_add_r by lia. f_equal. subst s. lia. }
    apply (Zmult_le_reg_r _ _ (2 ^ (e2 + K))); [lia|].
    replace (Z.pos m1 * 2 ^ s * 2 ^ (e2 + K))
      with (Z.pos m1 * 2 ^ (e1 + K) * 2 ^ (- e'))
      by (rewrite <- !Z.mul_assoc; f_equal; symmetry; exact HE).
    replace (Z.pos m2 * 2 ^ (- e') * 2 ^ (e2 + K))
      with (Z.pos m2 * 2 ^ (e2 + K) * 2 ^ (- e')) by ring.
    apply Z.mul_le_mono_nonneg_r; lia. }
  assert (Hm0 : 0 <= m').
  { rewrite Hm'. apply Z.mul_nonneg_nonneg; [lia|]. apply Z.pow_nonneg; lia. }
  pose proof (Z_div_mod m' (Z.pos m2) ltac:(lia)) as Hdiv.
  destruct (Z.div_eucl m' (Z.pos m2)) as [q r]. destruct Hdiv as [Hqr Hr].
  assert (HC : 0 < 2 ^ (- e')) by (apply Z.pow_pos_nonneg; lia).
  assert (Hq0 : 0 <= q) by nia.
  apply binary_round_aux_unit; [exact Hq0 | lia | nia |].
  intros Hloc.
  assert (Hr0 : r <> 0).
  { intros ->. apply Hloc. unfold new_location, new_location_even, new_location_odd.
    now destruct (Z.even (Z.pos m2)). }
  nia.
Qed.

(** A quotient of integers [a / b] with [0 <= a <= b] lies in [[0, 1]]. *)
Lemma of_Z_div_unit (a b : Z) :
  0 <= a <= b -> 0 < b < 2 ^ 53 ->
  in_unit_interval (of_Z a / of_Z b) = true.
Proof.
  intros Ha Hb. unfold in_unit_interval. rewrite !leb_spec.
  change (Prim2SF 0) with (S754_zero false). rewrite Prim2SF_one.
  pose proof (Prim2SF_valid (of_Z a / of_Z b)) as Hv.
  rewrite div_spec in Hv |- *.
  destruct (Z.eq_dec a 0) as [->|Ha0].
  - rewrite of_Z_zero, Prim2SF_of_Z by lia. reflexivity.
  - rewrite !Prim2SF_of_Z in Hv |- * by lia.
    destruct (SF_of_pos_mantissa a ltac:(lia)) as (Hla & _ & _ & Hma).
    destruct (SF_of_pos_mantissa b ltac:(lia)) as (Hlb & _ & _ & Hmb).
    unfold SF_of_pos, SF64div in *.
    set (ma := Z.to_pos (a * 2 ^ (52 - Z.log2 a))) in *.
    set (mb := Z.to_pos (b * 2 ^ (52 - Z.log2 b))) in *.
    assert (Hva : Z.pos ma * 2 ^ (Z.log2 a - 52 + 52) = a * 2 ^ 52).
    { subst ma. rewrite Z2Pos.id by lia. rewrite <- Z.mul_assoc, <- Z.pow_add_r by lia.
      f_equal. f_equal. lia. }
    assert (Hvb : Z.pos mb * 2 ^ (Z.log2 b - 52 + 52) = b * 2 ^ 52).
    { subst mb. rewrite Z2Pos.id by lia. rewrite <- Z.mul_assoc, <- Z.pow_add_r by lia.
      f_equal. f_equal. lia. }
    pose proof (SFdiv_unit ma mb (Z.log2 a - 52) (Z.log2 b - 52) 52
                  ltac:(lia) ltac:(lia) ltac:(rewrite Hva, Hvb; lia)) as H.
    destruct (SFdiv prec emax (S754_finite false ma (Z.log2 a - 52))
                    (S754_finite false mb (Z.log2 b - 52)))
      as [sg|sg| |sg m e]; try contradiction.
    + subst sg. reflexivity.
    + destruct H as (-> & He & Hm).
      cbn [SpecFloat.valid_binary] in Hv. unfold bounded, canonical_mantissa in Hv.
      apply andb_prop in Hv. destruct Hv as [Hc _]. apply Z.eqb_eq in Hc.
      pose proof (digits2_bounds m) as Hdb.
      apply andb_true_intro. split; [reflexivity|].
      unfold SFleb, SFcompare.
      destruct (Z.compare_spec e (-52)) as [He52|He52|He52].
      * rewrite Pos.compare_cont_spec. cbn [Pos.switch_Eq].
        subst e. change (2 ^ (- (-52))) with 4503599627370496 in Hm.
        destruct (Pos.compare_spec m 4503599627370496) as [Hc'|Hc'|Hc'];
          try reflexivity.
        apply Pos2Z.pos_lt_pos in Hc'. lia.
      * reflexivity.
      * exfalso.
        assert (Hd53 : Z.pos (digits2_pos m) = 53)
          by (unfold fexp, SpecFloat.emin, prec, emax in Hc; lia).
        rewrite Hd53 in Hdb. change (2 ^ (53 - 1)) with (2 ^ 52) in Hdb.
        assert (2 ^ (- e) < 2 ^ 52) by (apply Z.pow_lt_mono_r; lia).
        lia.
Qed.

(** ** Binary32 entries *)

Lemma shl_align_spec (m : positive) (e e' : Z) :
  snd (shl_align m e e') <= e
  /\ Z.pos (fst (shl_align m e e')) = Z.pos m * 2 ^ (e - snd (shl_align m e e')).
Proof.
  unfold shl_align. destruct (e' - e) as [|j|j] eqn:Hj; cbn [fst snd].
  - rewrite Z.sub_diag. lia.
  - rewrite Z.sub_diag. lia.
  - split; [lia|]. rewrite pos_iter_xO. f_equal. f_equal. lia.
Qed.

(** [binary_round] does not step over a number of the format either. *)
Lemma binary_round_bound (p em : Z) (sx : bool) (m : positive) (e M E : Z) :
  0 < p -> 0 < M < 2 ^ p -> e <= E -> 3 - em - p <= E <= em - p ->
  Z.pos m <= M * 2 ^ (E - e) ->
  match binary_round p em sx m e with
  | S754_zero s => s = sx
  | S754_finite s m' e' =>
      s = sx /\ e' <= E /\ Z.pos m' <= M * 2 ^ (E - e')
      /\ Z.pos m' < 2 ^ p /\ 3 - em - p <= e'
  | S754_infinity _ | S754_nan => False
  end.
Proof.
  intros Hp HM He HE Hle. unfold binary_round.
  pose proof (shl_align_spec m e (fexp p em (Z.pos (digits2_pos m) + e))) as Hs.
  destruct (shl_align m e (fexp p em (Z.pos (digits2_pos m) + e))) as [mz ez].
  cbn [fst snd] in Hs. destruct Hs as [Hez Hmz].
  apply binary_round_aux_bound; try assumption; try lia.
  - rewrite Hmz.
    replace (E - ez) with (E - e + (e - ez)) by lia.
    rewrite Z.pow_add_r, Z.mul_assoc by lia.
    apply Z.mul_le_mono_nonneg_r; [apply Z.pow_nonneg; lia | exact Hle].
  - intros H. now destruct H.
Qed.

(** A mantissa of at most 53 bits is a binary64 float as it is. *)
Lemma binary_round_widen (m : positive) (e : Z) :
  let d := Z.pos (digits2_pos m) in
  d <= 53 -> -1074 <= e - (53 - d) -> e <= 971 ->
  binary_round prec emax false m e
  = S754_finite false (Z.to_pos (Z.pos m * 2 ^ (53 - d))) (e - (53 - d)).
Proof.
  intros d Hd He1 He2. unfold binary_round. fold d.
  rewrite fexp_value by lia. unfold shl_align.
  pose proof (digits2_bounds m) as Hb. fold d in Hb.
  destruct (d + e - 53 - e) as [|k|k] eqn:Hk; try lia.
  - assert (Hd53 : d = 53) by lia.
    rewrite binary_round_aux_canonical by lia.
    rewrite Hd53, Z.sub_diag, Z.mul_1_r, Z.sub_0_r. reflexivity.
  - assert (Hmk : Z.pos (Pos.iter xO m k) = Z.pos m * 2 ^ (53 - d)).
    { rewrite pos_iter_xO. f_equal. f_equal. lia. }
    assert (HP : 0 < 2 ^ (53 - d)) by (apply Z.pow_pos_nonneg; lia).
    rewrite binary_round_aux_canonical.
    + f_equal; [|lia]. apply Pos2Z.inj. rewrite Z2Pos.id; [exact Hmk | lia].
    + apply digits2_unique. rewrite Hmk.
      replace (2 ^ (53 - 1)) with (2 ^ (d - 1) * 2 ^ (53 - d))
        by (rewrite <- Z.pow_add_r by lia; f_equal; lia).
      replace (2 ^ 53) with (2 ^ d * 2 ^ (53 - d))
        by (rewrite <- Z.pow_add_r by lia; f_equal; lia).
      nia.
    + lia.
Qed.

Lemma widened_valid (m : positive) (e : Z) :
  let d := Z.pos (digits2_pos m) in
  d <= 53 -> -1074 <= e - (53 - d) -> e <= 971 ->
  valid_binary (S754_finite false (Z.to_pos (Z.pos m * 2 ^ (53 - d))) (e - (53 - d)))
  = true.
Proof.
  intros d Hd He1 He2. pose proof (digits2_bounds m) as Hb. fold d in Hb.
  assert (HP : 0 < 2 ^ (53 - d)) by (apply Z.pow_pos_nonneg; lia).
  unfold SpecFloat.valid_binary, bounded, canonical_mantissa.
  assert (Hd' : Z.pos (digits2_pos (Z.to_pos (Z.pos m * 2 ^ (53 - d)))) = 53).
  { apply digits2_unique. rewrite Z2Pos.id by lia.
    replace (2 ^ (53 - 1)) with (2 ^ (d - 1) * 2 ^ (53 - d))
      by (rewrite <- Z.pow_add_r by lia; f_equal; lia).
    replace (2 ^ 53) with (2 ^ d * 2 ^ (53 - d))
      by (rewrite <- Z.pow_add_r by lia; f_equal; lia).
    nia. }
  rewrite Hd', fexp_value by lia.
  apply andb_true_intro. split.
  - apply Z.eqb_eq. lia.
  - apply Z.leb_le. unfold emax, prec. lia.
Qed.

(** A finite number [m * 2^e] of at most [1], in the specification. *)
Lemma SFleb_one (m : positive) (e : Z) :
  e <= -52 -> Z.pos m <= 2 ^ (- e) ->
  SFleb (S754_finite false m e) (S754_finite false 4503599627370496 (-52)) = true.
Proof.
  intros He Hm. unfold SFleb, SFcompare.
  destruct (Z.compare_spec e (-52)) as [He52|He52|He52]; [|reflexivity|lia].
  subst e. change (2 ^ (- (-52))) with 4503599627370496 in Hm.
  rewrite Pos.compare_cont_spec. cbn [Pos.switch_Eq].
  destruct (Pos.compare_spec m 4503599627370496) as [Hc|Hc|Hc]; try reflexivity.
  apply Pos2Z.pos_lt_pos in Hc. lia.
Qed.

(** The entry of a number of [[0, 1]] is in [[0, 1]]. *)
Lemma float32_unit (x : float) :
  in_unit_interval x = true -> in_unit_interval (Tf.float32 x) = true.
Proof.
  intros Hx. pose proof Hx as Hx'. unfold in_unit_interval in Hx'.
  apply andb_prop in Hx'. destruct Hx' as [H0 H1].
  rewrite leb_spec in H0, H1. rewrite Prim2SF_one in H1.
  change (Prim2SF 0) with (S754_zero false) in H0.
  unfold Tf.float32.
  destruct (Prim2SF x) as [s|s| |s m e] eqn:Hp; try exact Hx.
  destruct s; [discriminate H0|].
  assert (Hval : e <= -52 /\ Z.pos m <= 2 ^ (- e)).
  { pose proof (unit_magnitude x) as Hu.
    rewrite leb_spec, abs_spec, Hp, Prim2SF_one in Hu. specialize (Hu H1).
    destruct Hu as [He Hm]. split; [exact He|].
    unfold SFleb, SFcompare in H1.
    destruct (Z.compare_spec e (-52)) as [He52|He52|He52]; [| |lia].
    - subst e. change (2 ^ (- (-52))) with 4503599627370496.
      rewrite Pos.compare_cont_spec in H1. cbn [Pos.switch_Eq] in H1.
      destruct (Pos.compare_spec m 4503599627370496) as [Hc|Hc|Hc];
        try discriminate H1; [subst m; lia|].
      apply Pos2Z.pos_lt_pos in Hc. lia.
    - assert (2 ^ 53 <= 2 ^ (- e)) by (apply Z.pow_le_mono_r; lia). lia. }
  destruct Hval as [He Hm].
  pose proof (binary_round_bound 24 128 false m e 1 0 ltac:(lia) ltac:(lia)
                ltac:(lia) ltac:(lia)) as Hr.
  rewrite Z.mul_1_l in Hr. change (0 - e) with (- e) in Hr. specialize (Hr Hm).
  destruct (binary_round 24 128 false m e) as [s'|s'| |s' m' e']; try contradiction.
  - subst s'. reflexivity.
  - destruct Hr as (-> & He' & Hm' & Hfit & Hmin).
    rewrite Z.mul_1_l in Hm'. change (0 - e') with (- e') in Hm'.
    pose proof (digits2_bounds m') as Hb.
    pose proof (binary_round_widen m' e') as Hw.
    pose proof (widened_valid m' e') as Hv. cbv zeta in Hw, Hv.
    remember (Z.pos (digits2_pos m')) as d eqn:Hdd.
    assert (Hd : 1 <= d <= 24).
    { split; [subst d; lia|].
      destruct (Z.le_gt_cases d 24) as [|Hgt]; [assumption|].
      assert (2 ^ 24 <= 2 ^ (d - 1)) by (apply Z.pow_le_mono_r; lia). lia. }
    rewrite Hw by lia.
    unfold in_unit_interval. rewrite !leb_spec, Prim2SF_one.
    rewrite (Prim2SF_SF2Prim _ (Hv ltac:(lia) ltac:(lia) ltac:(lia))).
    change (Prim2SF 0) with (S754_zero false).
    apply andb_true_intro. split; [reflexivity|].
    assert (HP : 0 < 2 ^ (53 - d)) by (apply Z.pow_pos_nonneg; lia).
    assert (HQ : 0 < 2 ^ (- e')) by (apply Z.pow_pos_nonneg; lia).
    assert (Hbig : 2 ^ 52 <= Z.pos m' * 2 ^ (53 - d)).
    { replace (2 ^ 52) with (2 ^ (d - 1) * 2 ^ (53 - d))
        by (rewrite <- Z.pow_add_r by lia; f_equal; lia).
      apply Z.mul_le_mono_nonneg_r; lia. }
    assert (Hle : Z.pos m' * 2 ^ (53 - d) <= 2 ^ (- (e' - (53 - d)))).
    { replace (- (e' - (53 - d))) with (- e' + (53 - d)) by lia.
      rewrite Z.pow_add_r by lia. apply Z.mul_le_mono_nonneg_r; lia. }
    apply SFleb_one.
    + destruct (Z.le_gt_cases (e' - (53 - d)) (-52)) as [|Hgt]; [assumption|].
      assert (2 ^ (- (e' - (53 - d))) < 2 ^ 52) by (apply Z.pow_lt_mono_r; lia).
      lia.
    + rewrite Z2Pos.id by lia. exact Hle.
Qed.

(** The entry of a non-negative integer below [2^24] is the integer. *)
Lemma float32_of_Z (z : Z) : 0 <= z < 2 ^ 24 -> Tf.float32 (of_Z z) = of_Z z.
Proof.
  intros Hz. destruct (Z.eq_dec z 0) as [->|Hz0]; [reflexivity|].
  assert (Hz53 : 0 < z < 2 ^ 53) by lia.
  destruct (SF_of_pos_mantissa z Hz53) as (Hl & Hzl & HP & Hm).
  assert (Hl24 : Z.log2 z < 24) by (apply Z.log2_lt_pow2; lia).
  unfold Tf.float32. rewrite Prim2SF_of_Z by assumption. unfold SF_of_pos.
  set (l := Z.log2 z) in *. set (m := Z.to_pos (z * 2 ^ (52 - l))).
  assert (Hmz : Z.pos m = z * 2 ^ (52 - l)) by (subst m; apply Z2Pos.id; lia).
  assert (Hd : Z.pos (digits2_pos m) = 53) by (apply digits2_unique; rewrite Hmz; exact Hm).
  assert (Hsplit : z * 2 ^ (52 - l) = z * 2 ^ (23 - l) * 2 ^ 29).
  { rewrite <- Z.mul_assoc, <- Z.pow_add_r by lia. f_equal. f_equal. lia. }
  assert (HP23 : 0 < 2 ^ (23 - l)) by (apply Z.pow_pos_nonneg; lia).
  assert (Hround : binary_round 24 128 false m (l - 52)
                   = S754_finite false (Z.to_pos (z * 2 ^ (23 - l))) (l - 23)).
  { unfold binary_round. rewrite Hd.
    replace (fexp 24 128 (53 + (l - 52))) with (l - 23)
      by (unfold fexp, SpecFloat.emin; lia).
    unfold shl_align. replace (l - 23 - (l - 52)) with 29 by lia.
    rewrite (binary_round_aux_drop 24 128 ltac:(lia) m (l - 52) 29); try lia.
    - f_equal; [|lia]. f_equal. rewrite Hmz, Hsplit. apply Z.div_mul. lia.
    - rewrite Hmz, Hsplit. apply Z.mod_mul. lia. }
  rewrite Hround.
  rewrite (binary_round_integer _ (l - 23) z); try lia.
  - unfold of_Z. destruct z as [|q|q]; try lia. cbn [binary_normalize].
    now rewrite (binary_round_integer q 0 (Z.pos q)) by (try lia; simpl; lia).
  - rewrite Z2Pos.id by lia. f_equal. f_equal. lia.
Qed.

(** ** Features that are integers *)

(** The number of a non-negative integer below [2^53]. *)
Definition natural (x : float) : Prop :=
  exists z, 0 <= z < 2 ^ 53 /\ x = of_Z z.

Lemma natural_of_Z (z : Z) : 0 <= z < 2 ^ 53 -> natural (of_Z z).
Proof. intros Hz. now exists z. Qed.

(** A tensor entry that is a non-negative integer: the integers below
    [2^24] are binary32 floats. *)
Definition entry (x : float) : Prop :=
  exists z, 0 <= z < 2 ^ 24 /\ x = of_Z z.

Lemma entry_natural (x : float) : entry x -> natural x.
Proof. intros (z & Hz & ->). exists z. split; [lia | reflexivity]. Qed.

Lemma entry_finite (x : float) : entry x -> is_finite x = true.
Proof.
  intros (z & Hz & ->). apply isSafeInteger_finite.
  apply (isSafeInteger_intro _ z); [apply to_integer_of_Z|]; lia.
Qed.

Lemma natural_not_nan (x : float) : natural x -> is_nan x = false.
Proof.
  intros (z & Hz & ->). apply (to_integer_not_nan _ z). now apply to_integer_of_Z.
Qed.

Lemma of_Z_ltb (a b : Z) :
  0 <= a < 2 ^ 53 -> 0 <= b < 2 ^ 53 ->
  (of_Z a <? of_Z b)%float = (a <? b).
Proof.
  intros Ha Hb. rewrite ltb_spec.
  destruct (Z.eq_dec a 0) as [->|Ha0]; destruct (Z.eq_dec b 0) as [->|Hb0].
  - reflexivity.
  - rewrite of_Z_zero, Prim2SF_of_Z by lia. cbn.
    symmetry. apply Z.ltb_lt. lia.
  - rewrite of_Z_zero, Prim2SF_of_Z by lia. cbn.
    symmetry. apply Z.ltb_ge. lia.
  - rewrite !Prim2SF_of_Z by lia.
    destruct (SF_of_pos_mantissa a ltac:(lia)) as (Hla & Ha2 & HPa & Hma).
    destruct (SF_of_pos_mantissa b ltac:(lia)) as (Hlb & Hb2 & HPb & Hmb).
    unfold SF_of_pos, SFltb, SFcompare.
    destruct (Z.compare_spec (Z.log2 a - 52) (Z.log2 b - 52)) as [He|He|He].
    + assert (Hl : Z.log2 a = Z.log2 b) by lia. rewrite Hl in *.
      rewrite Pos.compare_cont_spec. cbn [Pos.switch_Eq].
      rewrite Pos2Z.inj_compare, !Z2Pos.id by lia.
      assert (HP : 0 < 2 ^ (52 - Z.log2 b)) by exact HPb.
      destruct (Z.compare_spec (a * 2 ^ (52 - Z.log2 b)) (b * 2 ^ (52 - Z.log2 b)))
        as [Hc|Hc|Hc]; symmetry.
      * apply Z.ltb_ge. apply Z.mul_cancel_r in Hc; lia.
      * apply Z.ltb_lt. apply Z.mul_lt_mono_pos_r in Hc; lia.
      * apply Z.ltb_ge. apply Z.mul_lt_mono_pos_r in Hc; lia.
    + symmetry. apply Z.ltb_lt.
      assert (2 ^ (Z.log2 a + 1) <= 2 ^ Z.log2 b) by (apply Z.pow_le_mono_r; lia).
      lia.
    + symmetry. apply Z.ltb_ge.
      assert (2 ^ (Z.log2 b + 1) <= 2 ^ Z.log2 a) by (apply Z.pow_le_mono_r; lia).
      lia.
Qed.

(** ** The bounds of a column *)

Lemma fold_entry_defined (step : float -> float -> float) (j : nat) :
  forall (rs : list (list float)) (r : list float) (v : float),
    nth_error (fold_left (Tf.map2 step) rs r) j = Some v ->
    exists u, nth_error r j = Some u.
Proof.
  induction rs as [|r' rs IH]; intros r v Hv; [now exists v|].
  cbn [fold_left] in Hv. destruct (IH _ _ Hv) as (u & Hu).
  apply map2_nth_error in Hu. destruct Hu as (a & b & Ha & _). now exists a.
Qed.

Section ColumnBound.

(** A reduction step that picks one of its arguments, and a relation
    [bound v x] between the pick and both. *)
Variable step : float -> float -> float.
Variable bound : float -> float -> Prop.

Hypothesis step_pick : forall a b, step a b = a \/ step a b = b.
Hypothesis bound_refl : forall a, natural a -> bound a a.
Hypothesis bound_l : forall a b, natural a -> natural b -> bound (step a b) a.
Hypothesis bound_r : forall a b, natural a -> natural b -> bound (step a b) b.
Hypothesis bound_trans :
  forall a b c, natural a -> natural b -> natural c ->
                bound a b -> bound b c -> bound a c.

Lemma step_natural (a b : float) : natural a -> natural b -> natural (step a b).
Proof. intros Ha Hb. destruct (step_pick a b) as [-> | ->]; assumption. Qed.

Lemma map2_step_natural (r r' : list float) :
  Forall natural r -> Forall natural r' -> Forall natural (Tf.map2 step r r').
Proof.
  intros Hr. revert r'. induction Hr as [|a r Ha _ IH]; intros r' Hr'; [constructor|].
  destruct Hr' as [|b r' Hb Hr']; [constructor|].
  cbn [Tf.map2]. constructor; [now apply step_natural | now apply IH].
Qed.

Lemma fold_bound (j : nat) :
  forall (rs : list (list float)) (r : list float) (v : float),
    Forall (Forall natural) (r :: rs) ->
    nth_error (fold_left (Tf.map2 step) rs r) j = Some v ->
    natural v
    /\ forall row a, In row (r :: rs) -> nth_error row j = Some a -> bound v a.
Proof.
  induction rs as [|r' rs IH]; intros r v Hall Hv.
  - cbn [fold_left] in Hv.
    assert (Hn : natural v).
    { inversion Hall as [|? ? Hr _]; subst.
      rewrite Forall_forall in Hr. apply Hr. now apply nth_error_In with j. }
    split; [exact Hn|]. intros row a [<-|[]] Ha.
    rewrite Hv in Ha. injection Ha as <-. now apply bound_refl.
  - cbn [fold_left] in Hv.
    inversion Hall as [|? ? Hr Hrest]; subst.
    inversion Hrest as [|? ? Hr' Hrs]; subst.
    assert (Hall' : Forall (Forall natural) (Tf.map2 step r r' :: rs))
      by (constructor; [now apply map2_step_natural | exact Hrs]).
    destruct (IH _ _ Hall' Hv) as (Hn & Hb). split; [exact Hn|].
    destruct (fold_entry_defined step j rs _ v Hv) as (u & Hu).
    pose proof (Hb _ u (or_introl eq_refl) Hu) as Hvu.
    apply map2_nth_error in Hu. destruct Hu as (a0 & b0 & Ha0 & Hb0 & ->).
    assert (Hna : natural a0).
    { rewrite Forall_forall in Hr. apply Hr. now apply nth_error_In with j. }
    assert (Hnb : natural b0).
    { rewrite Forall_forall in Hr'. apply Hr'. now apply nth_error_In with j. }
    intros row a [<-|[<-|Hin]] Ha.
    + rewrite Ha0 in Ha. injection Ha as <-.
      apply (bound_trans v (step a0 b0) a0); auto using step_natural.
    + rewrite Hb0 in Ha. injection Ha as <-.
      apply (bound_trans v (step a0 b0) b0); auto using step_natural.
    + apply (Hb row a); [now right | exact Ha].
Qed.

Lemma reduce_rows_bound (rows : list (list float)) (j : nat) (v : float) :
  Forall (Forall natural) rows ->
  nth_error (Tf.reduce_rows step rows) j = Some v ->
  natural v
  /\ forall row a, In row rows -> nth_error row j = Some a -> bound v a.
Proof.
  intros Hall Hv. destruct rows as [|r rs]; [destruct j; discriminate|].
  now apply fold_bound.
Qed.

End ColumnBound.

Lemma natural_leb (a b : float) :
  natural a -> natural b ->
  exists za zb, 0 <= za < 2 ^ 53 /\ 0 <= zb < 2 ^ 53
                /\ a = of_Z za /\ b = of_Z zb
                /\ (a <=? b)%float = (za <=? zb) /\ (a <? b)%float = (za <? zb).
Proof.
  intros (za & Hza & ->) (zb & Hzb & ->). exists za, zb.
  repeat split; try lia; [now apply of_Z_leb | now apply of_Z_ltb].
Qed.

(** The minimum of a column of integers is below every entry of the
    column, and the maximum above. *)
Lemma min_column_bound (rows : list (list float)) (j : nat) (v : float) :
  Forall (Forall natural) rows ->
  nth_error (Tf.reduce_rows Tf.min_step rows) j = Some v ->
  natural v
  /\ forall row a, In row rows -> nth_error row j = Some a ->
                   (v <=? a)%float = true.
Proof.
  apply (reduce_rows_bound Tf.min_step (fun v a => (v <=? a)%float = true)).
  - apply min_step_pick.
  - intros a (z & Hz & ->). rewrite of_Z_leb by assumption. apply Z.leb_le. lia.
  - intros a b Ha Hb. unfold Tf.min_step. rewrite (natural_not_nan b Hb). cbn [orb].
    destruct (natural_leb b a Hb Ha) as (zb & za & Hzb & Hza & -> & -> & Hle & Hlt).
    rewrite Hlt. destruct (Z.ltb_spec zb za).
    + rewrite Hle. apply Z.leb_le. lia.
    + rewrite of_Z_leb by assumption. apply Z.leb_le. lia.
  - intros a b Ha Hb. unfold Tf.min_step. rewrite (natural_not_nan b Hb). cbn [orb].
    destruct (natural_leb b a Hb Ha) as (zb & za & Hzb & Hza & -> & -> & Hle & Hlt).
    rewrite Hlt. destruct (Z.ltb_spec zb za).
    + rewrite of_Z_leb by assumption. apply Z.leb_le. lia.
    + rewrite of_Z_leb by assumption. apply Z.leb_le. lia.
  - intros a b c (za & Hza & ->) (zb & Hzb & ->) (zc & Hzc & ->).
    rewrite !of_Z_leb by assumption. rewrite !Z.leb_le. lia.
Qed.

Lemma max_step_pick (a b : float) : Tf.max_step a b = a \/ Tf.max_step a b = b.
Proof. unfold Tf.max_step. destruct (_ || _); auto. Qed.

Lemma max_column_bound (rows : list (list float)) (j : nat) (v : float) :
  Forall (Forall natural) rows ->
  nth_error (Tf.reduce_rows Tf.max_step rows) j = Some v ->
  natural v
  /\ forall row a, In row rows -> nth_error row j = Some a ->
                   (a <=? v)%float = true.
Proof.
  apply (reduce_rows_bound Tf.max_step (fun v a => (a <=? v)%float = true)).
  - apply max_step_pick.
  - intros a (z & Hz & ->). rewrite of_Z_leb by assumption. apply Z.leb_le. lia.
  - intros a b Ha Hb. unfold Tf.max_step. rewrite (natural_not_nan b Hb). cbn [orb].
    destruct (natural_leb a b Ha Hb) as (za & zb & Hza & Hzb & -> & -> & Hle & Hlt).
    rewrite Hlt. destruct (Z.ltb_spec za zb).
    + rewrite Hle. apply Z.leb_le. lia.
    + rewrite of_Z_leb by assumption. apply Z.leb_le. lia.
  - intros a b Ha Hb. unfold Tf.max_step. rewrite (natural_not_nan b Hb). cbn [orb].
    destruct (natural_leb a b Ha Hb) as (za & zb & Hza & Hzb & -> & -> & Hle & Hlt).
    rewrite Hlt. destruct (Z.ltb_spec za zb).
    + rewrite of_Z_leb by assumption. apply Z.leb_le. lia.
    + rewrite of_Z_leb by assumption. apply Z.leb_le. lia.
  - intros a b c (za & Hza & ->) (zb & Hzb & ->) (zc & Hzc & ->).
    rewrite !of_Z_leb by assumption. rewrite !Z.leb_le. lia.
Qed.

(** ** The normalized matrix *)

(** Every entry of a tensor is in [[0, 1]]. *)
Definition unit_entries (t : Tf.Tensor) : Prop :=
  Forall (Forall (fun v => in_unit_interval v = true)) (Tf.rows_of t).

Lemma normalized_entry_unit (a lo hi : float) :
  entry a -> entry lo -> entry hi ->
  (lo <=? a)%float = true -> (a <=? hi)%float = true ->
  in_unit_interval (Tf.div_no_nan (Tf.sub_entry a lo) (Tf.sub_entry hi lo)) = true.
Proof.
  intros (za & Hza & ->) (zl & Hzl & ->) (zh & Hzh & ->) H1 H2.
  rewrite of_Z_leb in H1, H2 by lia. apply Z.leb_le in H1, H2.
  unfold Tf.sub_entry. rewrite !of_Z_sub by lia. rewrite !float32_of_Z by lia.
  unfold Tf.div_no_nan.
  destruct (of_Z (zh - zl) =? 0)%float eqn:E; [reflexivity|].
  apply float32_unit, of_Z_div_unit; [lia|]. split; [|lia].
  destruct (Z.eq_dec zh zl) as [->|Hne]; [|lia].
  rewrite Z.sub_diag in E. discriminate E.
Qed.

Lemma entries_natural (rows : list (list float)) :
  Forall (Forall entry) rows -> Forall (Forall natural) rows.
Proof.
  apply Forall_impl. intros row. apply Forall_impl. exact entry_natural.
Qed.

Lemma column_bound_entry (step : float -> float -> float)
  (rows : list (list float)) (j : nat) (v : float) :
  (forall a b, step a b = a \/ step a b = b) ->
  Forall (Forall entry) rows ->
  nth_error (Tf.reduce_rows step rows) j = Some v ->
  entry v.
Proof.
  intros Hstep Hall Hv.
  destruct (reduce_rows_pick step rows j v Hstep Hv) as (row & Hrow & Hj).
  rewrite Forall_forall in Hall. specialize (Hall row Hrow).
  rewrite Forall_forall in Hall. apply Hall. now apply nth_error_In with j.
Qed.

(** The rows of [normalize] with the column minima and maxima of a matrix
    of integers: every entry is in [[0, 1]]. *)
Lemma normalized_rows_unit (rows : list (list float)) (row : list float) :
  Forall (Forall entry) rows -> In row rows ->
  Forall (fun v => in_unit_interval v = true)
         (Tf.map2 Tf.div_no_nan
            (Tf.map2 Tf.sub_entry row (Tf.reduce_rows Tf.min_step rows))
            (Tf.map2 Tf.sub_entry (Tf.reduce_rows Tf.max_step rows)
                     (Tf.reduce_rows Tf.min_step rows))).
Proof.
  intros Hall Hrow. pose proof (entries_natural rows Hall) as Hnat.
  apply Forall_forall. intros x Hx.
  apply In_nth_error in Hx. destruct Hx as (j & Hj).
  apply map2_nth_error in Hj. destruct Hj as (d & r & Hd & Hr & ->).
  apply map2_nth_error in Hd. destruct Hd as (a & lo & Ha & Hlo & ->).
  apply map2_nth_error in Hr. destruct Hr as (hi & lo' & Hhi & Hlo' & ->).
  rewrite Hlo in Hlo'. injection Hlo' as <-.
  destruct (min_column_bound rows j lo Hnat Hlo) as (_ & Hmin).
  destruct (max_column_bound rows j hi Hnat Hhi) as (_ & Hmax).
  apply normalized_entry_unit.
  - rewrite Forall_forall in Hall. specialize (Hall row Hrow).
    rewrite Forall_forall in Hall. apply Hall. now apply nth_error_In with j.
  - exact (column_bound_entry _ rows j lo min_step_pick Hall Hlo).
  - exact (column_bound_entry _ rows j hi max_step_pick Hall Hhi).
  - now apply (Hmin row).
  - now apply (Hmax row).
Qed.

(** [normalize] with the column minima and maxima of a matrix of integers
    maps every entry into [[0, 1]]. *)
Lemma normalize_unit (rows : list (list float)) :
  Forall (Forall entry) rows ->
  unit_entries (normalize (Tf.Mat rows) (Tf.min0 (Tf.Mat rows))
                          (Tf.max0 (Tf.Mat rows))).
Proof.
  intros Hall. unfold unit_entries. cbn [Tf.min0 Tf.max0].
  rewrite normalize_rows. cbn [Tf.rows_of].
  apply Forall_forall. intros nrow Hn.
  apply in_map_iff in Hn. destruct Hn as (row & <- & Hrow).
  now apply normalized_rows_unit.
Qed.

Lemma slice_dim_In {A : Type} (b n : float) (l : list A) (x : A) :
  In x (Tf.slice_dim b n l) -> In x l.
Proof.
  assert (Hs : forall k, In x (skipn k l) -> In x l).
  { intros k H. rewrite <- (firstn_skipn k l). apply in_or_app. now right. }
  assert (Hf : forall k l', In x (firstn k l') -> In x l').
  { intros k l' H. rewrite <- (firstn_skipn k l'). apply in_or_app. now left. }
  unfold Tf.slice_dim.
  destruct (to_integer n) as [[|p|[p|p|]]|]; intros H;
    try (apply Hf in H); now apply Hs in H.
Qed.

(** A block of whole rows of a tensor has entries of the tensor. *)
Lemma slice_unit (t : Tf.Tensor) (b n : float) :
  unit_entries (Tf.Mat (Tf.rows_of t)) ->
  match t with
  | Tf.Mat _ => unit_entries (Tf.slice t (b, 0%float) (n, (-1)%float))
  | Tf.Vec _ => True
  end.
Proof.
  destruct t as [v|rows]; [trivial|]. unfold unit_entries, Tf.slice.
  cbn [Tf.rows_of fst snd]. intros Hall.
  apply Forall_forall. intros r Hr.
  apply in_map_iff in Hr. destruct Hr as (r0 & <- & Hr0).
  rewrite slice_dim_all. rewrite Forall_forall in Hall. apply Hall.
  now apply slice_dim_In in Hr0.
Qed.

Lemma same_base_features (l l' : list Product) :
  Forall2 same_base l l' -> map features l' = map features l.
Proof.
  induction 1 as [|p q l l' (_ & _ & Hc & Ha & Hd & _) _ IH]; [reflexivity|].
  cbn [map]. rewrite IH. unfold features. now rewrite Hc, Ha, Hd.
Qed.

(** ** The ranges of the generated fields *)

(** A number of magnitude at most [1] is a zero or [m * 2^e] with
    [m <= 2^(-e)]. *)
Lemma unit_magnitude_value (s : float) :
  (abs s <=? 1)%float = true ->
  match Prim2SF s with
  | S754_zero _ => True
  | S754_finite _ m e => e <= -52 /\ Z.pos m <= 2 ^ (- e)
  | S754_infinity _ | S754_nan => False
  end.
Proof.
  intros Hle. pose proof (unit_magnitude s Hle) as Hu.
  rewrite leb_spec, abs_spec, Prim2SF_one in Hle.
  destruct (Prim2SF s) as [sg|sg| |sg m e]; try exact Hu.
  destruct Hu as [He Hm]. split; [exact He|].
  cbn [SFabs] in Hle. unfold SFleb, SFcompare in Hle.
  destruct (Z.compare_spec e (-52)) as [He52|He52|He52]; [| |lia].
  - subst e. change (2 ^ (- (-52))) with 4503599627370496.
    rewrite Pos.compare_cont_spec in Hle. cbn [Pos.switch_Eq] in Hle.
    destruct (Pos.compare_spec m 4503599627370496) as [Hc|Hc|Hc];
      try discriminate Hle; [subst m; lia|].
    apply Pos2Z.pos_lt_pos in Hc. lia.
  - assert (2 ^ 53 <= 2 ^ (- e)) by (apply Z.pow_le_mono_r; lia). lia.
Qed.

(** The magnitude of the product of such a number with the number of a
    small integer [C] is at most [C]. *)
Lemma scaled_magnitude (s c : float) (mc : positive) (ec C : Z) :
  Prim2SF c = S754_finite false mc ec -> -1074 <= ec < 0 ->
  Z.pos mc = C * 2 ^ (- ec) -> Z.pos mc < 2 ^ 53 ->
  (abs s <=? 1)%float = true ->
  match Prim2SF (abs (s * c)) with
  | S754_zero sg => sg = false
  | S754_finite sg m e => sg = false /\ e < 0 /\ Z.pos m <= C * 2 ^ (- e)
  | S754_infinity _ | S754_nan => False
  end.
Proof.
  intros Hc Hec HC Hmc Hs. apply unit_magnitude_value in Hs.
  rewrite abs_spec, mul_spec, Hc.
  destruct (Prim2SF s) as [sg|sg| |sg m e]; try contradiction.
  - reflexivity.
  - destruct Hs as [He Hm]. unfold SF64mul, SFmul.
    assert (HP : 0 < 2 ^ (- e)) by (apply Z.pow_pos_nonneg; lia).
    assert (Hprod : Z.pos (m * mc) <= Z.pos mc * 2 ^ (ec - (e + ec))).
    { replace (ec - (e + ec)) with (- e) by lia. rewrite Pos2Z.inj_mul.
      rewrite (Z.mul_comm (Z.pos m)). apply Z.mul_le_mono_nonneg_l; lia. }
    pose proof (binary64_round_bound (xorb sg false) (Z.pos (m * mc)) (e + ec)
                  loc_Exact (Z.pos mc) ec ltac:(lia) ltac:(lia) ltac:(lia)
                  ltac:(lia) Hprod ltac:(intros H; now destruct H)) as Hr.
    destruct (binary_round_aux prec emax (xorb sg false) (Z.pos (m * mc)) (e + ec)
                               loc_Exact) as [sg'|sg'| |sg' m' e'];
      try contradiction; cbn [SFabs]; [reflexivity|].
    destruct Hr as (_ & He' & Hm'). split; [reflexivity|]. split; [lia|].
    rewrite HC in Hm'. rewrite <- Z.mul_assoc, <- Z.pow_add_r in Hm' by lia.
    replace (- ec + (ec - e')) with (- e') in Hm' by lia. exact Hm'.
Qed.

(** [Math.round] of a non-negative number of at most [C] is the number of
    an integer of at most [C]. *)
Lemma Math_round_bounded (y : float) (C : Z) :
  0 <= C < 2 ^ 53 - 1 ->
  match Prim2SF y with
  | S754_zero sg => sg = false
  | S754_finite sg m e => sg = false /\ e < 0 /\ Z.pos m <= C * 2 ^ (- e)
  | S754_infinity _ | S754_nan => False
  end ->
  exists q, 0 <= q <= C /\ Math_round y = of_Z q.
Proof.
  intros HCb Hy. unfold Math_round.
  destruct (Prim2SF y) as [sg|sg| |sg m e] eqn:Hp; try contradiction.
  - exists 0. split; [lia|]. apply Prim2SF_inj. rewrite Hp, Hy. reflexivity.
  - destruct Hy as (-> & He & Hm).
    destruct (Z.leb_spec 0 e); [lia|]. cbn [signed].
    set (P := 2 ^ (- e)) in *.
    assert (HP : 2 <= P).
    { subst P. change 2 with (2 ^ 1) at 1. apply Z.pow_le_mono_r; lia. }
    assert (HP2 : 2 ^ (- e + 1) = 2 * P).
    { subst P. rewrite Z.pow_add_r by lia. lia. }
    rewrite HP2.
    set (q := (2 * Z.pos m + P) / (2 * P)).
    assert (Hq : 0 <= q <= C).
    { subst q. split; [apply Z.div_pos; lia|].
      apply Z.lt_succ_r, Z.div_lt_upper_bound; [lia|].
      replace (2 * P * Z.succ C) with (2 * (C * P) + 2 * P) by ring. lia. }
    destruct (Z.eqb_spec q 0) as [Hq0|Hq0].
    + exists 0. split; [lia | reflexivity].
    + exists q. split; [lia | reflexivity].
Qed.

Lemma Math_max_of_Z (a b : Z) :
  0 <= a < 2 ^ 53 -> 0 <= b < 2 ^ 53 ->
  Math_max (of_Z a) (of_Z b) = of_Z (Z.max a b).
Proof.
  intros Ha Hb. unfold Math_max.
  rewrite (natural_not_nan _ (natural_of_Z a Ha)).
  rewrite (natural_not_nan _ (natural_of_Z b Hb)). cbn [orb].
  rewrite !of_Z_ltb by assumption.
  destruct (Z.ltb_spec a b); [f_equal; lia|].
  destruct (Z.ltb_spec b a); [f_equal; lia|].
  destruct (get_sign (of_Z a)); f_equal; lia.
Qed.

Lemma Prim2SF_400_value : 7036874417766400 = 400 * 2 ^ (- (-44)).
Proof. reflexivity. Qed.

Lemma Prim2SF_120_value : 8444249301319680 = 120 * 2 ^ (- (-46)).
Proof. reflexivity. Qed.

(** The data model of a record: the three features are the numbers of
    integers in their ranges, and the label is [0] or [1]. *)
Definition in_range (p : Product) : Prop :=
  exists c a d,
    currentInventory p = of_Z c /\ 0 <= c <= 400
    /\ avgSalesPerWeek p = of_Z a /\ 1 <= a <= 120
    /\ daysToReplenish p = of_Z d /\ 1 <= d <= 21
    /\ (reorder p = 0%float \/ reorder p = 1%float).

Lemma same_base_in_range (l l' : list Product) :
  Forall2 same_base l l' -> Forall in_range l -> Forall in_range l'.
Proof.
  induction 1 as [|p q l l' Hpq _ IH]; intros Hl; [constructor|].
  inversion Hl as [|? ? Hp Hl']; subst. constructor; [|now apply IH].
  destruct Hpq as (_ & _ & Hi & Ha & Hd & Hr).
  destruct Hp as (c & a & d & Hp). exists c, a, d.
  now rewrite <- Hi, <- Ha, <- Hd, <- Hr.
Qed.

(** The features of such a record are binary32 floats: the tensors hold
    them as they are. *)
Lemma in_range_entries (p : Product) : in_range p -> feature_row p = features p.
Proof.
  unfold feature_row, features. intros (c & a & d & -> & Hc & -> & Ha & -> & Hd & _).
  cbn [map]. now rewrite !float32_of_Z by lia.
Qed.

Lemma in_range_entry (p : Product) : in_range p -> Forall entry (feature_row p).
Proof.
  intros Hp. rewrite (in_range_entries p Hp). unfold features.
  destruct Hp as (c & a & d & -> & Hc & -> & Ha & -> & Hd & _).
  repeat constructor; eexists; (split; [|reflexivity]); lia.
Qed.

(** The tensor that [model.predict] is called on, row by row. *)
Lemma input_norm_rows (items : list Product) :
  input_norm items = Tf.Mat (map (normalized_row items) items).
Proof.
  unfold input_norm, bounds_of, Tf.tensor2d. cbn [fst snd Tf.min0 Tf.max0].
  rewrite normalize_rows, !map_map. reflexivity.
Qed.

Lemma reduce_rows_length (step : float -> float -> float)
  (rows : list (list float)) (n : nat) :
  rows <> [] -> Forall (fun row => List.length row = n) rows ->
  List.length (Tf.reduce_rows step rows) = n.
Proof.
  intros Hne Hall. destruct rows as [|r rs]; [contradiction|].
  unfold Tf.reduce_rows. apply Forall_cons_iff in Hall. destruct Hall as [Hr Hrs].
  clear Hne. revert r Hr. induction Hrs as [|r' rs Hr' _ IH]; intros r Hr; [exact Hr|].
  cbn [fold_left]. apply IH. rewrite map2_length, Hr, Hr'. apply Nat.min_id.
Qed.

Lemma normalized_row_length (items : list Product) (p : Product) :
  items <> [] -> List.length (normalized_row items p) = 3%nat.
Proof.
  intros Hne. unfold normalized_row, feature_min, feature_max.
  assert (Hrows : map feature_row items <> [])
    by (destruct items; [contradiction | discriminate]).
  assert (Hall : Forall (fun row => List.length row = 3%nat) (map feature_row items)).
  { apply Forall_forall. intros row Hrow. apply in_map_iff in Hrow.
    now destruct Hrow as (q & <- & _). }
  rewrite !map2_length.
  rewrite (reduce_rows_length Tf.min_step _ 3 Hrows Hall).
  rewrite (reduce_rows_length Tf.max_step _ 3 Hrows Hall). reflexivity.
Qed.

Section OwnFields.

Variable Math_sin Math_cos : float -> float.
Variable toString_other : float -> string.
Variable Model : Type.
Variable tf_fit :
  nat -> Tf.Tensor -> Tf.Tensor -> Tf.Tensor -> Tf.Tensor ->
  Outcome (Model * option (list float)).
Variable tf_predict : Model -> Tf.Tensor -> Outcome (list float).

(** What is assumed of the host: the sine and the cosine of a finite
    number are at most [1] in magnitude.  The generator calls them at
    [i * 11] and [i * 7], which are finite (see [sin_argument_finite]). *)
Hypothesis sin_bounded :
  forall x, is_finite x = true -> (abs (Math_sin x) <=? 1)%float = true.
Hypothesis cos_bounded :
  forall x, is_finite x = true -> (abs (Math_cos x) <=? 1)%float = true.

Lemma product_at_in_range (i : Z) :
  0 <= i < 2 ^ 53 -> in_range (product_at Math_sin Math_cos i).
Proof.
  intros Hi.
  destruct (Math_round_bounded (Math_abs (Math_cos (of_Z i * 7) * 400)%float) 400
              ltac:(lia)) as (c & Hc & Hrc).
  { unfold Math_abs.
    apply (scaled_magnitude _ _ _ (-44) 400 Prim2SF_400 ltac:(lia)
             Prim2SF_400_value ltac:(lia)).
    apply cos_bounded, cos_argument_finite, Hi. }
  destruct (Math_round_bounded (Math_abs (Math_sin (of_Z i * 11) * 120)%float) 120
              ltac:(lia)) as (a & Ha & Hra).
  { unfold Math_abs.
    apply (scaled_magnitude _ _ _ (-46) 120 Prim2SF_120 ltac:(lia)
             Prim2SF_120_value ltac:(lia)).
    apply sin_bounded, sin_argument_finite, Hi. }
  pose proof (Z.rem_bound_pos i 21 ltac:(lia) ltac:(lia)) as Hr.
  exists (Z.max 0 c), (Z.max 1 a), (1 + Z.rem i 21).
  unfold product_at. cbn [currentInventory avgSalesPerWeek daysToReplenish reorder].
  rewrite Hrc, Hra.
  change 0%float with (of_Z 0) at 1. change 1%float with (of_Z 1) at 1 2.
  rewrite !Math_max_of_Z, of_Z_add by lia.
  repeat split; try lia.
  match goal with |- context [if ?b then _ else _] => destruct b end; auto.
Qed.

Lemma generated_in_range (count : Z) :
  count < 2 ^ 53 -> Forall in_range (generateProducts Math_sin Math_cos count).
Proof.
  intros Hc. rewrite generateProducts_map. apply Forall_forall. intros p Hp.
  apply in_map_iff in Hp. destruct Hp as (i & <- & Hi). apply Zseq_In in Hi.
  apply product_at_in_range. lia.
Qed.

Lemma own_in_range (ps : list Product) :
  own_records Math_sin Math_cos ps -> Forall in_range ps.
Proof.
  intros [->|Hbase]; [constructor|].
  apply (same_base_in_range _ _ Hbase), generated_in_range. lia.
Qed.

(** Every record the generator builds, every record of every page the
    events lead to, and every record a suspended cycle works on, keeps to
    the data model: [currentInventory] is an integer of [[0, 400]],
    [avgSalesPerWeek] an integer of [[1, 120]], [daysToReplenish] an integer
    of [[1, 21]], and [reorder] is [0] or [1]. *)
Theorem records_in_range (count : Z) (pg : Page Model) :
  count < 2 ^ 53 ->
  page_reachable Math_sin Math_cos toString_other Model tf_fit tf_predict pg ->
  Forall in_range (generateProducts Math_sin Math_cos count)
  /\ Forall in_range (products (component pg))
  /\ Forall (fun w => Forall in_range (items_of w)) (suspended pg).
Proof.
  intros Hc Hpg. destruct (page_records _ _ _ _ _ _ pg Hpg) as [Hown Hitems].
  split; [now apply generated_in_range|]. split; [now apply own_in_range|].
  revert Hitems. apply Forall_impl. intros w Hw. apply own_in_range. now right.
Qed.

Lemma own_entries (ps : list Product) :
  own_records Math_sin Math_cos ps -> Forall (Forall entry) (map feature_row ps).
Proof.
  intros Hown. pose proof (own_in_range ps Hown) as Hr.
  apply Forall_forall. intros row Hrow.
  apply in_map_iff in Hrow. destruct Hrow as (p & <- & Hp).
  rewrite Forall_forall in Hr. apply in_range_entry. now apply Hr.
Qed.

Lemma own_unit_rows (ps : list Product) :
  own_records Math_sin Math_cos ps ->
  Forall (fun p =>
            List.length (normalized_row ps p) = 3%nat
            /\ Forall (fun v => in_unit_interval v = true) (normalized_row ps p))
         ps.
Proof.
  intros Hown. apply Forall_forall. intros p Hp. split.
  - apply normalized_row_length. intros ->. destruct Hp.
  - apply (normalized_rows_unit (map feature_row ps) (feature_row p)).
    + now apply own_entries.
    + now apply in_map.
Qed.

(** On every page the events lead to, the tensors of features that a
    click on "Train" hands to the network have one row of three entries per
    record, each entry in [[0, 1]]: the input of [model.predict], and the
    training and the validation inputs of [model.fit], which are blocks of
    its rows. *)
Theorem network_inputs_in_unit_interval (pg : Page Model) :
  page_reachable Math_sin Math_cos toString_other Model tf_fit tf_predict pg ->
  let ps := products (component pg) in
  input_norm ps = Tf.Mat (map (normalized_row ps) ps)
  /\ Forall (fun p =>
               List.length (normalized_row ps p) = 3%nat
               /\ Forall (fun v => in_unit_interval v = true) (normalized_row ps p))
            ps
  /\ let '(xTrain, _, xVal, _) := train_val_split ps in
     unit_entries xTrain /\ unit_entries xVal.
Proof.
  intros Hpg ps. destruct (page_records _ _ _ _ _ _ pg Hpg) as [Hown _].
  fold ps in Hown. pose proof (own_unit_rows ps Hown) as Hrows.
  split; [apply input_norm_rows|]. split; [exact Hrows|].
  assert (Hunit : unit_entries (Tf.Mat (map (normalized_row ps) ps))).
  { unfold unit_entries. cbn [Tf.rows_of]. apply Forall_forall. intros row Hrow.
    apply in_map_iff in Hrow. destruct Hrow as (p & <- & Hp).
    rewrite Forall_forall in Hrows. now apply Hrows. }
  unfold train_val_split.
  change (normalize (Tf.tensor2d (map features ps))
                    (Tf.min0 (Tf.tensor2d (map features ps)))
                    (Tf.max0 (Tf.tensor2d (map features ps))))
    with (input_norm ps).
  rewrite input_norm_rows. split.
  - exact (slice_unit (Tf.Mat _) _ _ Hunit).
  - exact (slice_unit (Tf.Mat _) _ _ Hunit).
Qed.

(** On every page the events lead to, a feature column whose maximum
    equals its minimum is normalized to [0] in every record: the tensor
    that [model.predict] is called on has one row per record, with [0] in
    that column.  The features are finite, so the range of the column is a
    zero. *)
Theorem own_constant_column (pg : Page Model) (j : nat) (lo hi : float) :
  page_reachable Math_sin Math_cos toString_other Model tf_fit tf_predict pg ->
  let ps := products (component pg) in
  nth_error (feature_min ps) j = Some lo ->
  nth_error (feature_max ps) j = Some hi ->
  (hi =? lo)%float = true ->
  exists out,
    input_norm ps = Tf.Mat out
    /\ Forall2 (fun (p : Product) row => nth_error row j = Some 0%float) ps out.
Proof.
  intros Hpg ps Hlo Hhi Heq.
  destruct (page_records _ _ _ _ _ _ pg Hpg) as [Hown _]. fold ps in Hown.
  pose proof (own_entries ps Hown) as Hent.
  assert (Hfin : is_finite lo = true).
  { apply entry_finite.
    exact (column_bound_entry _ _ j lo min_step_pick Hent Hlo). }
  assert (Hj : forall p, In p ps -> exists x, nth_error (feature_row p) j = Some x).
  { intros p Hp.
    destruct (reduce_rows_pick _ _ _ _ min_step_pick Hlo) as (row & Hrow & Hx).
    apply in_map_iff in Hrow. destruct Hrow as (q & <- & _).
    assert (Hlt : (j < 3)%nat).
    { change 3%nat with (List.length (feature_row q)). apply nth_error_Some.
      now rewrite Hx. }
    destruct (nth_error (feature_row p) j) as [x|] eqn:E; [now exists x|].
    apply nth_error_None in E. cbn in E. lia. }
  exists (map (normalized_row ps) ps). split; [apply input_norm_rows|].
  clear Hown Hent.
  assert (Hgen : forall l, (forall p, In p l -> In p ps) ->
                           Forall2 (fun (p : Product) row => nth_error row j = Some 0%float)
                                   l (map (normalized_row ps) l)).
  { induction l as [|p l IH]; intros Hl; cbn [map]; constructor.
    - destruct (Hj p (Hl p (or_introl eq_refl))) as (x & Hx).
      exact (normalized_entry_zero _ _ _ j lo hi x Hlo Hhi Heq Hfin Hx).
    - apply IH. intros q Hq. apply Hl. now right. }
  apply Hgen. auto.
Qed.

End OwnFields.


(** * The business rule in exact arithmetic *)

(** The triples (inventory, sales, days) of the data model on which
    [28 * inventory = 5 * sales * days], so that the inventory equals the
    expected consumption with its safety factor, and on which the rounded
    product of the program is above the inventory. *)
Definition rounded_up_ties : list (Z * Z * Z) :=
  [(135, 42, 18); (135, 84, 9); (270, 84, 18); (315, 98, 18)].

Definition triple_eqb (t u : Z * Z * Z) : bool :=
  (fst (fst t) =? fst (fst u)) && (snd (fst t) =? snd (fst u)) && (snd t =? snd u).

(** [inventory < sales * (days / 7) * 1.25] over the rationals, with the
    four ties. *)
Definition exact_rule (c a d : Z) : bool :=
  (28 * c <? 5 * a * d) || existsb (triple_eqb (c, a, d)) rounded_up_ties.

(** The integers of a range with their numbers. *)
Definition numbered (s : Z) (n : nat) : list (Z * float) :=
  map (fun z => (z, of_Z z)) (Zseq s n).

(** The comparison of the program against [exact_rule] on the triples of
    three lists. *)
Definition table_agrees (cs aas ds : list (Z * float)) : bool :=
  forallb (fun a =>
    forallb (fun d =>
      let limit := (snd a * (snd d / 7) * 1.25)%float in
      forallb (fun c =>
        Bool.eqb (snd c <? limit)%float (exact_rule (fst c) (fst a) (fst d)))
        cs) ds) aas.

Lemma table_agrees_spec (cs aas ds : list (Z * float)) :
  table_agrees cs aas ds = true ->
  forall c a d, In c cs -> In a aas -> In d ds ->
    (snd c <? snd a * (snd d / 7) * 1.25)%float
    = exact_rule (fst c) (fst a) (fst d).
Proof.
  unfold table_agrees. intros H c a d Hc Ha Hd.
  rewrite forallb_forall in H. specialize (H a Ha).
  rewrite forallb_forall in H. specialize (H d Hd). cbv zeta in H.
  rewrite forallb_forall in H. specialize (H c Hc).
  now apply Bool.eqb_prop in H.
Qed.

(** The table over the whole data model. *)
Lemma rule_table :
  table_agrees (numbered 0 401) (numbered 1 120) (numbered 1 21) = true.
Proof. vm_compute. reflexivity. Qed.

Lemma numbered_In (s : Z) (n : nat) (z : Z) :
  s <= z < s + Z.of_nat n -> In (z, of_Z z) (numbered s n).
Proof.
  intros Hz. unfold numbered.
  apply (in_map (fun z => (z, of_Z z))). now apply Zseq_In.
Qed.

Lemma float_rule_exact (c a d : Z) :
  0 <= c <= 400 -> 1 <= a <= 120 -> 1 <= d <= 21 ->
  (of_Z c <? of_Z a * (of_Z d / 7) * 1.25)%float = exact_rule c a d.
Proof.
  intros Hc Ha Hd.
  apply (table_agrees_spec _ _ _ rule_table (c, of_Z c) (a, of_Z a) (d, of_Z d));
    apply numbered_In; lia.
Qed.

Lemma exact_rule_spec (c a d : Z) :
  exact_rule c a d = true
  <-> 28 * c < 5 * a * d \/ In (c, a, d) rounded_up_ties.
Proof.
  unfold exact_rule. rewrite orb_true_iff, Z.ltb_lt, existsb_exists.
  split; intros [H|H]; auto; right.
  - destruct H as (((c' & a') & d') & Hin & Heq). unfold triple_eqb in Heq.
    cbn [fst snd] in Heq. apply andb_prop in Heq. destruct Heq as [Heq Hd].
    apply andb_prop in Heq. destruct Heq as [Hc Ha].
    apply Z.eqb_eq in Hc, Ha, Hd. now subst.
  - exists (c, a, d). split; [exact H|]. unfold triple_eqb. cbn [fst snd].
    now rewrite !Z.eqb_refl.
Qed.

(** The label of a record against the rule over the rationals. *)
Definition labelled_exactly (p : Product) : Prop :=
  exists c a d,
    currentInventory p = of_Z c /\ 0 <= c <= 400
    /\ avgSalesPerWeek p = of_Z a /\ 1 <= a <= 120
    /\ daysToReplenish p = of_Z d /\ 1 <= d <= 21
    /\ (reorder p = 1%float
        <-> 28 * c < 5 * a * d \/ In (c, a, d) rounded_up_ties)
    /\ (In (c, a, d) rounded_up_ties -> 28 * c = 5 * a * d).

Lemma ties_are_ties (c a d : Z) :
  In (c, a, d) rounded_up_ties -> 28 * c = 5 * a * d.
Proof.
  intros [H|[H|[H|[H|[]]]]]; injection H as <- <- <-; reflexivity.
Qed.

Lemma in_range_labelled_exactly (p : Product) :
  in_range p -> labelled_by_rule p -> labelled_exactly p.
Proof.
  intros (c & a & d & Hc & Hcr & Ha & Har & Hd & Hdr & _) Hl.
  exists c, a, d. repeat (split; [assumption|]). split; [|apply ties_are_ties].
  rewrite <- exact_rule_spec, <- (float_rule_exact c a d) by assumption.
  unfold labelled_by_rule, rule_holds in Hl. rewrite Hc, Ha, Hd in Hl.
  rewrite Hl. destruct (of_Z c <? of_Z a * (of_Z d / 7) * 1.25)%float.
  - split; reflexivity.
  - split; [|discriminate]. intros H. symmetry in H.
    now apply float_one_not_zero in H.
Qed.

Section ExactRule.

Variable Math_sin Math_cos : float -> float.
Variable toString_other : float -> string.
Variable Model : Type.
Variable tf_fit :
  nat -> Tf.Tensor -> Tf.Tensor -> Tf.Tensor -> Tf.Tensor ->
  Outcome (Model * option (list float)).
Variable tf_predict : Model -> Tf.Tensor -> Outcome (list float).

Lemma own_labelled (ps : list Product) :
  own_records Math_sin Math_cos ps -> Forall labelled_by_rule ps.
Proof.
  intros [->|Hbase]; [constructor|].
  apply (same_base_labelled _ _ Hbase).
  rewrite generateProducts_map. apply Forall_forall. intros p Hp.
  apply in_map_iff in Hp. destruct Hp as (i & <- & _). apply product_at_labelled.
Qed.

(** On every page the events lead to, the label of every record, on the
    page and in a suspended cycle, is the one of the business rule on the
    record's own features: [1] when the rule holds of them and [0]
    otherwise, before, during and after any number of cycles. *)
Theorem page_labels_follow_rule (pg : Page Model) :
  page_reachable Math_sin Math_cos toString_other Model tf_fit tf_predict pg ->
  Forall (fun p => reorder p = (if rule_holds p then 1 else 0)%float)
         (products (component pg))
  /\ Forall (fun w =>
               Forall (fun p => reorder p = (if rule_holds p then 1 else 0)%float)
                      (items_of w))
            (suspended pg).
Proof.
  intros Hpg. destruct (page_records _ _ _ _ _ _ pg Hpg) as [Hown Hitems].
  split; [exact (own_labelled _ Hown)|].
  revert Hitems. apply Forall_impl. intros w Hw. apply own_labelled. now right.
Qed.

(** What is assumed of the host: the sine and the cosine of a finite
    number are at most [1] in magnitude. *)
Hypothesis sin_bounded :
  forall x, is_finite x = true -> (abs (Math_sin x) <=? 1)%float = true.
Hypothesis cos_bounded :
  forall x, is_finite x = true -> (abs (Math_cos x) <=? 1)%float = true.

(** On every page the events lead to, the label of a record is [1]
    exactly when [28 * inventory < 5 * sales * days] over the integers,
    which is [inventory < sales * (days / 7) * 1.25] over the rationals, or
    when the record is one of four ties, where the two sides are equal and
    the rounding of the program's product decides for [1]. *)
Theorem label_is_exact_rule (pg : Page Model) :
  page_reachable Math_sin Math_cos toString_other Model tf_fit tf_predict pg ->
  Forall labelled_exactly (products (component pg)).
Proof.
  intros Hpg. destruct (page_records _ _ _ _ _ _ pg Hpg) as [Hown _].
  pose proof (own_in_range Math_sin Math_cos sin_bounded cos_bounded _ Hown) as Hr.
  pose proof (own_labelled _ Hown) as Hl.
  rewrite Forall_forall in *. intros p Hp.
  apply in_range_labelled_exactly; auto.
Qed.

End ExactRule.


(** * The blocks of the page's own cycles *)

Lemma Forall2_length_eq {A B : Type} (R : A -> B -> Prop) (l : list A) (l' : list B) :
  Forall2 R l l' -> List.length l' = List.length l.
Proof. induction 1; cbn [List.length]; congruence. Qed.

(** The four tensors of a cycle over 150 records. *)
Lemma train_val_split_150 (items : list Product) :
  List.length items = 150%nat ->
  train_val_split items
  = ( Tf.Mat (map (normalized_row items) (firstn 120 items)),
      Tf.Mat (map label_row (firstn 120 items)),
      Tf.Mat (map (normalized_row items) (skipn 120 items)),
      Tf.Mat (map label_row (skipn 120 items)) ).
Proof.
  intros Hlen. unfold train_val_split, Tf.tensor2d. rewrite Hlen.
  cbn [Tf.min0 Tf.max0]. rewrite normalize_rows, !map_map.
  change (fun x : Product => map Tf.float32 (features x)) with feature_row.
  fold (feature_min items) (feature_max items).
  assert (H0 : to_integer 0%float = Some 0) by reflexivity.
  assert (Hs : to_integer (split_of (of_Z (Z.of_nat 150))) = Some 120)
    by (vm_compute; reflexivity).
  assert (Hv : to_integer (of_Z (Z.of_nat 150) - split_of (of_Z (Z.of_nat 150)))%float
               = Some 30) by (vm_compute; reflexivity).
  rewrite (slice_rows _ 0%float _ 0 120 H0 Hs) by lia.
  rewrite (slice_rows _ 0%float _ 0 120 H0 Hs) by lia.
  rewrite (slice_rows _ _ _ 120 30 Hs Hv) by lia.
  rewrite (slice_rows _ _ _ 120 30 Hs Hv) by lia.
  change (Z.to_nat 0) with O. change (Z.to_nat 120) with 120%nat.
  change (Z.to_nat 30) with 30%nat. rewrite !skipn_O.
  assert (Hall : forall (B : Type) (l : list B),
             List.length l = 150%nat -> firstn 30 (skipn 120 l) = skipn 120 l).
  { intros B l Hl. apply firstn_all2. rewrite length_skipn, Hl. lia. }
  rewrite !Hall by (rewrite length_map; exact Hlen).
  now rewrite <- !firstn_map, <- !skipn_map.
Qed.

Section OwnBlocks.

Variable Math_sin Math_cos : float -> float.
Variable toString_other : float -> string.
Variable Model : Type.
Variable tf_fit :
  nat -> Tf.Tensor -> Tf.Tensor -> Tf.Tensor -> Tf.Tensor ->
  Outcome (Model * option (list float)).
Variable tf_predict : Model -> Tf.Tensor -> Outcome (list float).

(** Every cycle the page runs fits on the records with the ids
    [1 .. 120], in this order, and validates on the records with the ids
    [121 .. 150]: the validation block is never shuffled into the training
    block, and it is the same 30 records in every cycle. *)
Theorem page_cycle_blocks (seed : nat) (s : AppState Model) :
  reachable Math_sin Math_cos toString_other Model tf_fit tf_predict s ->
  products s <> [] ->
  let train := firstn 120 (products s) in
  let val := skipn 120 (products s) in
  fit_effect Model seed (products s)
  = ModelFit seed (Tf.Mat (map (normalized_row (products s)) train))
                  (Tf.Mat (map label_row train))
                  (Tf.Mat (map (normalized_row (products s)) val))
                  (Tf.Mat (map label_row val))
  /\ map id train = map of_Z (Zseq 1 120)
  /\ map id val = map of_Z (Zseq 121 30).
Proof.
  intros Hs Hne train val.
  destruct (reachable_products Math_sin Math_cos toString_other Model tf_fit
              tf_predict s Hs) as [Hnil|Hbase]; [contradiction|].
  assert (Hlen : List.length (products s) = 150%nat).
  { rewrite (Forall2_length_eq _ _ _ Hbase), generateProducts_map, length_map.
    apply Zseq_length. }
  assert (Hids : map id (products s) = map of_Z (Zseq 1 150)).
  { rewrite (same_base_ids _ _ Hbase), generateProducts_map, map_map. reflexivity. }
  split; [|split].
  - unfold fit_effect. now rewrite (train_val_split_150 _ Hlen).
  - subst train. rewrite <- firstn_map, Hids, firstn_map. reflexivity.
  - subst val. rewrite <- skipn_map, Hids, skipn_map. reflexivity.
Qed.

End OwnBlocks.

(** * The dashboard, the keys and the blocks while cycles wait *)

(** The same three facts for the page whose cycles are suspended at their
    [await]s while other events arrive. *)

Section OwnPage.

Variable Math_sin Math_cos : float -> float.
Variable toString_other : float -> string.
Variable Model : Type.
Variable tf_fit :
  nat -> Tf.Tensor -> Tf.Tensor -> Tf.Tensor -> Tf.Tensor ->
  Outcome (Model * option (list float)).
Variable tf_predict : Model -> Tf.Tensor -> Outcome (list float).

(** [stats.total] and [stats.serverReorders] count the records of
    [products]. *)
Definition counted (s : AppState Model) : Prop :=
  total (stats s) = Z.of_nat (List.length (products s))
  /\ serverReorders (stats s) = count_where reorder_truthy (products s).

Lemma fit_settled_stats (seed : nat) (items : list Product) (late : bool)
  (s : AppState Model) :
  stats (snd (fit_settled Model tf_fit tf_predict seed items late s)) = stats s.
Proof.
  unfold fit_settled.
  destruct (fit_outcome Model tf_fit seed items) as [[m h]|e]; [|reflexivity].
  assert (H1 : stats (snd (bind Model (dispose_stored Model)
                             (fun _ => bind Model
                                         (setModelStore Model (stored_of Model m items))
                                         (fun _ => emit Model
                                                     (ModelPredict m (input_norm items))))
                             s))
               = stats s).
  { unfold bind, dispose_stored. now destruct (modelStore s). }
  destruct (tf_predict m (input_norm items)) as [d|e]; [exact H1|].
  destruct late; exact H1.
Qed.

Lemma page_counts (pg : Page Model) :
  page_reachable Math_sin Math_cos toString_other Model tf_fit tf_predict pg ->
  counted (component pg).
Proof.
  induction 1 as [|pg pg' _ IH Hstep]; [split; reflexivity|].
  destruct Hstep as [pg Hm|pg Hm|seed pg Hm Hrun Hne
                    |seed items late pg before after Hw
                    |items h r pg before after Hw|pg Hm];
    cbn [component].
  - split; reflexivity.
  - unfold downloadCSV. destruct (_ =? _)%nat; exact IH.
  - unfold start_cycle. rewrite (length_nonempty _ Hne). exact IH.
  - destruct (mounted pg); cbn [settle]; [|exact IH].
    unfold counted. rewrite fit_settled_products, fit_settled_stats. exact IH.
  - destruct (mounted pg); cbn [settle]; [|exact IH].
    destruct r as [d|e]; [split; reflexivity | exact IH].
  - unfold unmount, dispose_stored. destruct (modelStore (component pg)); exact IH.
Qed.

(** The dashboard's first two cards are right on every page the events
    lead to, also while a cycle is suspended and after a cycle that was
    started on records since regenerated has written its own. *)
Theorem page_dashboard_counts (pg : Page Model) :
  page_reachable Math_sin Math_cos toString_other Model tf_fit tf_predict pg ->
  total (stats (component pg)) = Z.of_nat (List.length (products (component pg)))
  /\ serverReorders (stats (component pg))
     = Z.of_nat (List.length (filter rule_holds (products (component pg)))).
Proof.
  intros Hpg. destruct (page_counts pg Hpg) as [Ht Hr]. split; [exact Ht|].
  rewrite Hr, count_where_filter.
  rewrite (labelled_filter _ (own_labelled Math_sin Math_cos _
                                (proj1 (page_records _ _ _ _ _ _ pg Hpg)))).
  reflexivity.
Qed.

Lemma own_ids (ps : list Product) :
  own_records Math_sin Math_cos ps ->
  ps = [] \/ map id ps = map of_Z (Zseq 1 150).
Proof.
  intros [Hnil|Hbase]; [now left | right].
  rewrite (same_base_ids _ _ Hbase), generateProducts_map, map_map. reflexivity.
Qed.

(** The table of every such page is empty or lists the ids [1 .. 150] in
    this order; its keys are pairwise distinct. *)
Theorem page_table_keys (pg : Page Model) :
  page_reachable Math_sin Math_cos toString_other Model tf_fit tf_predict pg ->
  (products (component pg) = []
   \/ map id (products (component pg)) = map of_Z (Zseq 1 150))
  /\ NoDup (map id (products (component pg))).
Proof.
  intros Hpg.
  pose proof (own_ids _ (proj1 (page_records _ _ _ _ _ _ pg Hpg))) as Hids.
  split; [exact Hids|].
  destruct Hids as [-> | ->]; [constructor|].
  apply NoDup_map_in; [|apply Zseq_NoDup].
  intros x y Hx Hy Hxy. apply Zseq_In in Hx, Hy.
  apply (f_equal to_integer) in Hxy.
  rewrite !to_integer_of_Z in Hxy by (change (2 ^ 53) with 9007199254740992; lia).
  now injection Hxy.
Qed.

(** Every click on "Train" that the page accepts calls [model.fit], before
    the handler is suspended, on the records with the ids [1 .. 120] as
    training block and on those with the ids [121 .. 150] as validation
    block, whatever events came before. *)
Theorem page_fit_blocks (seed : nat) (pg : Page Model) :
  page_reachable Math_sin Math_cos toString_other Model tf_fit tf_predict pg ->
  mounted pg = true ->
  runningModel (component pg) = false ->
  products (component pg) <> [] ->
  let items := products (component pg) in
  let train := firstn 120 items in
  let val := skipn 120 items in
  page_step Math_sin Math_cos toString_other Model tf_fit tf_predict pg
            (mkPage (snd (start_cycle Model seed (component pg))) true
                    (suspended pg ++ [AwaitFit seed items]))
  /\ effects (snd (start_cycle Model seed (component pg)))
     = effects (component pg)
         ++ [ModelFit seed (Tf.Mat (map (normalized_row items) train))
                           (Tf.Mat (map label_row train))
                           (Tf.Mat (map (normalized_row items) val))
                           (Tf.Mat (map label_row val))]
  /\ map id train = map of_Z (Zseq 1 120)
  /\ map id val = map of_Z (Zseq 121 30).
Proof.
  intros Hpg Hm Hrun Hne items train val.
  destruct (proj1 (page_records _ _ _ _ _ _ pg Hpg)) as [Hnil|Hbase];
    [contradiction|].
  assert (Hlen : List.length items = 150%nat).
  { subst items. rewrite (Forall2_length_eq _ _ _ Hbase), generateProducts_map,
      length_map. apply Zseq_length. }
  assert (Hids : map id items = map of_Z (Zseq 1 150)).
  { subst items. rewrite (same_base_ids _ _ Hbase), generateProducts_map, map_map.
    reflexivity. }
  split; [now apply step_train|]. split; [|split].
  - unfold start_cycle. rewrite (length_nonempty _ Hne).
    unfold bind, setRunningModel, emit, fit_effect. cbn [snd effects products].
    fold items. now rewrite (train_val_split_150 _ Hlen).
  - subst train. rewrite <- firstn_map, Hids, firstn_map. reflexivity.
  - subst val. rewrite <- skipn_map, Hids, skipn_map. reflexivity.
Qed.

End OwnPage.


(** * The ends of the normalized range *)

(** A positive integer divided by itself is [1], and [0] divided by it is
    [0]. *)
Lemma of_Z_div_self (n : Z) : 0 < n < 2 ^ 53 -> (of_Z n / of_Z n)%float = 1%float.
Proof.
  intros Hn. apply Prim2SF_inj. rewrite div_spec, Prim2SF_of_Z, Prim2SF_one by lia.
  destruct (SF_of_pos_mantissa n Hn) as (Hl & _ & _ & Hm).
  unfold SF_of_pos, SF64div, SFdiv, SFdiv_core_binary. cbn [xorb Zdigits2].
  set (m := Z.to_pos (n * 2 ^ (52 - Z.log2 n))).
  assert (Hmz : Z.pos m = n * 2 ^ (52 - Z.log2 n)) by (subst m; rewrite Z2Pos.id; lia).
  assert (Hd : Z.pos (digits2_pos m) = 53) by (apply digits2_unique; lia).
  rewrite Hd, Z.sub_diag.
  replace (53 + (Z.log2 n - 52) - (53 + (Z.log2 n - 52))) with 0 by lia.
  change (Z.min (fexp prec emax 0) 0) with (-53).
  change (0 - -53) with 53. cbv iota.
  assert (Hq : Z.div_eucl (Z.shiftl (Z.pos m) 53) (Z.pos m) = (2 ^ 53, 0)).
  { rewrite Z.shiftl_mul_pow2 by lia.
    pose proof (Z_div_mod (Z.pos m * 2 ^ 53) (Z.pos m) ltac:(lia)) as H.
    destruct (Z.div_eucl (Z.pos m * 2 ^ 53) (Z.pos m)) as [q r].
    destruct H as [Hqr Hr].
    assert (q = 2 ^ 53 /\ r = 0) as [-> ->]; [|reflexivity].
    assert (Hq1 : q < 2 ^ 53 + 1) by nia. assert (Hq2 : 2 ^ 53 - 1 < q) by nia.
    split; [lia|]. assert (q = 2 ^ 53) by lia. subst q. lia. }
  rewrite Hq.
  assert (Hloc : new_location (Z.pos m) 0 = loc_Exact).
  { unfold new_location, new_location_even, new_location_odd.
    now destruct (Z.even (Z.pos m)). }
  rewrite Hloc.
  change (2 ^ 53) with (Z.pos 9007199254740992).
  rewrite (binary_round_aux_exact 9007199254740992 (-53) 1) by (try reflexivity; lia).
  reflexivity.
Qed.

Lemma of_Z_div_zero (n : Z) : 0 < n < 2 ^ 53 -> (of_Z 0 / of_Z n)%float = 0%float.
Proof.
  intros Hn. apply Prim2SF_inj. rewrite div_spec, of_Z_zero, Prim2SF_of_Z by lia.
  reflexivity.
Qed.

Lemma of_Z_nonzero (n : Z) : 0 < n < 2 ^ 53 -> (of_Z n =? 0)%float = false.
Proof.
  intros Hn. rewrite eqb_spec, Prim2SF_of_Z by lia. reflexivity.
Qed.

Lemma of_Z_eqb (a b : Z) :
  0 <= a < 2 ^ 53 -> 0 <= b < 2 ^ 53 -> (of_Z a =? of_Z b)%float = (a =? b).
Proof.
  intros Ha Hb. destruct (Z.eqb_spec a b) as [->|Hne].
  - rewrite eqb_spec. destruct (Z.eq_dec b 0) as [->|Hb0]; [reflexivity|].
    rewrite Prim2SF_of_Z by lia. unfold SF_of_pos, SFeqb, SFcompare.
    rewrite Z.compare_refl, Pos.compare_cont_refl. reflexivity.
  - pose proof (of_Z_leb a b Ha Hb) as H1. pose proof (of_Z_leb b a Hb Ha) as H2.
    rewrite leb_spec in H1, H2. rewrite eqb_spec.
    unfold SFleb, SFeqb in *.
    destruct (SFcompare (Prim2SF (of_Z a)) (Prim2SF (of_Z b))) as [[| |]|] eqn:Hc;
      try reflexivity.
    exfalso.
    assert (Hc' : SFcompare (Prim2SF (of_Z b)) (Prim2SF (of_Z a)) = Some Eq).
    { clear H1 H2. revert Hc.
      destruct (Prim2SF (of_Z a)) as [s1|s1| |s1 m1 e1],
               (Prim2SF (of_Z b)) as [s2|s2| |s2 m2 e2]; cbn;
        try discriminate; try reflexivity;
        try (destruct s1; discriminate); try (destruct s2; discriminate);
        try (destruct s1, s2; (discriminate || reflexivity)).
      destruct s1, s2; try discriminate;
        destruct (Z.compare_spec e1 e2) as [->|He|He]; try discriminate;
        rewrite Pos.compare_cont_spec; cbn [Pos.switch_Eq];
        destruct (Pos.compare_spec m1 m2) as [->|Hm|Hm]; try discriminate;
        rewrite Z.compare_refl, Pos.compare_cont_refl; reflexivity. }
    rewrite Hc' in H2.
    assert (a <= b) by (apply Z.leb_le; now rewrite <- H1).
    assert (b <= a) by (apply Z.leb_le; now rewrite <- H2).
    lia.
Qed.

(** In a column of integers that is not constant, the record that holds
    the minimum is normalized to [0] and the record that holds the maximum
    to [1]. *)
Lemma normalized_ends (a lo hi : float) :
  entry a -> entry lo -> entry hi ->
  (lo <=? a)%float = true -> (a <=? hi)%float = true ->
  (hi =? lo)%float = false ->
  ((a =? lo)%float = true
   -> Tf.div_no_nan (Tf.sub_entry a lo) (Tf.sub_entry hi lo) = 0%float)
  /\ ((a =? hi)%float = true
      -> Tf.div_no_nan (Tf.sub_entry a lo) (Tf.sub_entry hi lo) = 1%float).
Proof.
  intros (za & Hza & ->) (zl & Hzl & ->) (zh & Hzh & ->) H1 H2 Hne.
  rewrite of_Z_leb in H1, H2 by lia. apply Z.leb_le in H1, H2.
  rewrite of_Z_eqb in Hne by lia. apply Z.eqb_neq in Hne.
  rewrite !of_Z_eqb by lia. unfold Tf.sub_entry.
  rewrite !of_Z_sub by lia. rewrite !float32_of_Z by lia.
  unfold Tf.div_no_nan. rewrite of_Z_nonzero by lia.
  split; intros Heq; apply Z.eqb_eq in Heq; subst za.
  - rewrite Z.sub_diag, of_Z_div_zero by lia. reflexivity.
  - rewrite of_Z_div_self by lia. reflexivity.
Qed.

Lemma normalized_row_entry (items : list Product) (p : Product)
  (j : nat) (a lo hi : float) :
  nth_error (feature_row p) j = Some a ->
  nth_error (feature_min items) j = Some lo ->
  nth_error (feature_max items) j = Some hi ->
  nth_error (normalized_row items p) j
  = Some (Tf.div_no_nan (Tf.sub_entry a lo) (Tf.sub_entry hi lo)).
Proof.
  intros Ha Hlo Hhi. unfold normalized_row.
  apply map2_nth_error_Some; now apply map2_nth_error_Some.
Qed.

Section OwnColumns.

Variable Math_sin Math_cos : float -> float.
Variable toString_other : float -> string.
Variable Model : Type.
Variable tf_fit :
  nat -> Tf.Tensor -> Tf.Tensor -> Tf.Tensor -> Tf.Tensor ->
  Outcome (Model * option (list float)).
Variable tf_predict : Model -> Tf.Tensor -> Outcome (list float).

(** What is assumed of the host: the sine and the cosine of a finite
    number are at most [1] in magnitude. *)
Hypothesis sin_bounded :
  forall x, is_finite x = true -> (abs (Math_sin x) <=? 1)%float = true.
Hypothesis cos_bounded :
  forall x, is_finite x = true -> (abs (Math_cos x) <=? 1)%float = true.

(** On every page the events lead to, a feature that is not the same in
    every record is spread over the whole of [[0, 1]] in the tensor that
    [normalize] returns for [model.predict]: its rows are the normalized
    rows of the records, the records that hold the least value of the
    feature have a [0] in its column and those that hold the greatest a [1],
    and there are records of both kinds. *)
Theorem normalized_column_ends
  (pg : Page Model) (j : nat) (lo hi : float) :
  page_reachable Math_sin Math_cos toString_other Model tf_fit tf_predict pg ->
  let ps := products (component pg) in
  nth_error (feature_min ps) j = Some lo ->
  nth_error (feature_max ps) j = Some hi ->
  (hi =? lo)%float = false ->
  input_norm ps = Tf.Mat (map (normalized_row ps) ps)
  /\ (forall p a,
        In p ps -> nth_error (features p) j = Some a ->
        ((a =? lo)%float = true ->
         nth_error (normalized_row ps p) j = Some 0%float)
        /\ ((a =? hi)%float = true ->
            nth_error (normalized_row ps p) j = Some 1%float))
  /\ (exists p, In p ps /\ nth_error (normalized_row ps p) j = Some 0%float)
  /\ (exists p, In p ps /\ nth_error (normalized_row ps p) j = Some 1%float).
Proof.
  intros Hpg ps Hlo Hhi Hne.
  destruct (page_records _ _ _ _ _ _ pg Hpg) as [Hown _]. fold ps in Hown.
  pose proof (own_in_range Math_sin Math_cos sin_bounded cos_bounded ps Hown) as Hrange.
  pose proof (own_entries Math_sin Math_cos sin_bounded cos_bounded ps Hown) as Hent.
  pose proof (entries_natural _ Hent) as Hnat.
  destruct (min_column_bound _ j lo Hnat Hlo) as (_ & Hmin).
  destruct (max_column_bound _ j hi Hnat Hhi) as (_ & Hmax).
  pose proof (column_bound_entry _ _ j lo min_step_pick Hent Hlo) as Helo.
  pose proof (column_bound_entry _ _ j hi max_step_pick Hent Hhi) as Hehi.
  split; [apply input_norm_rows|].
  assert (Hends : forall p a,
             In p ps -> nth_error (feature_row p) j = Some a ->
             ((a =? lo)%float = true ->
              nth_error (normalized_row ps p) j = Some 0%float)
             /\ ((a =? hi)%float = true ->
                 nth_error (normalized_row ps p) j = Some 1%float)).
  { intros p a Hp Ha.
    rewrite (normalized_row_entry _ p j a lo hi Ha Hlo Hhi).
    assert (Hrow : In (feature_row p) (map feature_row ps)) by now apply in_map.
    assert (Hea : entry a).
    { rewrite Forall_forall in Hent. specialize (Hent _ Hrow).
      rewrite Forall_forall in Hent. apply Hent. now apply nth_error_In with j. }
    destruct (normalized_ends a lo hi Hea Helo Hehi (Hmin _ a Hrow Ha)
                (Hmax _ a Hrow Ha) Hne) as [H0 H1].
    split; intros Heq; [now rewrite H0 | now rewrite H1]. }
  split.
  { intros p a Hp Ha. apply Hends; [exact Hp|].
    rewrite Forall_forall in Hrange. now rewrite (in_range_entries p (Hrange p Hp)). }
  assert (Hself : forall x, entry x -> (x =? x)%float = true).
  { intros x (z & Hz & ->). rewrite of_Z_eqb by lia. apply Z.eqb_refl. }
  split.
  - destruct (reduce_rows_pick _ _ _ _ min_step_pick Hlo) as (row & Hrow & Hj).
    apply in_map_iff in Hrow. destruct Hrow as (p & <- & Hp).
    exists p. split; [exact Hp|]. now apply (Hends p lo Hp Hj), Hself.
  - destruct (reduce_rows_pick _ _ _ _ max_step_pick Hhi) as (row & Hrow & Hj).
    apply in_map_iff in Hrow. destruct Hrow as (p & <- & Hp).
    exists p. split; [exact Hp|]. now apply (Hends p hi Hp Hj), Hself.
Qed.

End OwnColumns.


(** * The properties on the sample runs *)

(** The scores of the small backend on the five sample records. *)
Definition sample_scores : list float :=
  [1; 0.15463916957378387; 0.71821308135986328; 0.0068728523328900337; 0]%float.

Lemma sample_cycle_outcome :
  cycle_outcome unit sample_fit sample_predict 0 (products sample_state)
  = Returned (tt, Some [0.5; 0.75]%float, sample_scores).
Proof. vm_compute. reflexivity. Qed.

(** A backend whose models can be told apart: the model of a fit is the
    seed of the fit. *)
Definition seed_fit (seed : nat) (xTrain yTrain xVal yVal : Tf.Tensor)
  : Outcome (nat * option (list float)) :=
  Returned (seed, Some [0.5]%float).

Definition seed_predict (m : nat) (input : Tf.Tensor) : Outcome (list float) :=
  Returned (map (fun row => nth 0 row 0%float) (Tf.rows_of input)).

(** The page after load, a cycle with seed 7, a cycle with seed 8, a
    regeneration and a cycle with seed 9. *)
Definition busy_state : AppState nat :=
  let train seed s := snd (trainAndPredict (fun _ => "?"%string) nat seed_fit
                                           seed_predict seed s) in
  let s0 := snd (regenerate flat_sin flat_cos nat (initialState nat)) in
  train 9%nat (snd (regenerate flat_sin flat_cos nat (train 8%nat (train 7%nat s0)))).

Lemma busy_reachable :
  reachable flat_sin flat_cos (fun _ => "?"%string) nat seed_fit seed_predict
            busy_state.
Proof.
  unfold busy_state. cbv zeta.
  apply reach_train, reach_regenerate, reach_train, reach_train, reach_regenerate,
    reach_init.
Qed.

Lemma dashboard_counts_witness :
  total (stats trained_state) = Z.of_nat (List.length (products trained_state))
  /\ serverReorders (stats trained_state)
     = Z.of_nat (List.length (filter rule_holds (products trained_state))).
Proof.
  apply (dashboard_counts flat_sin flat_cos (fun _ => "?"%string) unit sample_fit
           sample_predict trained_state).
  exact trained_reachable.
Defined.

Lemma successful_cycle_stats_witness :
  let s' := snd (trainAndPredict (fun _ => "?"%string) unit sample_fit
                                 sample_predict 0 sample_state) in
  let n := List.length (products sample_state) in
  total (stats s') = Z.of_nat n
  /\ serverReorders (stats s') = count_where reorder_truthy (products sample_state)
  /\ modelReorders (stats s')
     = Z.of_nat (List.length (filter (fun v => (0.5 <? v)%float)
                                     (firstn n sample_scores)))
  /\ 0 <= modelReorders (stats s') <= total (stats s')
  /\ (Some [0.5; 0.75]%float = None \/ Some [0.5; 0.75]%float = Some [] ->
      modelAccuracy (stats s') = "N/A"%string)
  /\ (forall l v,
        Some [0.5; 0.75]%float = Some (l ++ [v]) ->
        modelAccuracy (stats s')
        = (toFixed (fun _ => "?"%string) 1 (v * 100)%float ++ "%")%string).
Proof.
  apply (successful_cycle_stats (fun _ => "?"%string) unit sample_fit sample_predict
           0%nat sample_state tt (Some [0.5; 0.75]%float) sample_scores).
  - discriminate.
  - exact sample_cycle_outcome.
Defined.

Lemma cycle_labels_every_record_witness :
  let s' := snd (trainAndPredict (fun _ => "?"%string) unit sample_fit
                                 sample_predict 0 sample_state) in
  List.length (products s') = List.length (products sample_state)
  /\ forall i p,
       nth_error (products s') i = Some p ->
       predictionScore p = nth_error sample_scores i
       /\ ((exists v, nth_error sample_scores i = Some v /\ (0.5 <? v)%float = true
                      /\ prediction p = Some 1%float
                      /\ predictionText p = Some "Reorder"%string)
           \/ ((forall v, nth_error sample_scores i = Some v ->
                          (0.5 <? v)%float = false)
               /\ prediction p = Some 0%float
               /\ predictionText p = Some "No Reorder"%string)).
Proof.
  apply (cycle_labels_every_record (fun _ => "?"%string) unit sample_fit
           sample_predict 0%nat sample_state tt (Some [0.5; 0.75]%float)
           sample_scores).
  - discriminate.
  - exact sample_cycle_outcome.
Defined.

Lemma failed_scoring_replaces_model_witness :
  let s' := snd (trainAndPredict (fun _ => "?"%string) unit sample_fit
                                 failing_predict 0 sample_state) in
  products s' = products sample_state
  /\ stats s' = stats sample_state
  /\ runningModel s' = false
  /\ modelStore s'
     = Some (mkStored tt (Tf.min0 (Tf.tensor2d (map features (products sample_state))))
                         (Tf.max0 (Tf.tensor2d (map features (products sample_state)))))
  /\ (forall st, modelStore sample_state = Some st ->
                 In (ModelDispose (model st)) (effects s'))
  /\ last (effects s') (Alert "") = Alert (error_text (mkError "Error" "")).
Proof.
  apply (failed_scoring_replaces_model (fun _ => "?"%string) unit sample_fit
           failing_predict 0%nat sample_state tt (Some [0.5; 0.75]%float)
           (mkError "Error" "")).
  - discriminate.
  - reflexivity.
  - reflexivity.
Defined.

Lemma table_keys_distinct_witness :
  (products busy_state = [] \/ map id (products busy_state) = map of_Z (Zseq 1 150))
  /\ NoDup (map id (products busy_state)).
Proof.
  apply (table_keys_distinct flat_sin flat_cos (fun _ => "?"%string) nat
           seed_fit seed_predict busy_state).
  exact busy_reachable.
Defined.

Lemma page_cycle_blocks_witness :
  let train := firstn 120 (products busy_state) in
  let val := skipn 120 (products busy_state) in
  fit_effect nat 10 (products busy_state)
  = ModelFit 10 (Tf.Mat (map (normalized_row (products busy_state)) train))
                (Tf.Mat (map label_row train))
                (Tf.Mat (map (normalized_row (products busy_state)) val))
                (Tf.Mat (map label_row val))
  /\ map id train = map of_Z (Zseq 1 120)
  /\ map id val = map of_Z (Zseq 121 30).
Proof.
  apply (page_cycle_blocks flat_sin flat_cos (fun _ => "?"%string) nat
           seed_fit seed_predict 10%nat busy_state).
  - exact busy_reachable.
  - vm_compute. discriminate.
Defined.

Lemma generate_prefix_witness :
  firstn (Z.to_nat 120) (generateProducts flat_sin flat_cos 150)
  = generateProducts flat_sin flat_cos 120.
Proof. apply (generate_prefix flat_sin flat_cos 120 150). lia. Defined.

(** ** A host that tabulates the sine and the cosine *)

(** The sine and the cosine of the host are not part of the program.  The
    runs below take them from two tables that hold, for the 150 arguments
    at which the generator calls them, the number nearest to the sine and to
    the cosine. *)

(** The sine at [11 i] for [i = 1 .. 150], to the nearest number. *)
Definition sine_table : list (float * float) :=
  [(11, -0.9999902065507035); (22, -0.008851309290403876);
   (33, 0.9999118601072672); (44, 0.017701925105413577);
   (55, -0.9997551733586199); (66, -0.026551154023966794);
   (77, 0.9995201585807313); (88, 0.03539830273366068);
   (99, -0.9992068341863537); (110, -0.044242678085070965);
   (121, 0.9988152247235795); (132, 0.05308358714605824);
   (143, -0.9983453608739179); (154, -0.06192033725605731);
   (165, 0.9977972794498907); (176, 0.07075223608034517);
   (187, -0.997171023392149); (198, -0.07957859166428352);
   (209, 0.9964666417661079); (220, 0.08839871248753149);
   (231, -0.9956841897581032); (242, -0.09721190751822432);
   (253, 0.9948237286710673); (264, 0.10601748626711377);
   (275, -0.9938853259197261); (286, -0.11481475884166603);
   (297, 0.992869055025318); (308, 0.12360303600011291);
   (319, -0.9917749956098326); (330, -0.13238162920545193);
   (341, 0.9906032333897737); (352, 0.14114985067939137);
   (363, -0.9893538601694428); (374, -0.14990701345623575);
   (385, 0.9880269738337468); (396, 0.15865243143670757);
   (407, -0.9866226783405293); (418, -0.1673854194417015);
   (429, 0.9851410837124249); (440, 0.176105293265966);
   (451, -0.9835823060282404); (462, -0.18481136973170906);
   (473, 0.9819464674138593); (484, 0.19350296674212325);
   (495, -0.9802336960326743); (506, -0.20217940333482604);
   (517, 0.9784441260755459); (528, 0.21083999973521134);
   (539, -0.9765778977502884); (550, -0.219484077409708);
   (561, 0.9746351572706857); (572, 0.22811095911894086);
   (583, -0.9726160568450356); (594, -0.23671996897079078);
   (605, 0.9705207546642247); (616, 0.24531043247334874);
   (627, -0.9683494148893343); (638, -0.2538816765877605);
   (649, 0.9661022076387795); (660, 0.2624330297809573);
   (671, -0.9637793089749802); (682, -0.27096382207826836);
   (693, 0.9613809008905675); (704, 0.279473385115912);
   (715, -0.9589071712941251); (726, -0.28796105219335977);
   (737, 0.9563583139954668); (748, 0.29642615832557057);
   (759, -0.9537345286904526); (770, -0.30486804029509035);
   (781, 0.9510360209453427); (792, 0.3132860367040136);
   (803, -0.9482630021806919); (814, -0.32167948802580176);
   (825, 0.945415689654786); (836, 0.3300477366569554);
   (847, -0.9424943064466191); (858, -0.33839012696853565);
   (869, 0.9394990814384173); (880, 0.3467060053575308);
   (891, -0.9364302492977055); (902, -0.3549947202980643);
   (913, 0.9332880504589218); (924, 0.3632556223924401);
   (935, -0.9300727311045811); (946, -0.371488064422021);
   (957, 0.9267845431459862); (968, 0.3796914013979365);
   (979, -0.9234237442034923); (990, -0.38786499061161595);
   (1001, 0.9199905975863218); (1012, 0.3960081916851428);
   (1023, -0.9164853722719367); (1034, -0.40412036662142653);
   (1045, 0.9129083428849631); (1056, 0.4122008798541881);
   (1067, -0.9092597896756763); (1078, -0.4202490982977543);
   (1089, 0.9055399984980432); (1100, 0.4282643913966589);
   (1111, -0.9017492607873272); (1122, -0.4362461311750444);
   (1133, 0.8978878735372546); (1144, 0.4441936922858625);
   (1155, -0.8939561392767458); (1166, -0.452106452059868);
   (1177, 0.8899543660462135); (1188, 0.45998379055440347);
   (1199, -0.8858828673734284); (1210, -0.4678250906019699);
   (1221, 0.8817419622489547); (1232, 0.47562973785858026);
   (1243, -0.877531975101159); (1254, -0.48339712085189107);
   (1265, 0.8732532357707915); (1276, 0.49112663102911036);
   (1287, -0.8689060794851441); (1298, -0.4988176628046754);
   (1309, 0.8644908468317865); (1320, 0.5064696136076988);
   (1331, -0.8600078837318815); (1342, -0.5140818839291789);
   (1353, 0.855457541413084); (1364, 0.5216538773689684);
   (1375, -0.8508401763820226); (1386, -0.5291850006825017);
   (1397, 0.8461561503963682); (1408, 0.5366746638272738);
   (1419, -0.8414058304364918); (1430, -0.5441222800090677);
   (1441, 0.8365895886767123); (1452, 0.5515272657279293);
   (1463, -0.8317078024561378); (1474, -0.5588890408238818);
   (1485, 0.8267608542491021); (1496, 0.5662070285223806);
   (1507, -0.8217491316351986); (1518, -0.5734806554795013);
   (1529, 0.8166730272689153); (1540, 0.5807093518268601);
   (1551, -0.8115329388488705); (1562, -0.5878925512162609);
   (1573, 0.8063292690866548); (1584, 0.5950296908640674);
   (1595, -0.8010624256752796); (1606, -0.6021202115952958);
   (1617, 0.7957328212572355); (1628, 0.609163557887424);
   (1639, -0.7903408733921631); (1650, -0.6161591779139161)]%float.

(** The cosine at [7 i] for [i = 1 .. 150], to the nearest number. *)
Definition cosine_table : list (float * float) :=
  [(7, 0.7539022543433046); (14, 0.1367372182078336);
   (21, -0.5477292602242684); (28, -0.9626058663135666);
   (35, -0.9036922050915067); (42, -0.39998531498835127);
   (49, 0.3005925437436371); (56, 0.8532201077225842);
   (63, 0.9858965815825497); (70, 0.6333192030862999);
   (77, -0.03097503173121646); (84, -0.6800234955873388);
   (91, -0.9943674609282015); (98, -0.8192882452914593);
   (105, -0.24095904923620143); (112, 0.4559691044442761);
   (119, 0.9284713207390763); (126, 0.9439841391523142);
   (133, 0.4948722204034305); (140, -0.19781357400426822);
   (147, -0.7931364191664784); (154, -0.9980810948185003);
   (161, -0.7117747556357236); (168, -0.07513609089835323);
   (175, 0.5984842190140996); (182, 0.9775332947055968);
   (189, 0.8754448901342752); (196, 0.3424664577455166);
   (203, -0.35907242107165305); (210, -0.8838774731823718);
   (217, -0.9736420181192547); (224, -0.5841843515845697);
   (231, 0.09280621889587708); (238, 0.7241179868699296);
   (245, 0.9990221465276736); (252, 0.7822121099422712);
   (259, 0.18040079959254857); (266, -0.510202970945957);
   (273, -0.9496871395301657); (280, -0.9217395798793158);
   (287, -0.4401159548467677); (294, 0.2581307588164473);
   (301, 0.8293266768209027); (308, 0.9923317436681922);
   (315, 0.6669156003948422); (322, 0.01324660552058789);
   (329, -0.6469423088661069); (336, -0.9887091356890289);
   (343, -0.8438377837054513); (350, -0.28363327918216646);
   (357, 0.4161742465410129); (364, 0.9111426845159583);
   (371, 0.9576508012289697); (378, 0.5328075113244262);
   (385, -0.1542812333919083); (392, -0.7654334506384766);
   (399, -0.9998427745803359); (406, -0.742133992851483);
   (413, -0.11915020589072603); (420, 0.5624787751985085);
   (427, 0.9672582391755589); (434, 0.8959575588946699);
   (441, 0.3836706077176726); (448, -0.3174572867274317);
   (455, -0.8623341359607118); (462, -0.9827740114685011);
   (469, -0.6194969495515196); (476, 0.048693717817118926);
   (483, 0.692917556820885); (490, 0.9960904985055212);
   (497, 0.8089921878856322); (504, 0.22371156988067947);
   (511, -0.4716788741741842); (518, -0.9349111030127383);
   (525, -0.9379843021695936); (532, -0.47938585687583785);
   (539, 0.21516414577161172); (546, 0.8038113259779768);
   (553, 0.9968261956713436); (560, 0.6992077062321952);
   (567, 0.05744233629398255); (574, -0.6125958925786359);
   (581, -0.9811171851269475); (588, -0.8667370227056902);
   (595, -0.3257528055543003); (602, 0.3755654737736039);
   (609, 0.8920321202171627); (616, 0.9694445789831095);
   (623, 0.5697007868953616); (630, -0.11044716389997422);
   (637, -0.7362335185953917); (644, -0.9996490548843638);
   (651, -0.7710418334635599); (658, -0.16293129799798153);
   (665, 0.5253732877360419); (672, 0.9550915099898928);
   (679, 0.9147179972350201); (686, 0.42412441041785603);
   (693, -0.2752212989629269); (700, -0.8391043258807425);
   (707, -0.9899839868584944); (714, -0.6535979930320404);
   (721, 0.0044859860962648745); (728, 0.660361983093894);
   (735, 0.9912107893779389); (742, 0.8341901141889754);
   (749, 0.2665848258979956); (756, -0.4322323117525429);
   (763, -0.9183066543585159); (770, -0.952394602046143);
   (777, -0.5177182206554476); (784, 0.17177673471265031);
   (791, 0.7767239557426453); (798, 0.9993711477610087);
   (805, 0.7301323667027152); (812, 0.10152572669136999);
   (819, -0.577051418249783); (826, -0.9716064568723952);
   (833, -0.887941178091436); (840, -0.3672352549023715);
   (847, 0.334222205000964); (854, 0.8711770025060053);
   (861, 0.9793424072416762); (868, 0.6054798946809916);
   (875, -0.06639709212258378); (882, -0.7055937295471035);
   (889, -0.9975003145895389); (896, -0.7984417422073145);
   (903, -0.20639374423424112); (910, 0.4872403240862148);
   (917, 0.9410569017053605); (924, 0.931689515235779);
   (931, 0.4637487500631885); (938, -0.23244705899272397);
   (945, -0.81423347364336); (952, -0.9952578436902936);
   (959, -0.6864207903785774); (966, -0.03973051889875125);
   (973, 0.6265149348505816); (980, 0.9843925624259556);
   (987, 0.8577566090928386); (994, 0.3089367201199639);
   (1001, -0.3919404295971039); (1008, -0.8999062670030438);
   (1015, -0.9649422971854211); (1022, -0.5550380793155483);
   (1029, 0.12805337870068162); (1036, 0.7481175410729898);
   (1043, 0.999961622756712); (1050, 0.7596291022331588)]%float.

(** The entry of a table at [x], and [0] where the table has none. *)
Definition tabulated (table : list (float * float)) (x : float) : float :=
  match find (fun kv => (fst kv =? x)%float) table with
  | Some kv => snd kv
  | None => 0%float
  end.

Definition table_sin : float -> float := tabulated sine_table.
Definition table_cos : float -> float := tabulated cosine_table.

Lemma tabulated_bounded (table : list (float * float)) :
  forallb (fun kv => (abs (snd kv) <=? 1)%float) table = true ->
  forall x, is_finite x = true -> (abs (tabulated table x) <=? 1)%float = true.
Proof.
  intros Hall x _. unfold tabulated.
  destruct (find (fun kv => (fst kv =? x)%float) table) as [kv|] eqn:E;
    [|reflexivity].
  apply find_some in E. destruct E as [Hin _].
  rewrite forallb_forall in Hall. now apply Hall.
Qed.

Lemma table_sin_bounded (x : float) :
  is_finite x = true -> (abs (table_sin x) <=? 1)%float = true.
Proof. apply tabulated_bounded. vm_compute. reflexivity. Qed.

Lemma table_cos_bounded (x : float) :
  is_finite x = true -> (abs (table_cos x) <=? 1)%float = true.
Proof. apply tabulated_bounded. vm_compute. reflexivity. Qed.

(** The page after load and one cycle with seed 7, and the same page
    after a click on "Train" with seed 8, while the fit is awaited. *)
Definition own_loaded : AppState nat :=
  snd (regenerate table_sin table_cos nat (initialState nat)).

Definition own_trained : AppState nat :=
  snd (trainAndPredict (fun _ => "?"%string) nat seed_fit seed_predict 7 own_loaded).

Definition own_page : Page nat := mkPage own_trained true [].

Definition fitting_page : Page nat :=
  mkPage (snd (start_cycle nat 8 own_trained)) true
         [AwaitFit 8 (products own_trained)].

Lemma own_page_reachable :
  page_reachable table_sin table_cos (fun _ => "?"%string) nat seed_fit seed_predict
                 own_page.
Proof.
  assert (H0 : page_reachable table_sin table_cos (fun _ => "?"%string) nat
                              seed_fit seed_predict (mkPage own_loaded true [])).
  { exact (page_next _ _ _ _ _ _ _ _ (page_first _ _ _ _ _ _)
             (step_regenerate _ _ _ _ _ _ (mkPage (initialState nat) true [])
                              eq_refl)). }
  apply (page_cycle _ _ _ _ _ _ 7 _ H0); try reflexivity.
  vm_compute. discriminate.
Qed.

Lemma fitting_page_reachable :
  page_reachable table_sin table_cos (fun _ => "?"%string) nat seed_fit seed_predict
                 fitting_page.
Proof.
  apply (page_next _ _ _ _ _ _ _ _ own_page_reachable).
  apply (step_train _ _ _ _ _ _ 8 own_page); [reflexivity | reflexivity |].
  vm_compute. discriminate.
Qed.

Example own_page_records :
  map (fun p => (id p, currentInventory p, avgSalesPerWeek p, daysToReplenish p,
                 reorder p))
      (firstn 4 (products own_trained))
  = [(1, 302, 120, 2, 0); (2, 55, 1, 3, 0); (3, 219, 120, 4, 0); (4, 385, 2, 5, 0)]%float
  /\ total (stats own_trained) = 150
  /\ serverReorders (stats own_trained) = 36
  /\ runningModel (component fitting_page) = true.
Proof. vm_compute. repeat split; reflexivity. Qed.

(** ** The properties on these pages *)

Lemma own_constant_column_witness :
  exists out,
    input_norm (products (component loaded_page)) = Tf.Mat out
    /\ Forall2 (fun (p : Product) row => nth_error row 1 = Some 0%float)
               (products (component loaded_page)) out.
Proof.
  apply (own_constant_column flat_sin flat_cos (fun _ => "?"%string) unit
           sample_fit sample_predict flat_sin_bounded flat_cos_bounded
           loaded_page 1 60 60).
  - exact loaded_page_reachable.
  - vm_compute. reflexivity.
  - vm_compute. reflexivity.
  - reflexivity.
Defined.

Lemma page_labels_follow_rule_witness :
  Forall (fun p => reorder p = (if rule_holds p then 1 else 0)%float)
         (products (component fitting_page))
  /\ Forall (fun w =>
               Forall (fun p => reorder p = (if rule_holds p then 1 else 0)%float)
                      (items_of w))
            (suspended fitting_page).
Proof.
  apply (page_labels_follow_rule table_sin table_cos (fun _ => "?"%string) nat
           seed_fit seed_predict fitting_page).
  exact fitting_page_reachable.
Defined.

Lemma one_cycle_at_a_time_witness :
  (List.length (suspended fitting_page) <= 1)%nat
  /\ (mounted fitting_page = true ->
      runningModel (component fitting_page) = negb (idle (suspended fitting_page))).
Proof.
  apply (one_cycle_at_a_time table_sin table_cos (fun _ => "?"%string) nat
           seed_fit seed_predict fitting_page).
  exact fitting_page_reachable.
Defined.

Lemma fitted_models_disposed_once_witness :
  fitted_models nat seed_fit (effects (component fitting_page))
  = disposed_models nat (effects (component fitting_page))
      ++ stored_model nat (modelStore (component fitting_page))
      ++ awaited_models nat seed_fit (suspended fitting_page)
  /\ (suspended fitting_page = [] ->
      fitted_models nat seed_fit
                    (effects (snd (unmount nat (component fitting_page))))
      = disposed_models nat (effects (snd (unmount nat (component fitting_page)))))
  /\ fst (unmount nat (component fitting_page)) = Returned tt.
Proof.
  apply (fitted_models_disposed_once table_sin table_cos (fun _ => "?"%string) nat
           seed_fit seed_predict fitting_page).
  - exact fitting_page_reachable.
  - reflexivity.
Defined.

Example fitting_page_models :
  fitted_models nat seed_fit (effects (component fitting_page)) = [7; 8]%nat
  /\ disposed_models nat (effects (component fitting_page)) = []
  /\ stored_model nat (modelStore (component fitting_page)) = [7]%nat
  /\ awaited_models nat seed_fit (suspended fitting_page) = [8]%nat.
Proof. vm_compute. repeat split; reflexivity. Qed.

Lemma unmount_while_fitting_witness :
  let pg1 := mkPage (snd (unmount nat (component fitting_page))) false
                    (suspended fitting_page) in
  page_step table_sin table_cos (fun _ => "?"%string) nat seed_fit seed_predict
            fitting_page pg1
  /\ (exists pg2,
        page_step table_sin table_cos (fun _ => "?"%string) nat seed_fit
                  seed_predict pg1 pg2)
  /\ forall pg2 pg3,
       page_step table_sin table_cos (fun _ => "?"%string) nat seed_fit
                 seed_predict pg1 pg2 ->
       page_later table_sin table_cos (fun _ => "?"%string) nat seed_fit
                  seed_predict pg2 pg3 ->
       fitted_models nat seed_fit (effects (component pg3))
       = disposed_models nat (effects (component fitting_page)) ++ [7; 8]%nat
       /\ disposed_models nat (effects (component pg3))
          = disposed_models nat (effects (component fitting_page)) ++ [7; 7]%nat
       /\ modelStore (component pg3)
          = Some (stored_of nat 8%nat (products own_trained)).
Proof.
  apply (unmount_while_fitting table_sin table_cos (fun _ => "?"%string) nat
           seed_fit seed_predict fitting_page 8%nat (products own_trained)
           8%nat (Some [0.5]%float) (stored_of nat 7%nat (products own_loaded))).
  - exact fitting_page_reachable.
  - reflexivity.
  - reflexivity.
  - vm_compute. reflexivity.
  - reflexivity.
Defined.

Lemma records_in_range_witness :
  Forall in_range (generateProducts table_sin table_cos 150)
  /\ Forall in_range (products (component fitting_page))
  /\ Forall (fun w => Forall in_range (items_of w)) (suspended fitting_page).
Proof.
  apply (records_in_range table_sin table_cos (fun _ => "?"%string) nat
           seed_fit seed_predict table_sin_bounded table_cos_bounded 150
           fitting_page).
  - reflexivity.
  - exact fitting_page_reachable.
Defined.

Lemma network_inputs_in_unit_interval_witness :
  let ps := products (component own_page) in
  input_norm ps = Tf.Mat (map (normalized_row ps) ps)
  /\ Forall (fun p =>
               List.length (normalized_row ps p) = 3%nat
               /\ Forall (fun v => in_unit_interval v = true) (normalized_row ps p))
            ps
  /\ let '(xTrain, _, xVal, _) := train_val_split ps in
     unit_entries xTrain /\ unit_entries xVal.
Proof.
  apply (network_inputs_in_unit_interval table_sin table_cos (fun _ => "?"%string)
           nat seed_fit seed_predict table_sin_bounded table_cos_bounded own_page).
  exact own_page_reachable.
Defined.

Lemma label_is_exact_rule_witness :
  Forall labelled_exactly (products (component own_page)).
Proof.
  apply (label_is_exact_rule table_sin table_cos (fun _ => "?"%string) nat
           seed_fit seed_predict table_sin_bounded table_cos_bounded own_page).
  exact own_page_reachable.
Defined.

Lemma normalized_column_ends_witness :
  let ps := products (component own_page) in
  input_norm ps = Tf.Mat (map (normalized_row ps) ps)
  /\ (forall p a,
        In p ps -> nth_error (features p) 0 = Some a ->
        ((a =? 2)%float = true ->
         nth_error (normalized_row ps p) 0 = Some 0%float)
        /\ ((a =? 400)%float = true ->
            nth_error (normalized_row ps p) 0 = Some 1%float))
  /\ (exists p, In p ps /\ nth_error (normalized_row ps p) 0 = Some 0%float)
  /\ (exists p, In p ps /\ nth_error (normalized_row ps p) 0 = Some 1%float).
Proof.
  apply (normalized_column_ends table_sin table_cos (fun _ => "?"%string) nat
           seed_fit seed_predict table_sin_bounded table_cos_bounded
           own_page 0 2%float 400%float).
  - exact own_page_reachable.
  - vm_compute. reflexivity.
  - vm_compute. reflexivity.
  - reflexivity.
Defined.

Lemma page_dashboard_counts_witness :
  total (stats (component fitting_page))
  = Z.of_nat (List.length (products (component fitting_page)))
  /\ serverReorders (stats (component fitting_page))
     = Z.of_nat (List.length (filter rule_holds (products (component fitting_page)))).
Proof.
  apply (page_dashboard_counts table_sin table_cos (fun _ => "?"%string) nat
           seed_fit seed_predict fitting_page).
  exact fitting_page_reachable.
Defined.

Lemma page_table_keys_witness :
  (products (component fitting_page) = []
   \/ map id (products (component fitting_page)) = map of_Z (Zseq 1 150))
  /\ NoDup (map id (products (component fitting_page))).
Proof.
  apply (page_table_keys table_sin table_cos (fun _ => "?"%string) nat
           seed_fit seed_predict fitting_page).
  exact fitting_page_reachable.
Defined.

Lemma page_fit_blocks_witness :
  let items := products (component own_page) in
  let train := firstn 120 items in
  let val := skipn 120 items in
  page_step table_sin table_cos (fun _ => "?"%string) nat seed_fit seed_predict
            own_page
            (mkPage (snd (start_cycle nat 8 (component own_page))) true
                    (suspended own_page ++ [AwaitFit 8 items]))
  /\ effects (snd (start_cycle nat 8 (component own_page)))
     = effects (component own_page)
         ++ [ModelFit 8 (Tf.Mat (map (normalized_row items) train))
                        (Tf.Mat (map label_row train))
                        (Tf.Mat (map (normalized_row items) val))
                        (Tf.Mat (map label_row val))]
  /\ map id train = map of_Z (Zseq 1 120)
  /\ map id val = map of_Z (Zseq 121 30).
Proof.
  apply (page_fit_blocks table_sin table_cos (fun _ => "?"%string) nat
           seed_fit seed_predict 8 own_page).
  - exact own_page_reachable.
  - reflexivity.
  - reflexivity.
  - vm_compute. discriminate.
Defined.

Lemma export_reachable_witness :
  exists rows,
    downloadCSV (fun _ => "?"%string) nat (component fitting_page)
    = (Returned tt,
       mkApp (products (component fitting_page)) (runningModel (component fitting_page))
             (stats (component fitting_page)) (modelStore (component fitting_page))
             (effects (component fitting_page)
                ++ [Download "products_with_predictions.csv"
                             (csv_of (fun _ => "?"%string)
                                     (products (component fitting_page)))]))
    /\ CsvReader.parse (csv_of (fun _ => "?"%string) (products (component fitting_page)))
       = Some rows
    /\ Forall2 recovers (products (component fitting_page)) rows.
Proof.
  apply (export_reachable table_sin table_cos (fun _ => "?"%string) nat
           seed_fit seed_predict table_sin_bounded table_cos_bounded
           (fun _ => eq_refl) fitting_page).
  - exact fitting_page_reachable.
  - vm_compute. discriminate.
Defined.
